(** * TreasuryVault and StrategyExecutor

    A shallow embedding of the [TreasuryVault] contract (Solidity ^0.8.20,
    OpenZeppelin 5 mixins) and the properties of its propose / approve /
    execute workflow, asset ledger and allocation view, followed by the
    [StrategyExecutor] contract its actions are aimed at.

    Conventions
    - [uint256] and [address] are [Z]; checked arithmetic reverts with
      [Panic 0x11] when the result leaves [0, 2^256), [unchecked] blocks wrap
      modulo [2^256].
    - A Solidity [mapping] is a total function (absent keys read as zero) and
      is updated with stdpp's function insert [<[k := v]> f].
    - A contract function is a computation in the monad [M]: it reads and
      writes the contract storage and either returns or reverts.  A revert
      discards every storage write and every log entry of the call, which
      is what [commit] implements.
    - External calls ([target.call], [IERC20.safeTransferFrom], ...) hand
      control to a callee that may call back into the vault before it
      returns; see [Callee].  A call that forwards native value needs the
      vault account to hold it; see [low_level_call]. *)

From Stdlib Require Import ZArith List Bool Lia.
From Stdlib Require String.
From stdpp Require Import base decidable functions numbers list.
Import ListNotations.
Open Scope Z_scope.

(** ** Value types *)

Definition address := Z.
Definition uint256 := Z.
Definition bytes := list Z.

Definition UINT256_MODULUS : Z := 2 ^ 256.

(** [keccak256] is treated as a collision-free digest: a [bytes32] value is
    represented by the byte string it is the digest of. *)
Inductive bytes32 : Type :=
| keccak256 (preimage : bytes).

#[global] Instance bytes32_eq_dec : EqDecision bytes32.
Proof. solve_decision. Defined.

(** Big-endian, fixed-width encoding used by [abi.encodePacked] for static
    types: [n] bytes, most significant first. *)
Fixpoint be_bytes (n : nat) (x : Z) : bytes :=
  match n with
  | O => []
  | S n' => be_bytes n' (x / 256) ++ [x mod 256]
  end.

(** [abi.encodePacked(target, data, value, block.timestamp, msg.sender)]:
    [address] takes 20 bytes, [uint256] 32 bytes, [bytes] is copied as is. *)
Definition encodePacked (target : address) (data : bytes) (value : uint256)
    (timestamp : uint256) (sender : address) : bytes :=
  be_bytes 20 target ++ data ++ be_bytes 32 value
    ++ be_bytes 32 timestamp ++ be_bytes 20 sender.

(** ** Roles, errors, events *)

(** [DEFAULT_ADMIN_ROLE] is OpenZeppelin's [0x00]; the other three are the
    [keccak256] constants declared by the vault.  Nothing in the vault looks
    at any other role identifier. *)
Inductive Role : Type :=
| DEFAULT_ADMIN_ROLE
| OWNER_ROLE
| EXECUTOR_ROLE
| AI_AGENT_ROLE.

#[global] Instance Role_eq_dec : EqDecision Role.
Proof. solve_decision. Defined.

(** The vault's custom errors, followed by the errors of the inherited
    OpenZeppelin contracts and the compiler's arithmetic panic. *)
Inductive Error : Type :=
| InsufficientApprovals
| ActionAlreadyExecuted
| TimeLockNotExpired
| UnauthorizedStrategy
| InsufficientBalance
| InvalidThreshold
| InvalidOwnerCount
| AlreadyApproved
| ActionNotFound
| CallFailed
| AccessControlUnauthorizedAccount (account : address) (neededRole : Role)
| AccessControlBadConfirmation
| EnforcedPause
| ExpectedPause
| ReentrancyGuardReentrantCall
| SafeERC20FailedOperation (token : address)
| Panic (code : Z).

#[global] Instance Error_eq_dec : EqDecision Error.
Proof. solve_decision. Defined.

Inductive ActionType : Type :=
| SwapTokens
| AddLiquidity
| SupplyLending
| Stake
| Rebalance.

Inductive Event : Type :=
| ActionProposed (actionId : bytes32) (actionType : ActionType) (proposer : address)
| ActionApproved (actionId : bytes32) (approver : address) (approvals : uint256)
| ActionExecuted (actionId : bytes32) (success : bool)
| Deposit (token : address) (amount : uint256) (depositor : address)
| StrategyApproved (strategy : address)
| EmergencyWithdraw (token : address) (to : address) (amount : uint256)
| Paused (account : address)
| Unpaused (account : address)
| RoleGranted (role : Role) (account : address) (sender : address)
| RoleRevoked (role : Role) (account : address) (sender : address).

(** ** Storage *)

Record Action : Type := mkAction {
  target : address;
  value : uint256;
  proposedAt : uint256;
  executionTime : uint256;
  approvals : uint256;
  executed : bool;
  actionType : ActionType;
  data : bytes
}.

(** The value a [mapping(bytes32 => Action)] reads at an unwritten key. *)
Definition zeroAction : Action :=
  {| target := 0; value := 0; proposedAt := 0; executionTime := 0;
     approvals := 0; executed := false; actionType := SwapTokens; data := [] |}.

Record AllocationItem : Type := mkAllocationItem {
  asset : address;
  amount : uint256;
  percentage : uint256;
  valueUSD : uint256
}.

(** Contract storage: the vault's own state variables, the state of the
    three OpenZeppelin mixins ([_roles], [_paused], and [_status == ENTERED]
    as [locked]), the log of the events emitted so far, and the native
    currency the vault account really holds ([address(this).balance]), which
    the contract does not store but which decides whether a call that
    forwards value can go through. *)
Record State : Type := mkState {
  roles : Role -> address -> bool;
  paused : bool;
  locked : bool;
  approvalThreshold : uint256;
  ownerCount : uint256;
  pendingActions : bytes32 -> Action;
  actionApprovals : bytes32 -> address -> bool;
  assetBalances : address -> uint256;
  supportedAssets : list address;
  approvedStrategies : address -> bool;
  logs : list Event;
  nativeHeld : Z
}.

Definition set_roles (f : (Role -> address -> bool) -> Role -> address -> bool)
    (s : State) : State :=
  mkState (f (roles s)) (paused s) (locked s) (approvalThreshold s)
    (ownerCount s) (pendingActions s) (actionApprovals s) (assetBalances s)
    (supportedAssets s) (approvedStrategies s) (logs s) (nativeHeld s).

Definition set_paused (b : bool) (s : State) : State :=
  mkState (roles s) b (locked s) (approvalThreshold s)
    (ownerCount s) (pendingActions s) (actionApprovals s) (assetBalances s)
    (supportedAssets s) (approvedStrategies s) (logs s) (nativeHeld s).

Definition set_locked (b : bool) (s : State) : State :=
  mkState (roles s) (paused s) b (approvalThreshold s)
    (ownerCount s) (pendingActions s) (actionApprovals s) (assetBalances s)
    (supportedAssets s) (approvedStrategies s) (logs s) (nativeHeld s).

Definition set_governance (threshold count : uint256) (s : State) : State :=
  mkState (roles s) (paused s) (locked s) threshold
    count (pendingActions s) (actionApprovals s) (assetBalances s)
    (supportedAssets s) (approvedStrategies s) (logs s) (nativeHeld s).

Definition set_pendingActions (f : (bytes32 -> Action) -> bytes32 -> Action)
    (s : State) : State :=
  mkState (roles s) (paused s) (locked s) (approvalThreshold s)
    (ownerCount s) (f (pendingActions s)) (actionApprovals s) (assetBalances s)
    (supportedAssets s) (approvedStrategies s) (logs s) (nativeHeld s).

Definition set_actionApprovals
    (f : (bytes32 -> address -> bool) -> bytes32 -> address -> bool)
    (s : State) : State :=
  mkState (roles s) (paused s) (locked s) (approvalThreshold s)
    (ownerCount s) (pendingActions s) (f (actionApprovals s)) (assetBalances s)
    (supportedAssets s) (approvedStrategies s) (logs s) (nativeHeld s).

Definition set_assetBalances (f : (address -> uint256) -> address -> uint256)
    (s : State) : State :=
  mkState (roles s) (paused s) (locked s) (approvalThreshold s)
    (ownerCount s) (pendingActions s) (actionApprovals s) (f (assetBalances s))
    (supportedAssets s) (approvedStrategies s) (logs s) (nativeHeld s).

Definition set_supportedAssets (f : list address -> list address)
    (s : State) : State :=
  mkState (roles s) (paused s) (locked s) (approvalThreshold s)
    (ownerCount s) (pendingActions s) (actionApprovals s) (assetBalances s)
    (f (supportedAssets s)) (approvedStrategies s) (logs s) (nativeHeld s).

Definition set_approvedStrategies (f : (address -> bool) -> address -> bool)
    (s : State) : State :=
  mkState (roles s) (paused s) (locked s) (approvalThreshold s)
    (ownerCount s) (pendingActions s) (actionApprovals s) (assetBalances s)
    (supportedAssets s) (f (approvedStrategies s)) (logs s) (nativeHeld s).

Definition set_logs (f : list Event -> list Event) (s : State) : State :=
  mkState (roles s) (paused s) (locked s) (approvalThreshold s)
    (ownerCount s) (pendingActions s) (actionApprovals s) (assetBalances s)
    (supportedAssets s) (approvedStrategies s) (f (logs s)) (nativeHeld s).

Definition set_nativeHeld (f : Z -> Z) (s : State) : State :=
  mkState (roles s) (paused s) (locked s) (approvalThreshold s)
    (ownerCount s) (pendingActions s) (actionApprovals s) (assetBalances s)
    (supportedAssets s) (approvedStrategies s) (logs s) (f (nativeHeld s)).

(** Storage of a freshly created contract: every slot is zero. *)
Definition emptyState : State :=
  {| roles := fun _ _ => false; paused := false; locked := false;
     approvalThreshold := 0; ownerCount := 0;
     pendingActions := fun _ => zeroAction;
     actionApprovals := fun _ _ => false;
     assetBalances := fun _ => 0;
     supportedAssets := [];
     approvedStrategies := fun _ => false;
     logs := [];
     nativeHeld := 0 |}.

(** ** The contract monad *)

Inductive Res (A : Type) : Type :=
| Ok (ret : A) (s : State)
| Err (e : Error).
Arguments Ok {A} ret s.
Arguments Err {A} e.

Definition M (A : Type) : Type := State -> Res A.

Definition ret {A} (a : A) : M A := fun s => Ok a s.

Definition bind {A B} (c : M A) (k : A -> M B) : M B :=
  fun s => match c s with
           | Ok a s' => k a s'
           | Err e => Err e
           end.

Definition revert {A} (e : Error) : M A := fun _ => Err e.
Definition gets {A} (f : State -> A) : M A := fun s => Ok (f s) s.
Definition modify (f : State -> State) : M unit := fun s => Ok tt (f s).
Definition emit (ev : Event) : M unit := modify (set_logs (fun l => l ++ [ev])).

Notation "'let*' x ':=' c 'in' k" := (bind c (fun x => k))
  (at level 10, x name, c at level 100, k at level 200).
Notation "c ';;' k" := (bind c (fun _ => k))
  (at level 100, k at level 200, right associativity).

(** The storage a call leaves behind: its writes when it returns, the
    storage it started from when it reverts. *)
Definition commit {A} (s : State) (r : Res A) : State :=
  match r with
  | Ok _ s' => s'
  | Err _ => s
  end.

(** *** Solidity 0.8 arithmetic *)

Definition wrap (x : Z) : uint256 := x mod UINT256_MODULUS.

Definition checked_add (a b : uint256) : M uint256 :=
  if a + b <? UINT256_MODULUS then ret (a + b) else revert (Panic 17).

Definition checked_mul (a b : uint256) : M uint256 :=
  if a * b <? UINT256_MODULUS then ret (a * b) else revert (Panic 17).

(** Division by zero is [Panic 0x12]. *)
Definition checked_div (a b : uint256) : M uint256 :=
  if b =? 0 then revert (Panic 18) else ret (a / b).

(** *** Modifiers of the OpenZeppelin mixins *)

Definition nonReentrant {A} (body : M A) : M A :=
  fun s =>
    if locked s then Err ReentrancyGuardReentrantCall
    else match body (set_locked true s) with
         | Ok a s' => Ok a (set_locked false s')
         | Err e => Err e
         end.

Definition whenNotPaused {A} (body : M A) : M A :=
  fun s => if paused s then Err EnforcedPause else body s.

Definition whenPaused {A} (body : M A) : M A :=
  fun s => if paused s then body s else Err ExpectedPause.

Definition hasRole (role : Role) (account : address) : M bool :=
  gets (fun s => roles s role account).

Definition onlyRole {A} (role : Role) (sender : address) (body : M A) : M A :=
  let* ok := hasRole role sender in
  if ok then body else revert (AccessControlUnauthorizedAccount sender role).

(** ** Messages and external calls *)

(** [msg.sender] and [block.timestamp] of a call. *)
Record Msg : Type := mkMsg {
  sender : address;
  timestamp : uint256
}.

(** The party on the other end of an external call, given its address,
    the native value it receives and the calldata: what it does to the vault
    before it returns, and the low-level [success] flag. *)
Definition ExternalCall : Type := address -> uint256 -> bytes -> M bool.

(** [to.call{value: v}(d)].  The call fails at once when the vault account
    does not hold [v]; otherwise [v] leaves the account and the callee runs.
    A callee that fails hands the value back and leaves no trace. *)
Definition low_level_call (callee : ExternalCall) (to : address) (v : uint256)
    (d : bytes) : M bool :=
  fun s =>
    if nativeHeld s <? v then Ok false s
    else match callee to v d (set_nativeHeld (fun h => h - v) s) with
         | Ok true s' => Ok true s'
         | Ok false _ => Ok false s
         | Err e => Err e
         end.

(** A [payable] entry point: [msg.value] reaches the vault account before
    the body runs (and goes back if the body reverts). *)
Definition payable {A} (msg_value : uint256) (body : M A) : M A :=
  fun s => body (set_nativeHeld (fun h => h + msg_value) s).

(** ** TreasuryVault *)

Definition LARGE_TX_THRESHOLD : uint256 := 10.
Definition TIME_LOCK_DELAY : uint256 := 24 * 3600.

Definition with_approvals (n : uint256) (a : Action) : Action :=
  mkAction (target a) (value a) (proposedAt a) (executionTime a) n
    (executed a) (actionType a) (data a).

Definition with_executed (b : bool) (a : Action) : Action :=
  mkAction (target a) (value a) (proposedAt a) (executionTime a) (approvals a)
    b (actionType a) (data a).

(** AccessControl's [_grantRole] and [_revokeRole]. *)
Definition _grantRole (by_ : address) (role : Role) (account : address) : M unit :=
  let* has := hasRole role account in
  if has then ret tt
  else modify (set_roles (fun r => <[role := <[account := true]> (r role)]> r)) ;;
       emit (RoleGranted role account by_).

Definition _revokeRole (by_ : address) (role : Role) (account : address) : M unit :=
  let* has := hasRole role account in
  if has
  then modify (set_roles (fun r => <[role := <[account := false]> (r role)]> r)) ;;
       emit (RoleRevoked role account by_)
  else ret tt.

(** The [for] loop of the constructor. *)
Fixpoint grantOwners (deployer : address) (_owners : list address) : M unit :=
  match _owners with
  | [] => ret tt
  | o :: rest => _grantRole deployer OWNER_ROLE o ;; grantOwners deployer rest
  end.

Definition constructor (msg : Msg) (_owners : list address) (_threshold : uint256)
    : M unit :=
  match _owners with
  | [] => revert InvalidOwnerCount
  | first :: _ =>
      if (_threshold =? 0) || (Z.of_nat (length _owners) <? _threshold)
      then revert InvalidThreshold
      else
        _grantRole (sender msg) DEFAULT_ADMIN_ROLE first ;;
        modify (set_governance _threshold (Z.of_nat (length _owners))) ;;
        grantOwners (sender msg) _owners ;;
        modify (set_supportedAssets (fun l => l ++ [0]))
  end.

(** [receive() external payable]: [msg_value] is the native value sent. *)
Definition receive (msg : Msg) (msg_value : uint256) : M unit :=
  payable msg_value (
    modify (set_assetBalances (fun b => <[0 := wrap (b 0 + msg_value)]> b)) ;;
    emit (Deposit 0 msg_value (sender msg))).

Definition _isLargeTransaction (_value : uint256) : M bool :=
  let* bnbBalance := gets (fun s => assetBalances s 0) in
  if bnbBalance =? 0 then ret false
  else
    let* scaled := checked_mul _value 100 in
    let* ratio := checked_div scaled bnbBalance in
    ret (LARGE_TX_THRESHOLD <=? ratio).

Definition proposeAction (msg : Msg) (_target : address) (_data : bytes)
    (_value : uint256) (_actionType : ActionType) : M bytes32 :=
  whenNotPaused (
    let* isExecutor := hasRole EXECUTOR_ROLE (sender msg) in
    let* isAgent := hasRole AI_AGENT_ROLE (sender msg) in
    if negb isExecutor && negb isAgent
    then revert (AccessControlUnauthorizedAccount (sender msg) EXECUTOR_ROLE)
    else
      let actionId :=
        keccak256 (encodePacked _target _data _value (timestamp msg) (sender msg)) in
      let* execTime :=
        (if 0 <? _value
         then let* large := _isLargeTransaction _value in
              if large then checked_add (timestamp msg) TIME_LOCK_DELAY
              else ret (timestamp msg)
         else ret (timestamp msg)) in
      modify (set_pendingActions (fun p =>
        <[actionId := {| target := _target; data := _data; value := _value;
                         proposedAt := timestamp msg; executionTime := execTime;
                         approvals := 0; executed := false;
                         actionType := _actionType |}]> p)) ;;
      emit (ActionProposed actionId _actionType (sender msg)) ;;
      ret actionId).

Definition approveAction (msg : Msg) (actionId : bytes32) : M unit :=
  onlyRole OWNER_ROLE (sender msg) (
    let* action := gets (fun s => pendingActions s actionId) in
    if proposedAt action =? 0 then revert ActionNotFound
    else if executed action then revert ActionAlreadyExecuted
    else
      let* already := gets (fun s => actionApprovals s actionId (sender msg)) in
      if already then revert AlreadyApproved
      else
        modify (set_actionApprovals (fun m =>
          <[actionId := <[sender msg := true]> (m actionId)]> m)) ;;
        modify (set_pendingActions (fun p =>
          <[actionId := with_approvals (wrap (approvals (p actionId) + 1))
                          (p actionId)]> p)) ;;
        let* count := gets (fun s => approvals (pendingActions s actionId)) in
        emit (ActionApproved actionId (sender msg) count)).

(** [action] is a storage reference: what is read through it after the
    forwarded call is the storage as the callee left it. *)
Definition executeAction (call : ExternalCall) (msg : Msg) (actionId : bytes32)
    : M unit :=
  nonReentrant (whenNotPaused (
    let* action := gets (fun s => pendingActions s actionId) in
    if proposedAt action =? 0 then revert ActionNotFound
    else if executed action then revert ActionAlreadyExecuted
    else
      let* threshold := gets approvalThreshold in
      if approvals action <? threshold then revert InsufficientApprovals
      else if timestamp msg <? executionTime action then revert TimeLockNotExpired
      else
        let* whitelisted := gets (fun s => approvedStrategies s (target action)) in
        if negb (target action =? 0) && negb whitelisted
        then revert UnauthorizedStrategy
        else
          modify (set_pendingActions (fun p =>
            <[actionId := with_executed true (p actionId)]> p)) ;;
          let* action1 := gets (fun s => pendingActions s actionId) in
          let* success :=
            low_level_call call (target action1) (value action1) (data action1) in
          let* action2 := gets (fun s => pendingActions s actionId) in
          (if 0 <? value action2
           then modify (set_assetBalances (fun b =>
                  <[0 := wrap (b 0 - value action2)]> b))
           else ret tt) ;;
          emit (ActionExecuted actionId success) ;;
          if success then ret tt else revert CallFailed)).

(** SafeERC20: the token call must succeed, else the whole call reverts. *)
Definition safeTransferFrom (call : ExternalCall) (token : address)
    (from to : address) (_amount : uint256) : M unit :=
  let* ok := low_level_call call token 0 [] in
  if ok then ret tt else revert (SafeERC20FailedOperation token).

Definition safeTransfer (call : ExternalCall) (token : address)
    (to : address) (_amount : uint256) : M unit :=
  let* ok := low_level_call call token 0 [] in
  if ok then ret tt else revert (SafeERC20FailedOperation token).

(** [address(this)], the recipient of [deposit]'s transfer; which address
    it is plays no role below. *)
Definition THIS : address := 2 ^ 160 - 1.

Definition deposit (call : ExternalCall) (msg : Msg) (token : address)
    (_amount : uint256) : M unit :=
  nonReentrant (whenNotPaused (
    if _amount =? 0 then revert InsufficientBalance
    else
      safeTransferFrom call token (sender msg) THIS _amount ;;
      modify (set_assetBalances (fun b => <[token := wrap (b token + _amount)]> b)) ;;
      emit (Deposit token _amount (sender msg)))).

Definition depositBNB (msg : Msg) (msg_value : uint256) : M unit :=
  payable msg_value (nonReentrant (whenNotPaused (
    if msg_value =? 0 then revert InsufficientBalance
    else
      modify (set_assetBalances (fun b => <[0 := wrap (b 0 + msg_value)]> b)) ;;
      emit (Deposit 0 msg_value (sender msg))))).

(** First loop of [getAllocation]: [totalBalance += assetBalances[...]]. *)
Fixpoint sumBalances (assets : list address) (totalBalance : uint256) : M uint256 :=
  match assets with
  | [] => ret totalBalance
  | a :: rest =>
      let* bal := gets (fun s => assetBalances s a) in
      let* total' := checked_add totalBalance bal in
      sumBalances rest total'
  end.

(** Second loop of [getAllocation]: one item per supported asset. *)
Fixpoint allocationItems (assets : list address) (totalBalance : uint256)
    : M (list AllocationItem) :=
  match assets with
  | [] => ret []
  | a :: rest =>
      let* bal := gets (fun s => assetBalances s a) in
      let* pct :=
        (if 0 <? totalBalance
         then let* scaled := checked_mul bal 10000 in
              checked_div scaled totalBalance
         else ret 0) in
      let* items := allocationItems rest totalBalance in
      ret ({| asset := a; amount := bal; percentage := pct; valueUSD := 0 |}
             :: items)
  end.

Definition getAllocation : M (list AllocationItem) :=
  let* assets := gets supportedAssets in
  let* totalBalance := sumBalances assets 0 in
  allocationItems assets totalBalance.

Definition getPortfolioValue : M uint256 := ret 0.

Definition approveStrategy (msg : Msg) (strategy : address) : M unit :=
  onlyRole OWNER_ROLE (sender msg) (
    modify (set_approvedStrategies (fun a => <[strategy := true]> a)) ;;
    emit (StrategyApproved strategy)).

(** The duplicate scan of [addSupportedAsset]. *)
Fixpoint isSupported (assets : list address) (token : address) : bool :=
  match assets with
  | [] => false
  | a :: rest => if a =? token then true else isSupported rest token
  end.

Definition addSupportedAsset (msg : Msg) (token : address) : M unit :=
  onlyRole OWNER_ROLE (sender msg) (
    let* assets := gets supportedAssets in
    if isSupported assets token then ret tt
    else modify (set_supportedAssets (fun l => l ++ [token]))).

Definition pause (msg : Msg) : M unit :=
  onlyRole OWNER_ROLE (sender msg) (
    whenNotPaused (modify (set_paused true) ;; emit (Paused (sender msg)))).

Definition unpause (msg : Msg) : M unit :=
  onlyRole OWNER_ROLE (sender msg) (
    whenPaused (modify (set_paused false) ;; emit (Unpaused (sender msg)))).

Definition emergencyWithdraw (call : ExternalCall) (msg : Msg) (token : address)
    (to : address) (_amount : uint256) : M unit :=
  nonReentrant (onlyRole OWNER_ROLE (sender msg) (
    let* bal := gets (fun s => assetBalances s token) in
    if bal <? _amount then revert InsufficientBalance
    else
      modify (set_assetBalances (fun b => <[token := wrap (b token - _amount)]> b)) ;;
      (if token =? 0
       then let* ok := low_level_call call to _amount [] in
            if ok then ret tt else revert CallFailed
       else safeTransfer call token to _amount) ;;
      emit (EmergencyWithdraw token to _amount))).

(** The public role functions inherited from AccessControl; every role's
    admin role is [DEFAULT_ADMIN_ROLE] since the vault never changes it. *)
Definition grantRole (msg : Msg) (role : Role) (account : address) : M unit :=
  onlyRole DEFAULT_ADMIN_ROLE (sender msg) (_grantRole (sender msg) role account).

Definition revokeRole (msg : Msg) (role : Role) (account : address) : M unit :=
  onlyRole DEFAULT_ADMIN_ROLE (sender msg) (_revokeRole (sender msg) role account).

Definition renounceRole (msg : Msg) (role : Role) (callerConfirmation : address)
    : M unit :=
  if callerConfirmation =? sender msg
  then _revokeRole (sender msg) role callerConfirmation
  else revert AccessControlBadConfirmation.

(** ** Calls, callees and transactions *)

(** Native value credited to the vault account without running its code
    (the beneficiary of a [SELFDESTRUCT], a block reward): nothing but
    [address(this).balance] changes. *)
Definition forcedTransfer (v : uint256) : M unit :=
  modify (set_nativeHeld (fun h => h + v)).

(** The state-changing external functions of the vault, and the one thing
    that reaches it without a call.  The two payable entry points carry
    [msg.value]; the others are non-payable. *)
Inductive Call : Type :=
| forced_transfer (v : uint256)
| call_receive (msg_value : uint256)
| call_proposeAction (_target : address) (_data : bytes) (_value : uint256)
    (_actionType : ActionType)
| call_approveAction (actionId : bytes32)
| call_executeAction (actionId : bytes32)
| call_deposit (token : address) (_amount : uint256)
| call_depositBNB (msg_value : uint256)
| call_approveStrategy (strategy : address)
| call_addSupportedAsset (token : address)
| call_pause
| call_unpause
| call_emergencyWithdraw (token : address) (to : address) (_amount : uint256)
| call_grantRole (role : Role) (account : address)
| call_revokeRole (role : Role) (account : address)
| call_renounceRole (role : Role) (callerConfirmation : address).

Definition dispatch (call : ExternalCall) (msg : Msg) (c : Call) : M unit :=
  match c with
  | forced_transfer v => forcedTransfer v
  | call_receive v => receive msg v
  | call_proposeAction t d v ty => proposeAction msg t d v ty ;; ret tt
  | call_approveAction id => approveAction msg id
  | call_executeAction id => executeAction call msg id
  | call_deposit token a => deposit call msg token a
  | call_depositBNB v => depositBNB msg v
  | call_approveStrategy st => approveStrategy msg st
  | call_addSupportedAsset token => addSupportedAsset msg token
  | call_pause => pause msg
  | call_unpause => unpause msg
  | call_emergencyWithdraw token to a => emergencyWithdraw call msg token to a
  | call_grantRole r a => grantRole msg r a
  | call_revokeRole r a => revokeRole msg r a
  | call_renounceRole r a => renounceRole msg r a
  end.

(** What the party on the other end of an external call does before it
    returns: the calls it makes back into the vault, each from some sender
    (itself or a contract it calls), and whether it finally succeeds.  A
    call-back that reverts is caught by the callee and leaves no trace; a
    callee that fails undoes everything done on its behalf. *)
Record Callee : Type := mkCallee {
  reentrant : list (address * Call);
  succeeds : bool
}.

(** The vault only calls out from inside [nonReentrant] functions, and the
    functions that call out are all [nonReentrant]: a call-back never gets
    to make an external call of its own (see [dispatch_locked]). *)
Definition no_call : ExternalCall := fun _ _ _ => ret false.

Definition reenter (now : uint256) (s : State) (rc : address * Call) : State :=
  commit s (dispatch no_call (mkMsg (fst rc) now) (snd rc) s).

Definition run_callee (now : uint256) (k : Callee) : ExternalCall :=
  fun _ _ _ s =>
    if succeeds k then Ok true (fold_left (reenter now) (reentrant k) s)
    else Ok false s.

(** A transaction: who calls what at which block time, and how the
    external party behaves if the vault calls out. *)
Record Tx : Type := mkTx {
  tx_sender : address;
  tx_timestamp : uint256;
  tx_call : Call;
  tx_callee : Callee
}.

Definition tx_msg (tx : Tx) : Msg := mkMsg (tx_sender tx) (tx_timestamp tx).

Definition transact (tx : Tx) : M unit :=
  dispatch (run_callee (tx_timestamp tx) (tx_callee tx)) (tx_msg tx) (tx_call tx).

Definition step (s : State) (tx : Tx) : State := commit s (transact tx s).

Definition run (txs : list Tx) (s : State) : State := fold_left step txs s.

(** States of a deployed vault: those a sequence of transactions leads to
    from a successful deployment. *)
Definition reachable (s : State) : Prop :=
  exists msg owners threshold s0 txs,
    constructor msg owners threshold emptyState = Ok tt s0 /\ s = run txs s0.

(** A callee without code, or one that just accepts the call. *)
Definition accepts : Callee := mkCallee [] true.
(** A callee that reverts. *)
Definition rejects : Callee := mkCallee [] false.

(** ** Vocabulary of the properties *)

(** *** The spec's failure names

    The design document names failures more coarsely than the contract
    does; [spec_error] gives the name under which each contract error
    appears there, if any.  No contract error is the spec's
    [InvalidAmount]. *)
Module SpecError.
Inductive t : Type :=
| Unauthorized
| NotFound
| AlreadyExecuted
| AlreadyApproved
| InsufficientApprovals
| TimeLockNotExpired
| UnauthorizedStrategy
| InsufficientBalance
| InvalidAmount.
End SpecError.

Definition spec_error (e : Error) : option SpecError.t :=
  match e with
  | AccessControlUnauthorizedAccount _ _ => Some SpecError.Unauthorized
  | ActionNotFound => Some SpecError.NotFound
  | ActionAlreadyExecuted => Some SpecError.AlreadyExecuted
  | AlreadyApproved => Some SpecError.AlreadyApproved
  | InsufficientApprovals => Some SpecError.InsufficientApprovals
  | TimeLockNotExpired => Some SpecError.TimeLockNotExpired
  | UnauthorizedStrategy => Some SpecError.UnauthorizedStrategy
  | InsufficientBalance => Some SpecError.InsufficientBalance
  | _ => None
  end.

(** Values that fit the Solidity types. *)
Definition is_address (a : Z) : Prop := 0 <= a < 256 ^ 20.
Definition is_uint256 (x : Z) : Prop := 0 <= x < 256 ^ 32.

(** How a call ended: [None] if it returned, the error if it reverted. *)
Definition outcome {A} (r : Res A) : option Error :=
  match r with
  | Ok _ _ => None
  | Err e => Some e
  end.

(** *** What an external call may and may not disturb *)

Definition keeps_lock (call : ExternalCall) : Prop :=
  forall t v d s b s', call t v d s = Ok b s' -> locked s' = locked s.

Definition approvals_grow (s s' : State) : Prop :=
  forall id who, actionApprovals s id who = true -> actionApprovals s' id who = true.

Definition keeps_approvals (call : ExternalCall) : Prop :=
  forall t v d s b s', call t v d s = Ok b s' -> approvals_grow s s'.

(** Every tracked balance is a [uint256]. *)
Definition ledger_in_range (s : State) : Prop :=
  forall a, 0 <= assetBalances s a < UINT256_MODULUS.

Definition keeps_ledger (call : ExternalCall) : Prop :=
  forall t v d s b s',
    call t v d s = Ok b s' -> ledger_in_range s -> ledger_in_range s'.

(** The call is a [proposeAction] whose arguments, sender and block time
    hash to [id]. *)
Definition proposes (msg : Msg) (c : Call) (id : bytes32) : Prop :=
  match c with
  | call_proposeAction t d v _ =>
      keccak256 (encodePacked t d v (timestamp msg) (sender msg)) = id
  | _ => False
  end.

Definition callee_proposes (now : uint256) (k : Callee) (id : bytes32) : Prop :=
  Exists (fun rc => proposes (mkMsg rc.1 now) rc.2 id) (reentrant k).

(** The transaction, or a call-back made during it, proposes [id]. *)
Definition reproposes (tx : Tx) (id : bytes32) : Prop :=
  proposes (tx_msg tx) (tx_call tx) id \/
  callee_proposes (tx_timestamp tx) (tx_callee tx) id.

(** The action exists and its [executed] flag is set. *)
Definition consumed (s : State) (id : bytes32) : Prop :=
  executed (pendingActions s id) = true /\ proposedAt (pendingActions s id) <> 0.

Definition keeps_consumed (id : bytes32) (call : ExternalCall) : Prop :=
  forall t v d s b s', call t v d s = Ok b s' -> consumed s id -> consumed s' id.

(** *** [executeAction] *)

(** The execute preconditions of the action itself: it exists, is not yet
    executed, has enough approvals, its time-lock has expired and its target
    is the zero address or whitelisted. *)
Definition executable (s : State) (now : uint256) (id : bytes32) : Prop :=
  let a := pendingActions s id in
  proposedAt a <> 0 /\ executed a = false /\
  approvalThreshold s <= approvals a /\ executionTime a <= now /\
  (target a = 0 \/ approvedStrategies s (target a) = true).

(** The storage at the moment [executeAction] hands control to the target:
    the lock is taken and the action is marked executed. *)
Definition forwarding_state (s : State) (id : bytes32) : State :=
  set_pendingActions (fun p => <[id := with_executed true (p id)]> p)
    (set_locked true s).

(** What [executeAction] makes of the outcome of the forwarded call. *)
Definition after_call (id : bytes32) (r : Res bool) : Res unit :=
  match r with
  | Ok success s2 =>
      let v := value (pendingActions s2 id) in
      let s3 := if 0 <? v
                then set_assetBalances (fun b => <[0 := wrap (b 0 - v)]> b) s2
                else s2 in
      if success
      then Ok tt (set_locked false
                    (set_logs (fun l => l ++ [ActionExecuted id true]) s3))
      else Err CallFailed
  | Err e => Err e
  end.

(** The error [executeAction] stops with when a guard or check fails, in
    the order the code tests them. *)
Definition executeAction_check (s : State) (now : uint256) (id : bytes32)
    : option Error :=
  let a := pendingActions s id in
  if locked s then Some ReentrancyGuardReentrantCall
  else if paused s then Some EnforcedPause
  else if proposedAt a =? 0 then Some ActionNotFound
  else if executed a then Some ActionAlreadyExecuted
  else if approvals a <? approvalThreshold s then Some InsufficientApprovals
  else if now <? executionTime a then Some TimeLockNotExpired
  else if negb (target a =? 0) && negb (approvedStrategies s (target a))
       then Some UnauthorizedStrategy
  else None.

(** The error [deposit] and [depositBNB] stop with on a zero amount. *)
Definition zero_deposit_error (s : State) : Error :=
  if locked s then ReentrancyGuardReentrantCall
  else if paused s then EnforcedPause
  else InsufficientBalance.

(** How many [ActionExecuted] events for [id] the log holds. *)
Fixpoint count_executions (id : bytes32) (l : list Event) : nat :=
  match l with
  | [] => O
  | ActionExecuted i _ :: rest =>
      if decide (i = id) then S (count_executions id rest)
      else count_executions id rest
  | _ :: rest => count_executions id rest
  end.

(** *** Allocation *)

Definition sum_over (f : address -> Z) (l : list address) : Z :=
  fold_right (fun a acc => f a + acc) 0 l.

Definition total_balance (s : State) : Z :=
  sum_over (assetBalances s) (supportedAssets s).

Definition percentage_sum (items : list AllocationItem) : Z :=
  fold_right (fun it acc => percentage it + acc) 0 items.

(** The item [getAllocation] reports for asset [a] against a given total. *)
Definition allocation_item (s : State) (totalBalance : uint256) (a : address)
    : AllocationItem :=
  {| asset := a; amount := assetBalances s a;
     percentage := if 0 <? totalBalance
                   then assetBalances s a * 10000 / totalBalance else 0;
     valueUSD := 0 |}.

(** ** Scenario from the test-suite: three owners, threshold two *)

Module Scenario.

Definition owner1 : address := 1.
Definition owner2 : address := 2.
Definition owner3 : address := 3.
Definition stranger : address := 4.
Definition strategy : address := 7.
Definition unlisted : address := 9.
Definition tokenA : address := 11.
Definition tokenB : address := 12.
Definition ether (n : Z) : uint256 := n * 10 ^ 18.
Definition t0 : uint256 := 1700000000.

Definition deployed : State :=
  commit emptyState
    (constructor (mkMsg owner1 t0) [owner1; owner2; owner3] 2 emptyState).

Definition setup : list Tx :=
  [ mkTx owner1 t0 (call_grantRole EXECUTOR_ROLE owner1) accepts;
    mkTx owner1 t0 (call_depositBNB (ether 100)) accepts;
    mkTx owner1 t0 (call_approveStrategy strategy) accepts ].

(** 100 BNB in the vault, [owner1] may propose, [strategy] is whitelisted. *)
Definition funded : State := run setup deployed.

Definition propose_small : Tx :=
  mkTx owner1 t0 (call_proposeAction strategy [] (ether 5) SwapTokens) accepts.
Definition small_id : bytes32 :=
  keccak256 (encodePacked strategy [] (ether 5) t0 owner1).

Definition propose_large : Tx :=
  mkTx owner1 t0 (call_proposeAction strategy [] (ether 20) SwapTokens) accepts.
Definition large_id : bytes32 :=
  keccak256 (encodePacked strategy [] (ether 20) t0 owner1).

Definition proposed_small : State := step funded propose_small.

(** The 5-BNB action, approved by two owners. *)
Definition small_history : list Tx :=
  setup ++
  [ propose_small;
    mkTx owner1 t0 (call_approveAction small_id) accepts;
    mkTx owner2 t0 (call_approveAction small_id) accepts ].
Definition approved_small : State := run small_history deployed.

(** The 20-BNB action, approved by two owners. *)
Definition large_history : list Tx :=
  setup ++
  [ propose_large;
    mkTx owner1 t0 (call_approveAction large_id) accepts;
    mkTx owner2 t0 (call_approveAction large_id) accepts ].
Definition approved_large : State := run large_history deployed.

Definition execute_small (k : Callee) : Tx :=
  mkTx stranger t0 (call_executeAction small_id) k.

(** The 5-BNB action executed, then the vault paused. *)
Definition executed_small : State := step approved_small (execute_small accepts).
Definition pause_tx : Tx := mkTx owner1 t0 call_pause accepts.
Definition paused_after : State := run [pause_tx] executed_small.

(** The executed 5-BNB action proposed once more in the same block, then
    approved by two owners that had not approved it before and executed
    again. *)
Definition reproposed : State := step executed_small propose_small.
Definition second_round : list Tx :=
  [ mkTx owner1 t0 (call_grantRole OWNER_ROLE stranger) accepts;
    mkTx owner3 t0 (call_approveAction small_id) accepts;
    mkTx stranger t0 (call_approveAction small_id) accepts;
    execute_small accepts ].
Definition executed_twice : State := run second_round reproposed.

(** An action aimed at a target nobody whitelisted, with no approvals. *)
Definition unlisted_id : bytes32 :=
  keccak256 (encodePacked unlisted [] 0 t0 owner1).
Definition proposed_unlisted : State :=
  step funded (mkTx owner1 t0 (call_proposeAction unlisted [] 0 SwapTokens) accepts).

(** Three registered assets holding one unit each. *)
Definition thirds_history : list Tx :=
  [ mkTx owner1 t0 (call_addSupportedAsset tokenA) accepts;
    mkTx owner1 t0 (call_addSupportedAsset tokenB) accepts;
    mkTx owner1 t0 (call_depositBNB 1) accepts;
    mkTx owner1 t0 (call_deposit tokenA 1) accepts;
    mkTx owner1 t0 (call_deposit tokenB 1) accepts ].
Definition thirds : State := run thirds_history deployed.

(** The approved 20-BNB action, after an owner withdrew all 100 BNB. *)
Definition withdrawn_history : list Tx :=
  large_history ++
  [ mkTx owner1 t0 (call_emergencyWithdraw 0 owner1 (ether 100)) accepts ].
Definition withdrawn : State := run withdrawn_history deployed.

(** The same, after somebody's self-destructing contract left 20 BNB with
    the vault. *)
Definition drained_history : list Tx :=
  withdrawn_history ++ [ mkTx stranger t0 (forced_transfer (ether 20)) accepts ].
Definition drained : State := run drained_history deployed.
Definition execute_large_later : Tx :=
  mkTx stranger (t0 + 24 * 3600) (call_executeAction large_id) accepts.

(** A target that, when called, calls [executeAction id] back and succeeds
    exactly when that call-back reverted with [expected]. *)
Definition reentry_probe (expected : Error) (id : bytes32) : ExternalCall :=
  fun _ _ _ s =>
    match executeAction no_call (mkMsg strategy t0) id s with
    | Err e => Ok (bool_decide (e = expected)) s
    | Ok _ _ => Ok false s
    end.

(** A target that succeeds exactly when the tracked native balance it
    finds is [expected]. *)
Definition balance_probe (expected : uint256) : ExternalCall :=
  fun _ _ _ s => Ok (assetBalances s 0 =? expected) s.

End Scenario.

(** ** Vocabulary of the further properties *)

(** An external call all of whose effects on the storage are within [R],
    and a transaction all of whose calls, the outer one and the call-backs,
    are [allowed]. *)
Definition call_respects (R : State -> State -> Prop) (call : ExternalCall)
    : Prop :=
  forall t v d s b s', call t v d s = Ok b s' -> R s s'.

Definition tx_allowed (allowed : Msg -> Call -> Prop) (tx : Tx) : Prop :=
  allowed (tx_msg tx) (tx_call tx) /\
  Forall (fun rc => allowed (mkMsg rc.1 (tx_timestamp tx)) rc.2)
    (reentrant (tx_callee tx)).

Definition any_call : Msg -> Call -> Prop := fun _ _ => True.

(** [P] is kept. *)
Definition keeps (P : State -> Prop) (s s' : State) : Prop := P s -> P s'.

(** *** Governance parameters, asset list, whitelist *)

Definition same_governance (s s' : State) : Prop :=
  approvalThreshold s' = approvalThreshold s /\ ownerCount s' = ownerCount s.

(** The asset list is only ever appended to. *)
Definition assets_extend (s s' : State) : Prop :=
  supportedAssets s `prefix_of` supportedAssets s'.

(** The native currency comes first and no asset is listed twice. *)
Definition assets_wf (s : State) : Prop :=
  NoDup (supportedAssets s) /\ head (supportedAssets s) = Some 0.

Definition whitelist_grows (s s' : State) : Prop :=
  forall a, approvedStrategies s a = true -> approvedStrategies s' a = true.

(** *** Accounts without a governing role *)

Definition outsider (s : State) (a : address) : Prop :=
  roles s OWNER_ROLE a = false /\ roles s DEFAULT_ADMIN_ROLE a = false.

(** Events of the functions reserved to owners and to the admin (a role
    can be given up by its holder, so [RoleRevoked] is not among them). *)
Definition governance_event (ev : Event) : bool :=
  match ev with
  | ActionApproved _ _ _ | StrategyApproved _ | EmergencyWithdraw _ _ _
  | Paused _ | Unpaused _ | RoleGranted _ _ _ => true
  | _ => false
  end.

(** What only owners and the admin can change: no role is granted, the
    pause flag, the whitelist, the asset list and the approval records stay
    as they are, no approval is counted (a count stays, or is reset by a
    new proposal), and no governance event is logged. *)
Definition governed_unchanged (s s' : State) : Prop :=
  (forall r a, roles s' r a = true -> roles s r a = true) /\
  paused s' = paused s /\
  approvedStrategies s' = approvedStrategies s /\
  supportedAssets s' = supportedAssets s /\
  actionApprovals s' = actionApprovals s /\
  (forall id, approvals (pendingActions s' id) = approvals (pendingActions s id) \/
              approvals (pendingActions s' id) = 0) /\
  exists more, logs s' = logs s ++ more /\
               Forall (fun ev => governance_event ev = false) more.

(** The accounts in [A] are outsiders, and stay so while nothing governed
    changes. *)
Definition outsiders_kept (A : address -> Prop) (s s' : State) : Prop :=
  (forall a, A a -> outsider s a) ->
  (forall a, A a -> outsider s' a) /\ governed_unchanged s s'.

Definition sent_by (A : address -> Prop) : Msg -> Call -> Prop :=
  fun msg _ => A (sender msg).

(** *** Deployment *)

(** The storage of a vault just deployed for [owners] and [threshold]. *)
Definition deployed_with (owners : list address) (threshold : uint256)
    (s0 : State) : Prop :=
  approvalThreshold s0 = threshold /\
  ownerCount s0 = Z.of_nat (length owners) /\
  (forall r a,
     roles s0 r a = true <->
     (r = OWNER_ROLE /\ a ∈ owners) \/
     (r = DEFAULT_ADMIN_ROLE /\ head owners = Some a)) /\
  supportedAssets s0 = [0] /\
  paused s0 = false /\ locked s0 = false /\
  pendingActions s0 = (fun _ => zeroAction) /\
  actionApprovals s0 = (fun _ _ => false) /\
  assetBalances s0 = (fun _ => 0) /\
  approvedStrategies s0 = (fun _ => false) /\
  nativeHeld s0 = 0.

(** *** Pausing *)

(** The functions carrying [whenNotPaused]. *)
Definition pausable (c : Call) : bool :=
  match c with
  | call_proposeAction _ _ _ _ | call_executeAction _ | call_deposit _ _
  | call_depositBNB _ => true
  | _ => false
  end.

(** The functions that neither test the pause flag nor call out. *)
Definition pause_blind (c : Call) : bool :=
  match c with
  | forced_transfer _ | call_receive _ | call_approveAction _
  | call_approveStrategy _ | call_addSupportedAsset _
  | call_grantRole _ _ | call_revokeRole _ _ | call_renounceRole _ _ => true
  | _ => false
  end.

Definition on_state {A} (f : State -> State) (r : Res A) : Res A :=
  match r with
  | Ok a s => Ok a (f s)
  | Err e => Err e
  end.

(** *** Call-backs during a guarded call *)

(** What a call-back made while the reentrancy lock is held leaves alone:
    the lock, the tracked balance of every token (a plain transfer can still
    credit the native balance), and the actions not yet executed. *)
Definition while_locked (s s' : State) : Prop :=
  locked s = true ->
  locked s' = true /\
  (forall t, t <> 0 -> assetBalances s' t = assetBalances s t) /\
  (forall id, executed (pendingActions s' id) = true ->
              executed (pendingActions s id) = true).

(** *** [emergencyWithdraw] *)

(** The error [emergencyWithdraw] stops with on an unlocked vault, in the
    order the code tests; [None] when it returns. *)
Definition emergencyWithdraw_check (s : State) (who token amount : Z)
    (k : Callee) : option Error :=
  if negb (roles s OWNER_ROLE who)
  then Some (AccessControlUnauthorizedAccount who OWNER_ROLE)
  else if assetBalances s token <? amount then Some InsufficientBalance
  else if token =? 0
       then if (amount <=? nativeHeld s) && succeeds k then None
            else Some CallFailed
       else if succeeds k then None
            else Some (SafeERC20FailedOperation token).

(** *** Approval counts *)

(** Every approval counted for an action is backed by the approval record
    of a different account. *)
Definition approvals_backed (s : State) : Prop :=
  forall id, exists approvers : list address,
    NoDup approvers /\
    (forall a, a ∈ approvers -> actionApprovals s id a = true) /\
    0 <= approvals (pendingActions s id) <= Z.of_nat (length approvers).

(** *** Well-formed calls *)

(** The sender, the block time and the arguments fit their Solidity
    types. *)
Definition call_in_range (msg : Msg) (c : Call) : Prop :=
  is_address (sender msg) /\ is_uint256 (timestamp msg) /\
  match c with
  | forced_transfer v | call_receive v | call_depositBNB v => is_uint256 v
  | call_proposeAction t _ v _ => is_address t /\ is_uint256 v
  | call_deposit token a => is_address token /\ is_uint256 a
  | call_emergencyWithdraw token to a =>
      is_address token /\ is_address to /\ is_uint256 a
  | call_approveStrategy a | call_addSupportedAsset a
  | call_grantRole _ a | call_revokeRole _ a | call_renounceRole _ a =>
      is_address a
  | _ => True
  end.

(** *** The action store *)

(** What a proposal is made of, as far as its identifier goes. *)
Definition same_content (a a' : Action) : Prop :=
  target a' = target a /\ data a' = data a /\ value a' = value a /\
  proposedAt a' = proposedAt a.

(** The record stored under [id] is the untouched slot, or carries the
    target, calldata, value and block time that [id] is the digest of. *)
Definition record_sound (id : bytes32) (a : Action) : Prop :=
  a = zeroAction \/
  exists proposer,
    is_address (target a) /\ is_uint256 (value a) /\
    is_uint256 (proposedAt a) /\ is_address proposer /\
    id = keccak256 (encodePacked (target a) (data a) (value a) (proposedAt a)
                      proposer).

Definition store_sound (s : State) : Prop :=
  forall id, record_sound id (pendingActions s id).

Definition content_kept (s s' : State) : Prop :=
  store_sound s ->
  store_sound s' /\
  forall id, proposedAt (pendingActions s id) <> 0 ->
             same_content (pendingActions s id) (pendingActions s' id).

(** *** Native currency held and tracked *)

(** Native currency that reaches the vault behind the ledger's back: a
    forced transfer, and in this model a token [deposit] naming the zero
    address (on chain SafeERC20 rejects it, the zero address having no
    code). *)
Definition untracked_inflow (c : Call) : bool :=
  match c with
  | forced_transfer _ => true
  | call_deposit token _ => token =? 0
  | _ => false
  end.

Definition tracked_call (msg : Msg) (c : Call) : Prop :=
  call_in_range msg c /\ untracked_inflow c = false.

(** The native currency held beyond the tracked native balance, as a
    [uint256]. *)
Definition native_gap (s : State) : Z :=
  (nativeHeld s - assetBalances s 0) mod UINT256_MODULUS.

Definition gap_kept (s s' : State) : Prop :=
  content_kept s s' /\ (store_sound s -> native_gap s' = native_gap s).

Definition holds_no_debt (s : State) : Prop := 0 <= nativeHeld s.

(** *** Outcome of [executeAction] *)

(** The error a transaction calling [executeAction] ends with, [None] when
    it returns: the guards and checks in the code's order, then the
    forwarded call, which needs the vault to hold the value and the target
    to accept. *)
Definition executeAction_outcome (s : State) (now : uint256) (id : bytes32)
    (k : Callee) : option Error :=
  match executeAction_check s now id with
  | Some e => Some e
  | None =>
      if (value (pendingActions s id) <=? nativeHeld s) && succeeds k
      then None else Some CallFailed
  end.

(** *** Actions along a run *)

(** Nothing has been stored under [id]. *)
Definition unproposed (id : bytes32) (s : State) : Prop :=
  pendingActions s id = zeroAction.

Definition does_not_propose (id : bytes32) : Msg -> Call -> Prop :=
  fun msg c => ~ proposes msg c id.

(** The action exists, waits for execution and is time-locked until
    [until]. *)
Definition locked_until (id : bytes32) (until : uint256) (s : State) : Prop :=
  proposedAt (pendingActions s id) <> 0 /\
  executed (pendingActions s id) = false /\
  executionTime (pendingActions s id) = until.

(** A call made before [until] that does not propose [id] again. *)
Definition before (id : bytes32) (until : uint256) : Msg -> Call -> Prop :=
  fun msg c => timestamp msg < until /\ ~ proposes msg c id.

(** *** Outcome of [deposit] and of [getAllocation] *)


(** The checked arithmetic of [getAllocation] stays within [uint256]: the
    sum of the registered balances does and, unless that sum is zero, so does
    every registered balance times 10,000. *)
Definition allocation_fits (s : State) : bool :=
  (total_balance s <? UINT256_MODULUS) &&
  ((total_balance s =? 0) ||
   forallb (fun a => assetBalances s a * 10000 <? UINT256_MODULUS)
     (supportedAssets s)).

(** *** The token ledger *)

(** The call is neither a [deposit] nor an [emergencyWithdraw] of
    [token]. *)
Definition leaves_token (token : address) : Msg -> Call -> Prop :=
  fun _ c =>
    match c with
    | call_deposit t _ | call_emergencyWithdraw t _ _ => t <> token
    | _ => True
    end.

Definition same_balance (token : address) (s s' : State) : Prop :=
  assetBalances s' token = assetBalances s token.

(** ** StrategyExecutor

    The execution layer the vault's actions are aimed at.  It holds its
    configuration, the token-to-vToken table and, from OpenZeppelin's
    [Ownable] and [ReentrancyGuard], an owner and a lock.  Every strategy
    function validates its arguments and then talks to external protocols;
    what those answer is not the executor's code and comes in as a [World]. *)

Module Executor.

Import String.

Definition int24 := Z.
Definition uint24 := Z.
Definition uint128 := Z.
Definition uint160 := Z.

Inductive Error : Type :=
| InvalidSlippage
| InsufficientLiquidity
| InvalidTickRange
| StrategyFailed (reason : string)
| AddressZero
| InvalidAmount
| UnsupportedToken
| OwnableUnauthorizedAccount (account : address)
| OwnableInvalidOwner (owner : address)
| ReentrancyGuardReentrantCall
| SafeERC20FailedOperation (token : address)
| Panic (code : Z)
| ExternalRevert.

Inductive Event : Type :=
| TokenSwapped (tokenIn tokenOut : address) (amountIn amountOut : uint256)
| LiquidityAdded (tokenId : uint256) (token0 token1 : address)
    (amount0 amount1 : uint256)
| LiquidityRemoved (tokenId : uint256) (amount0 amount1 : uint256)
| SuppliedToVenus (token : address) (amount vTokensMinted : uint256)
| WithdrawnFromVenus (token : address) (amount : uint256)
| BNBStaked (amount : uint256) (validator : address)
| RewardsClaimed (totalRewards : uint256)
| VTokenMappingSet (token vToken : address)
| OwnershipTransferred (previousOwner newOwner : address).

(** Storage: the executor's state variables, [Ownable]'s [_owner],
    [ReentrancyGuard]'s status as [locked], the native currency the contract
    holds ([address(this).balance]) and the events emitted so far. *)
Record State : Type := mkState {
  owner : address;
  locked : bool;
  pancakeRouter : address;
  pancakeNFTManager : address;
  venusComptroller : address;
  tokenToVToken : address -> address;
  bnbStakingContract : address;
  balance : Z;
  logs : list Event
}.

Definition set_owner (a : address) (s : State) : State :=
  mkState a (locked s) (pancakeRouter s) (pancakeNFTManager s)
    (venusComptroller s) (tokenToVToken s) (bnbStakingContract s) (balance s)
    (logs s).

Definition set_locked (b : bool) (s : State) : State :=
  mkState (owner s) b (pancakeRouter s) (pancakeNFTManager s)
    (venusComptroller s) (tokenToVToken s) (bnbStakingContract s) (balance s)
    (logs s).

Definition set_config (router manager comptroller staking : address)
    (s : State) : State :=
  mkState (owner s) (locked s) router manager comptroller (tokenToVToken s)
    staking (balance s) (logs s).

Definition set_tokenToVToken (f : (address -> address) -> address -> address)
    (s : State) : State :=
  mkState (owner s) (locked s) (pancakeRouter s) (pancakeNFTManager s)
    (venusComptroller s) (f (tokenToVToken s)) (bnbStakingContract s)
    (balance s) (logs s).

Definition set_balance (f : Z -> Z) (s : State) : State :=
  mkState (owner s) (locked s) (pancakeRouter s) (pancakeNFTManager s)
    (venusComptroller s) (tokenToVToken s) (bnbStakingContract s)
    (f (balance s)) (logs s).

Definition set_logs (f : list Event -> list Event) (s : State) : State :=
  mkState (owner s) (locked s) (pancakeRouter s) (pancakeNFTManager s)
    (venusComptroller s) (tokenToVToken s) (bnbStakingContract s) (balance s)
    (f (logs s)).

(** Storage of a freshly created contract. *)
Definition emptyState : State :=
  {| owner := 0; locked := false; pancakeRouter := 0; pancakeNFTManager := 0;
     venusComptroller := 0; tokenToVToken := fun _ => 0;
     bnbStakingContract := 0; balance := 0; logs := [] |}.

(** *** The contract monad, over the executor's storage *)

Inductive Res (A : Type) : Type :=
| Ok (ret : A) (s : State)
| Err (e : Error).
Arguments Ok {A} ret s.
Arguments Err {A} e.

Definition M (A : Type) : Type := State -> Res A.

Definition ret {A} (a : A) : M A := fun s => Ok a s.

Definition bind {A B} (c : M A) (k : A -> M B) : M B :=
  fun s => match c s with
           | Ok a s' => k a s'
           | Err e => Err e
           end.

Definition revert {A} (e : Error) : M A := fun _ => Err e.
Definition gets {A} (f : State -> A) : M A := fun s => Ok (f s) s.
Definition modify (f : State -> State) : M unit := fun s => Ok tt (f s).
Definition emit (ev : Event) : M unit := modify (set_logs (fun l => l ++ [ev])).

Declare Scope executor_scope.
Notation "'let*' x ':=' c 'in' k" := (bind c (fun x => k))
  (at level 10, x name, c at level 100, k at level 200) : executor_scope.
Notation "c ';;' k" := (bind c (fun _ => k))
  (at level 100, k at level 200, right associativity) : executor_scope.
Local Open Scope executor_scope.

Definition commit {A} (s : State) (r : Res A) : State :=
  match r with
  | Ok _ s' => s'
  | Err _ => s
  end.

Definition outcome {A} (r : Res A) : option Error :=
  match r with
  | Ok _ _ => None
  | Err e => Some e
  end.

Definition checked_add (a b : uint256) : M uint256 :=
  if a + b <? UINT256_MODULUS then ret (a + b) else revert (Panic 17).

Definition checked_sub (a b : uint256) : M uint256 :=
  if a <? b then revert (Panic 17) else ret (a - b).

(** *** Modifiers *)

Definition onlyOwner {A} (msg : Msg) (body : M A) : M A :=
  let* o := gets owner in
  if o =? sender msg then body
  else revert (OwnableUnauthorizedAccount (sender msg)).

Definition nonReentrant {A} (body : M A) : M A :=
  fun s =>
    if locked s then Err ReentrancyGuardReentrantCall
    else match body (set_locked true s) with
         | Ok a s' => Ok a (set_locked false s')
         | Err e => Err e
         end.

(** [payable]: [msg.value] reaches the contract before the body runs. *)
Definition payable {A} (msg_value : uint256) (body : M A) : M A :=
  fun s => body (set_balance (fun b => b + msg_value) s).

(** *** Arguments of the protocol calls *)

Module ExactInputSingleParams.
Record t : Type := mk {
  tokenIn : address;
  tokenOut : address;
  fee : uint24;
  recipient : address;
  amountIn : uint256;
  amountOutMinimum : uint256;
  sqrtPriceLimitX96 : uint160
}.
End ExactInputSingleParams.

Module MintParams.
Record t : Type := mk {
  token0 : address;
  token1 : address;
  fee : uint24;
  tickLower : int24;
  tickUpper : int24;
  amount0Desired : uint256;
  amount1Desired : uint256;
  amount0Min : uint256;
  amount1Min : uint256;
  recipient : address;
  deadline : uint256
}.
End MintParams.

Module DecreaseLiquidityParams.
Record t : Type := mk {
  tokenId : uint256;
  liquidity : uint128;
  amount0Min : uint256;
  amount1Min : uint256;
  deadline : uint256
}.
End DecreaseLiquidityParams.

Module CollectParams.
Record t : Type := mk {
  tokenId : uint256;
  recipient : address;
  amount0Max : uint128;
  amount1Max : uint128
}.
End CollectParams.

(** *** The external world

    One entry per external function the executor calls; the first argument
    is the contract called.  [F] is how an answer comes: as a computation on
    the executor's storage ([M]), since the called contract may call back
    before it returns, or may revert.  For the token functions the boolean
    is SafeERC20's verdict on the call. *)
Record World (F : Type -> Type) : Type := mkWorld {
  IERC20_transferFrom : address -> address -> address -> uint256 -> F bool;
  IERC20_transfer : address -> address -> uint256 -> F bool;
  IERC20_forceApprove : address -> address -> uint256 -> F bool;
  IERC20_allowance : address -> address -> address -> F uint256;
  IERC20_balanceOf : address -> address -> F uint256;
  exactInputSingle : address -> ExactInputSingleParams.t -> F uint256;
  mint : address -> MintParams.t -> F (uint256 * uint128 * uint256 * uint256)%type;
  decreaseLiquidity : address -> DecreaseLiquidityParams.t -> F (uint256 * uint256)%type;
  collect : address -> CollectParams.t -> F (uint256 * uint256)%type;
  IVToken_balanceOf : address -> address -> F uint256;
  IVToken_mint : address -> uint256 -> F uint256;
  IVToken_redeem : address -> uint256 -> F uint256;
  enterMarkets : address -> list address -> F unit;
  claimVenus : address -> address -> F unit;
  delegate : address -> address -> uint256 -> F unit;
  IBNBStaking_claimRewards : address -> F uint256
}.
Arguments IERC20_transferFrom {F} w _ _ _ _.
Arguments IERC20_transfer {F} w _ _ _.
Arguments IERC20_forceApprove {F} w _ _ _.
Arguments IERC20_allowance {F} w _ _ _.
Arguments IERC20_balanceOf {F} w _ _.
Arguments exactInputSingle {F} w _ _.
Arguments mint {F} w _ _.
Arguments decreaseLiquidity {F} w _ _.
Arguments collect {F} w _ _.
Arguments IVToken_balanceOf {F} w _ _.
Arguments IVToken_mint {F} w _ _.
Arguments IVToken_redeem {F} w _ _.
Arguments enterMarkets {F} w _ _.
Arguments claimVenus {F} w _ _.
Arguments delegate {F} w _ _ _.
Arguments IBNBStaking_claimRewards {F} w _.

(** *** The contract *)

Definition DEFAULT_FEE_TIER : uint24 := 500.
Definition TICK_SPACING : int24 := 10.
Definition TICK_RANGE_WIDTH : int24 := 887220.

Definition MAX_UINT256 : uint256 := 2 ^ 256 - 1.
Definition MAX_UINT128 : uint128 := 2 ^ 128 - 1.
Definition THIRTY_MINUTES : uint256 := 30 * 60.

(** [address(this)]; which address it is plays no role below. *)
Definition THIS : address := 2 ^ 160 - 2.

(** Ownable's [_transferOwnership] and constructor. *)
Definition _transferOwnership (newOwner : address) : M unit :=
  let* oldOwner := gets owner in
  modify (set_owner newOwner) ;;
  emit (OwnershipTransferred oldOwner newOwner).

Definition Ownable_constructor (initialOwner : address) : M unit :=
  if initialOwner =? 0 then revert (OwnableInvalidOwner 0)
  else _transferOwnership initialOwner.

(** The base constructor [Ownable(initialOwner)] runs before the body. *)
Definition constructor (_pancakeRouter _pancakeNFTManager _venusComptroller
    _bnbStakingContract initialOwner : address) : M unit :=
  Ownable_constructor initialOwner ;;
  if _pancakeRouter =? 0 then revert AddressZero
  else if _pancakeNFTManager =? 0 then revert AddressZero
  else if _venusComptroller =? 0 then revert AddressZero
  else if initialOwner =? 0 then revert AddressZero
  else modify (set_config _pancakeRouter _pancakeNFTManager _venusComptroller
                 _bnbStakingContract).

Definition transferOwnership (msg : Msg) (newOwner : address) : M unit :=
  onlyOwner msg (
    if newOwner =? 0 then revert (OwnableInvalidOwner 0)
    else _transferOwnership newOwner).

Definition renounceOwnership (msg : Msg) : M unit :=
  onlyOwner msg (_transferOwnership 0).

Definition setVTokenMapping (msg : Msg) (token vToken : address) : M unit :=
  onlyOwner msg (
    if (token =? 0) || (vToken =? 0) then revert AddressZero
    else
      modify (set_tokenToVToken (fun m => <[token := vToken]> m)) ;;
      emit (VTokenMappingSet token vToken)).

(** SafeERC20. *)
Definition safeTransferFrom (w : World M) (token from to : address)
    (amount : uint256) : M unit :=
  let* ok := IERC20_transferFrom w token from to amount in
  if ok then ret tt else revert (SafeERC20FailedOperation token).

Definition safeTransfer (w : World M) (token to : address) (amount : uint256)
    : M unit :=
  let* ok := IERC20_transfer w token to amount in
  if ok then ret tt else revert (SafeERC20FailedOperation token).

Definition forceApprove (w : World M) (token spender : address)
    (amount : uint256) : M unit :=
  let* ok := IERC20_forceApprove w token spender amount in
  if ok then ret tt else revert (SafeERC20FailedOperation token).

Definition _approveIfNeeded (w : World M) (token spender : address)
    (amount : uint256) : M unit :=
  let* allowance := IERC20_allowance w token THIS spender in
  if allowance <? amount then forceApprove w token spender MAX_UINT256
  else ret tt.

Definition swapTokens (w : World M) (msg : Msg) (tokenIn tokenOut : address)
    (amountIn minAmountOut : uint256) : M uint256 :=
  onlyOwner msg (nonReentrant (
    if amountIn =? 0 then revert InvalidAmount
    else if minAmountOut =? 0 then revert InvalidSlippage
    else if (tokenIn =? 0) || (tokenOut =? 0) then revert AddressZero
    else
      safeTransferFrom w tokenIn (sender msg) THIS amountIn ;;
      let* router := gets pancakeRouter in
      _approveIfNeeded w tokenIn router amountIn ;;
      let params :=
        {| ExactInputSingleParams.tokenIn := tokenIn;
           ExactInputSingleParams.tokenOut := tokenOut;
           ExactInputSingleParams.fee := DEFAULT_FEE_TIER;
           ExactInputSingleParams.recipient := sender msg;
           ExactInputSingleParams.amountIn := amountIn;
           ExactInputSingleParams.amountOutMinimum := minAmountOut;
           ExactInputSingleParams.sqrtPriceLimitX96 := 0 |} in
      let* router' := gets pancakeRouter in
      let* amountOut := exactInputSingle w router' params in
      emit (TokenSwapped tokenIn tokenOut amountIn amountOut) ;;
      ret amountOut)).

(** Signed division truncates; the three arguments are not used. *)
Definition calculateOptimalTicks (_token0 _token1 : address) (_fee : uint24)
    : (int24 * int24)%type :=
  (- (TICK_RANGE_WIDTH ÷ TICK_SPACING) * TICK_SPACING,
   (TICK_RANGE_WIDTH ÷ TICK_SPACING) * TICK_SPACING).

Definition addLiquidity (w : World M) (msg : Msg) (token0 token1 : address)
    (amount0 amount1 : uint256) (tickLower tickUpper : int24)
    (amount0Min amount1Min : uint256) : M uint256 :=
  onlyOwner msg (nonReentrant (
    if (token0 =? 0) || (token1 =? 0) then revert AddressZero
    else if (amount0 =? 0) || (amount1 =? 0) then revert InvalidAmount
    else
      let ticks :=
        if (tickLower =? 0) && (tickUpper =? 0)
        then calculateOptimalTicks token0 token1 DEFAULT_FEE_TIER
        else (tickLower, tickUpper) in
      if ticks.2 <=? ticks.1 then revert InvalidTickRange
      else
        safeTransferFrom w token0 (sender msg) THIS amount0 ;;
        safeTransferFrom w token1 (sender msg) THIS amount1 ;;
        let* manager := gets pancakeNFTManager in
        _approveIfNeeded w token0 manager amount0 ;;
        let* manager := gets pancakeNFTManager in
        _approveIfNeeded w token1 manager amount1 ;;
        let* deadline := checked_add (timestamp msg) THIRTY_MINUTES in
        let params :=
          {| MintParams.token0 := token0;
             MintParams.token1 := token1;
             MintParams.fee := DEFAULT_FEE_TIER;
             MintParams.tickLower := ticks.1;
             MintParams.tickUpper := ticks.2;
             MintParams.amount0Desired := amount0;
             MintParams.amount1Desired := amount1;
             MintParams.amount0Min := amount0Min;
             MintParams.amount1Min := amount1Min;
             MintParams.recipient := sender msg;
             MintParams.deadline := deadline |} in
        let* manager := gets pancakeNFTManager in
        let* minted := mint w manager params in
        let '(tokenId, _, actualAmount0, actualAmount1) := minted in
        emit (LiquidityAdded tokenId token0 token1 actualAmount0 actualAmount1) ;;
        ret tokenId)).

Definition removeLiquidity (w : World M) (msg : Msg) (tokenId : uint256)
    (liquidity : uint128) (amount0Min amount1Min : uint256)
    : M (uint256 * uint256)%type :=
  onlyOwner msg (nonReentrant (
    if liquidity =? 0 then revert InsufficientLiquidity
    else
      let* deadline := checked_add (timestamp msg) THIRTY_MINUTES in
      let decParams :=
        {| DecreaseLiquidityParams.tokenId := tokenId;
           DecreaseLiquidityParams.liquidity := liquidity;
           DecreaseLiquidityParams.amount0Min := amount0Min;
           DecreaseLiquidityParams.amount1Min := amount1Min;
           DecreaseLiquidityParams.deadline := deadline |} in
      let* manager := gets pancakeNFTManager in
      let* _decreased := decreaseLiquidity w manager decParams in
      let collectParams :=
        {| CollectParams.tokenId := tokenId;
           CollectParams.recipient := sender msg;
           CollectParams.amount0Max := MAX_UINT128;
           CollectParams.amount1Max := MAX_UINT128 |} in
      let* manager := gets pancakeNFTManager in
      let* collected := collect w manager collectParams in
      emit (LiquidityRemoved tokenId collected.1 collected.2) ;;
      ret collected)).

Definition supplyToVenus (w : World M) (msg : Msg) (token : address)
    (amount : uint256) : M uint256 :=
  onlyOwner msg (nonReentrant (
    let* vToken := gets (fun s => tokenToVToken s token) in
    if vToken =? 0 then revert UnsupportedToken
    else if amount =? 0 then revert InvalidAmount
    else
      safeTransferFrom w token (sender msg) THIS amount ;;
      _approveIfNeeded w token vToken amount ;;
      let* balanceBefore := IVToken_balanceOf w vToken THIS in
      let* result := IVToken_mint w vToken amount in
      if negb (result =? 0) then revert (StrategyFailed "Venus mint failed")
      else
        let* balanceAfter := IVToken_balanceOf w vToken THIS in
        let* vTokensMinted := checked_sub balanceAfter balanceBefore in
        let* comptroller := gets venusComptroller in
        enterMarkets w comptroller [vToken] ;;
        emit (SuppliedToVenus token amount vTokensMinted) ;;
        ret vTokensMinted)).

Definition withdrawFromVenus (w : World M) (msg : Msg) (token : address)
    (amount : uint256) : M uint256 :=
  onlyOwner msg (nonReentrant (
    let* vToken := gets (fun s => tokenToVToken s token) in
    if vToken =? 0 then revert UnsupportedToken
    else if amount =? 0 then revert InvalidAmount
    else
      let* balanceBefore := IERC20_balanceOf w token THIS in
      let* result := IVToken_redeem w vToken amount in
      if negb (result =? 0) then revert (StrategyFailed "Venus redeem failed")
      else
        let* balanceAfter := IERC20_balanceOf w token THIS in
        let* underlyingReceived := checked_sub balanceAfter balanceBefore in
        safeTransfer w token (sender msg) underlyingReceived ;;
        emit (WithdrawnFromVenus token underlyingReceived) ;;
        ret underlyingReceived)).

(** [delegate{value: amount}]: the amount leaves the contract with the
    call. *)
Definition stakeBNB (w : World M) (msg : Msg) (amount : uint256)
    (validator : address) : M bool :=
  onlyOwner msg (nonReentrant (
    if amount =? 0 then revert InvalidAmount
    else if validator =? 0 then revert AddressZero
    else
      let* staking := gets bnbStakingContract in
      if staking =? 0 then revert AddressZero
      else
        let* held := gets balance in
        if held <? amount then revert InsufficientLiquidity
        else
          let* staking := gets bnbStakingContract in
          modify (set_balance (fun b => b - amount)) ;;
          delegate w staking validator amount ;;
          emit (BNBStaked amount validator) ;;
          ret true)).

Definition claimRewards (w : World M) (msg : Msg) : M uint256 :=
  onlyOwner msg (nonReentrant (
    let* comptroller := gets venusComptroller in
    claimVenus w comptroller THIS ;;
    let* staking := gets bnbStakingContract in
    let* stakingRewards :=
      (if negb (staking =? 0)
       then let* staking := gets bnbStakingContract in
            IBNBStaking_claimRewards w staking
       else ret 0) in
    emit (RewardsClaimed stakingRewards) ;;
    ret stakingRewards)).

Definition _calculateVenusAPR : uint256 := 0.

Definition getAPRs : (uint256 * uint256 * uint256)%type :=
  (0, _calculateVenusAPR, 500).

Definition receive (msg : Msg) (msg_value : uint256) : M unit :=
  payable msg_value (ret tt).

(** *** Calls, replies and transactions *)

Definition forcedTransfer (v : uint256) : M unit :=
  modify (set_balance (fun b => b + v)).

Inductive Call : Type :=
| forced_transfer (v : uint256)
| call_receive (msg_value : uint256)
| call_transferOwnership (newOwner : address)
| call_renounceOwnership
| call_setVTokenMapping (token vToken : address)
| call_swapTokens (tokenIn tokenOut : address) (amountIn minAmountOut : uint256)
| call_addLiquidity (token0 token1 : address) (amount0 amount1 : uint256)
    (tickLower tickUpper : int24) (amount0Min amount1Min : uint256)
| call_removeLiquidity (tokenId : uint256) (liquidity : uint128)
    (amount0Min amount1Min : uint256)
| call_supplyToVenus (token : address) (amount : uint256)
| call_withdrawFromVenus (token : address) (amount : uint256)
| call_stakeBNB (amount : uint256) (validator : address)
| call_claimRewards.

Definition dispatch (w : World M) (msg : Msg) (c : Call) : M unit :=
  match c with
  | forced_transfer v => forcedTransfer v
  | call_receive v => receive msg v
  | call_transferOwnership a => transferOwnership msg a
  | call_renounceOwnership => renounceOwnership msg
  | call_setVTokenMapping t v => setVTokenMapping msg t v
  | call_swapTokens a b c d => swapTokens w msg a b c d ;; ret tt
  | call_addLiquidity a b c d e f g h =>
      addLiquidity w msg a b c d e f g h ;; ret tt
  | call_removeLiquidity a b c d => removeLiquidity w msg a b c d ;; ret tt
  | call_supplyToVenus t a => supplyToVenus w msg t a ;; ret tt
  | call_withdrawFromVenus t a => withdrawFromVenus w msg t a ;; ret tt
  | call_stakeBNB a v => stakeBNB w msg a v ;; ret tt
  | call_claimRewards => claimRewards w msg ;; ret tt
  end.

(** The functions that call out, all [nonReentrant]. *)
Definition calls_out (c : Call) : bool :=
  match c with
  | call_swapTokens _ _ _ _ | call_addLiquidity _ _ _ _ _ _ _ _
  | call_removeLiquidity _ _ _ _ | call_supplyToVenus _ _
  | call_withdrawFromVenus _ _ | call_stakeBNB _ _ | call_claimRewards => true
  | _ => false
  end.

(** How a called contract answers: the calls it makes back into the
    executor before it returns, each from some sender, and its answer, or
    [None] if it reverts (which undoes what was done on its behalf). *)
Record Reply (A : Type) : Type := mkReply {
  reentrant : list (address * Call)%type;
  answer : option A
}.
Arguments reentrant {A} r.
Arguments answer {A} r.

(** A world in which nothing answers.  The executor calls out only from
    inside [nonReentrant] functions, and the functions that call out are all
    [nonReentrant]: a call-back never gets to call out itself. *)
Definition silent : World M :=
  {| IERC20_transferFrom := fun _ _ _ _ => revert ExternalRevert;
     IERC20_transfer := fun _ _ _ => revert ExternalRevert;
     IERC20_forceApprove := fun _ _ _ => revert ExternalRevert;
     IERC20_allowance := fun _ _ _ => revert ExternalRevert;
     IERC20_balanceOf := fun _ _ => revert ExternalRevert;
     exactInputSingle := fun _ _ => revert ExternalRevert;
     mint := fun _ _ => revert ExternalRevert;
     decreaseLiquidity := fun _ _ => revert ExternalRevert;
     collect := fun _ _ => revert ExternalRevert;
     IVToken_balanceOf := fun _ _ => revert ExternalRevert;
     IVToken_mint := fun _ _ => revert ExternalRevert;
     IVToken_redeem := fun _ _ => revert ExternalRevert;
     enterMarkets := fun _ _ => revert ExternalRevert;
     claimVenus := fun _ _ => revert ExternalRevert;
     delegate := fun _ _ _ => revert ExternalRevert;
     IBNBStaking_claimRewards := fun _ => revert ExternalRevert |}.

Definition reenter (now : uint256) (s : State) (rc : (address * Call)%type)
    : State :=
  commit s (dispatch silent (mkMsg (fst rc) now) (snd rc) s).

Definition play {A} (now : uint256) (r : Reply A) : M A :=
  fun s =>
    match answer r with
    | Some a => Ok a (fold_left (reenter now) (reentrant r) s)
    | None => Err ExternalRevert
    end.

(** The world a transaction meets, from the replies it gets. *)
Definition world_of (now : uint256) (r : World Reply) : World M :=
  {| IERC20_transferFrom := fun a b c d => play now (IERC20_transferFrom r a b c d);
     IERC20_transfer := fun a b c => play now (IERC20_transfer r a b c);
     IERC20_forceApprove := fun a b c => play now (IERC20_forceApprove r a b c);
     IERC20_allowance := fun a b c => play now (IERC20_allowance r a b c);
     IERC20_balanceOf := fun a b => play now (IERC20_balanceOf r a b);
     exactInputSingle := fun a b => play now (exactInputSingle r a b);
     mint := fun a b => play now (mint r a b);
     decreaseLiquidity := fun a b => play now (decreaseLiquidity r a b);
     collect := fun a b => play now (collect r a b);
     IVToken_balanceOf := fun a b => play now (IVToken_balanceOf r a b);
     IVToken_mint := fun a b => play now (IVToken_mint r a b);
     IVToken_redeem := fun a b => play now (IVToken_redeem r a b);
     enterMarkets := fun a b => play now (enterMarkets r a b);
     claimVenus := fun a b => play now (claimVenus r a b);
     delegate := fun a b c => play now (delegate r a b c);
     IBNBStaking_claimRewards := fun a => play now (IBNBStaking_claimRewards r a) |}.

Record Tx : Type := mkTx {
  tx_sender : address;
  tx_timestamp : uint256;
  tx_call : Call;
  tx_world : World Reply
}.

Definition tx_msg (tx : Tx) : Msg := mkMsg (tx_sender tx) (tx_timestamp tx).

Definition transact (tx : Tx) : M unit :=
  dispatch (world_of (tx_timestamp tx) (tx_world tx)) (tx_msg tx) (tx_call tx).

Definition step (s : State) (tx : Tx) : State := commit s (transact tx s).

Definition run (txs : list Tx) (s : State) : State := fold_left step txs s.

(** *** Vocabulary of the properties *)

(** Storage right after a successful deployment. *)
Definition deployed_with (router manager comptroller staking initialOwner : address)
    (s0 : State) : Prop :=
  owner s0 = initialOwner /\ locked s0 = false /\
  pancakeRouter s0 = router /\ pancakeNFTManager s0 = manager /\
  venusComptroller s0 = comptroller /\ bnbStakingContract s0 = staking /\
  tokenToVToken s0 = (fun _ => 0) /\ balance s0 = 0 /\
  logs s0 = [OwnershipTransferred 0 initialOwner].

Definition reachable (s : State) : Prop :=
  exists router manager comptroller staking initialOwner s0 txs,
    constructor router manager comptroller staking initialOwner emptyState
    = Ok tt s0 /\ s = run txs s0.

(** The error a strategy call stops with before it reaches any external
    contract, in the order the code tests; [None] when it goes on to call
    out. *)
Definition precheck (s : State) (msg : Msg) (c : Call) : option Error :=
  if calls_out c
  then
    if owner s =? sender msg
    then
      if locked s then Some ReentrancyGuardReentrantCall
      else
        match c with
        | call_swapTokens tokenIn tokenOut amountIn minAmountOut =>
            if amountIn =? 0 then Some InvalidAmount
            else if minAmountOut =? 0 then Some InvalidSlippage
            else if (tokenIn =? 0) || (tokenOut =? 0) then Some AddressZero
            else None
        | call_addLiquidity token0 token1 amount0 amount1 tickLower tickUpper _ _ =>
            if (token0 =? 0) || (token1 =? 0) then Some AddressZero
            else if (amount0 =? 0) || (amount1 =? 0) then Some InvalidAmount
            else if (tickLower =? 0) && (tickUpper =? 0) then None
            else if tickUpper <=? tickLower then Some InvalidTickRange
            else None
        | call_removeLiquidity _ liquidity _ _ =>
            if liquidity =? 0 then Some InsufficientLiquidity else None
        | call_supplyToVenus token amount | call_withdrawFromVenus token amount =>
            if tokenToVToken s token =? 0 then Some UnsupportedToken
            else if amount =? 0 then Some InvalidAmount
            else None
        | call_stakeBNB amount validator =>
            if amount =? 0 then Some InvalidAmount
            else if validator =? 0 then Some AddressZero
            else if bnbStakingContract s =? 0 then Some AddressZero
            else if balance s <? amount then Some InsufficientLiquidity
            else None
        | _ => None
        end
    else Some (OwnableUnauthorizedAccount (sender msg))
  else None.

(** The functions carrying [onlyOwner]. *)
Definition owner_only (c : Call) : bool :=
  match c with
  | forced_transfer _ | call_receive _ => false
  | _ => true
  end.

(** A computation all of whose effects on the storage are within [R]. *)
Definition respects {A} (R : State -> State -> Prop) (m : M A) : Prop :=
  forall s a s', m s = Ok a s' -> R s s'.

(** [P] holds of every entry of the world. *)
Definition World_all {F : Type -> Type} (P : forall A, F A -> Prop)
    (w : World F) : Prop :=
  (forall a b c d, P _ (IERC20_transferFrom w a b c d)) /\
  (forall a b c, P _ (IERC20_transfer w a b c)) /\
  (forall a b c, P _ (IERC20_forceApprove w a b c)) /\
  (forall a b c, P _ (IERC20_allowance w a b c)) /\
  (forall a b, P _ (IERC20_balanceOf w a b)) /\
  (forall a b, P _ (exactInputSingle w a b)) /\
  (forall a b, P _ (mint w a b)) /\
  (forall a b, P _ (decreaseLiquidity w a b)) /\
  (forall a b, P _ (collect w a b)) /\
  (forall a b, P _ (IVToken_balanceOf w a b)) /\
  (forall a b, P _ (IVToken_mint w a b)) /\
  (forall a b, P _ (IVToken_redeem w a b)) /\
  (forall a b, P _ (enterMarkets w a b)) /\
  (forall a b, P _ (claimVenus w a b)) /\
  (forall a b c, P _ (delegate w a b c)) /\
  (forall a, P _ (IBNBStaking_claimRewards w a)).

Definition world_respects (R : State -> State -> Prop) (w : World M) : Prop :=
  World_all (fun A m => respects R m) w.

(** The transaction's call and every call-back of every reply are
    [allowed]. *)
Definition tx_allowed (allowed : Msg -> Call -> Prop) (tx : Tx) : Prop :=
  allowed (tx_msg tx) (tx_call tx) /\
  World_all (fun A r => Forall (fun rc => allowed (mkMsg rc.1 (tx_timestamp tx)) rc.2)
                          (reentrant r))
    (tx_world tx).

Definition any_call : Msg -> Call -> Prop := fun _ _ => True.

Definition sent_by (A : address -> Prop) : Msg -> Call -> Prop :=
  fun msg _ => A (sender msg).

Definition same_config (s s' : State) : Prop :=
  pancakeRouter s' = pancakeRouter s /\
  pancakeNFTManager s' = pancakeNFTManager s /\
  venusComptroller s' = venusComptroller s /\
  bnbStakingContract s' = bnbStakingContract s.

(** A token that has a vToken keeps one. *)
Definition support_kept (s s' : State) : Prop :=
  forall token, tokenToVToken s token <> 0 -> tokenToVToken s' token <> 0.

(** Nothing but the native currency held has changed. *)
Definition only_balance_changed (s s' : State) : Prop :=
  set_balance (fun _ => 0) s' = set_balance (fun _ => 0) s.

(** The accounts in [A] are not the owner, and nothing but the balance
    changes. *)
Definition strangers_kept (A : address -> Prop) (s s' : State) : Prop :=
  (forall a, A a -> owner s <> a) -> only_balance_changed s s'.

Definition same_lock (s s' : State) : Prop := locked s' = locked s.

(** A world that answers every call at once, without calling back: the
    tokens and protocols accept, and the numbers it reports are [n]. *)
Definition answering {A} (a : A) : Reply A := mkReply A [] (Some a).

Definition plain (n : uint256) : World Reply :=
  {| IERC20_transferFrom := fun _ _ _ _ => answering true;
     IERC20_transfer := fun _ _ _ => answering true;
     IERC20_forceApprove := fun _ _ _ => answering true;
     IERC20_allowance := fun _ _ _ => answering n;
     IERC20_balanceOf := fun _ _ => answering n;
     exactInputSingle := fun _ _ => answering n;
     mint := fun _ _ => answering (n, n, n, n);
     decreaseLiquidity := fun _ _ => answering (n, n);
     collect := fun _ _ => answering (n, n);
     IVToken_balanceOf := fun _ _ => answering n;
     IVToken_mint := fun _ _ => answering 0;
     IVToken_redeem := fun _ _ => answering 0;
     enterMarkets := fun _ _ => answering tt;
     claimVenus := fun _ _ => answering tt;
     delegate := fun _ _ _ => answering tt;
     IBNBStaking_claimRewards := fun _ => answering n |}.

(** Scenario: an executor owned by the vault (account 100), with a staking
    contract, funded with 10 units of native currency, USDT (21) mapped to
    vUSDT (22). *)
Module Scenario.
Definition vault : address := 100.
Definition router : address := 31.
Definition manager : address := 32.
Definition comptroller : address := 33.
Definition staking : address := 34.
Definition usdt : address := 21.
Definition vusdt : address := 22.
Definition stranger : address := 4.
Definition t0 : uint256 := 1700000000.

Definition deployed : State :=
  commit emptyState (constructor router manager comptroller staking vault emptyState).

Definition setup : list Tx :=
  [ mkTx stranger t0 (call_receive 10) (plain 0);
    mkTx vault t0 (call_setVTokenMapping usdt vusdt) (plain 0) ].

Definition ready : State := run setup deployed.
End Scenario.

End Executor.
(** ** Proof tools *)

#[global] Arguments encodePacked : simpl never.
#[global] Arguments be_bytes : simpl never.
#[global] Arguments wrap : simpl never.
#[global] Arguments UINT256_MODULUS : simpl never.

Ltac unfold_monad :=
  unfold nonReentrant, whenNotPaused, whenPaused, onlyRole, hasRole, payable,
    low_level_call, checked_add, checked_mul, checked_div, emit, modify, gets,
    revert, bind, ret in *.

(** Projections of explicit records and results, and nothing else: bare
    [simpl] would start deciding equalities between symbolic digests. *)
Ltac vsimpl_in H :=
  cbn [roles paused locked approvalThreshold ownerCount pendingActions
       actionApprovals assetBalances supportedAssets approvedStrategies logs
       nativeHeld
       set_roles set_paused set_locked set_governance set_pendingActions
       set_actionApprovals set_assetBalances set_supportedAssets
       set_approvedStrategies set_logs set_nativeHeld
       target value proposedAt executionTime approvals executed actionType data
       with_approvals with_executed commit sender timestamp fst snd
       negb andb orb] in H.

Ltac vsimpl :=
  cbn [roles paused locked approvalThreshold ownerCount pendingActions
       actionApprovals assetBalances supportedAssets approvedStrategies logs
       nativeHeld
       set_roles set_paused set_locked set_governance set_pendingActions
       set_actionApprovals set_assetBalances set_supportedAssets
       set_approvedStrategies set_logs set_nativeHeld
       target value proposedAt executionTime approvals executed actionType data
       with_approvals with_executed commit sender timestamp fst snd
       negb andb orb].

(** Split on the conditions a hypothesis branches on. *)
Ltac split_hyp H :=
  repeat match type of H with
         | context [if ?c then _ else _] => destruct c eqn:?; vsimpl_in H
         end.

Ltac split_goal :=
  repeat match goal with
         | |- context [if ?c then _ else _] => destruct c eqn:?; vsimpl
         end.

Ltac Zbool :=
  repeat match goal with
         | H : (_ <? _) = true |- _ => apply Z.ltb_lt in H
         | H : (_ <? _) = false |- _ => apply Z.ltb_ge in H
         | H : (_ <=? _) = true |- _ => apply Z.leb_le in H
         | H : (_ <=? _) = false |- _ => apply Z.leb_gt in H
         | H : (_ =? _) = true |- _ => apply Z.eqb_eq in H
         | H : (_ =? _) = false |- _ => apply Z.eqb_neq in H
         end.


Ltac vsimpl_all :=
  cbn [roles paused locked approvalThreshold ownerCount pendingActions
       actionApprovals assetBalances supportedAssets approvedStrategies logs
       nativeHeld
       set_roles set_paused set_locked set_governance set_pendingActions
       set_actionApprovals set_assetBalances set_supportedAssets
       set_approvedStrategies set_logs set_nativeHeld
       target value proposedAt executionTime approvals executed actionType data
       with_approvals with_executed commit sender timestamp fst snd
       negb andb orb] in *.

(** Case analysis of a call: split on every condition, then on the result
    of every external call, innermost first. *)
Ltac split_call :=
  repeat match goal with
         | H : context [if ?c then _ else _] |- _ =>
             destruct c eqn:?; vsimpl_all
         | H : context [match ?c with Ok _ _ => _ | Err _ => _ end] |- _ =>
             lazymatch c with
             | context [match _ with _ => _ end] => fail
             | _ => destruct c eqn:?; vsimpl_all
             end
         end.

Ltac unfold_vault :=
  unfold dispatch, forcedTransfer, receive, proposeAction,
    _isLargeTransaction, approveAction, executeAction, deposit, depositBNB,
    approveStrategy, addSupportedAsset,
    pause, unpause, emergencyWithdraw, safeTransferFrom, safeTransfer,
    grantRole, revokeRole, renounceRole, _grantRole, _revokeRole in *.

Ltac run_call H :=
  unfold_vault; unfold_monad; vsimpl_all; split_call;
  try discriminate H; inversion H; subst; clear H; vsimpl_all.

(** Lookups in updated mappings. *)
Ltac fn_cases :=
  unfold insert, fn_insert; repeat case_decide; subst; try congruence.

(** Closed facts about the scenario, by evaluation.  Only scalars are
    evaluated this way, never a whole [State]. *)
Ltac by_compute :=
  vm_compute; repeat split; intros; try reflexivity; try discriminate.

(** ** Transactions and reachable states *)

Lemma transact_returns (tx : Tx) (s : State) :
  outcome (transact tx s) = None -> transact tx s = Ok tt (step s tx).
Proof.
  unfold step. destruct (transact tx s) as [[] s'|e]; [ reflexivity | discriminate ].
Qed.

Lemma constructor_returns (msg : Msg) (owners : list address)
    (threshold : uint256) :
  outcome (constructor msg owners threshold emptyState) = None ->
  constructor msg owners threshold emptyState
  = Ok tt (commit emptyState (constructor msg owners threshold emptyState)).
Proof.
  destruct (constructor msg owners threshold emptyState) as [[] s'|e];
    [ reflexivity | discriminate ].
Qed.

Lemma scenario_reachable (txs : list Tx) : reachable (run txs Scenario.deployed).
Proof.
  exists (mkMsg Scenario.owner1 Scenario.t0),
    [Scenario.owner1; Scenario.owner2; Scenario.owner3], 2,
    Scenario.deployed, txs.
  split; [ | reflexivity ].
  apply constructor_returns. vm_compute. reflexivity.
Qed.

Lemma reachable_run (txs : list Tx) (s : State) :
  reachable s -> reachable (run txs s).
Proof.
  intros (msg & owners & threshold & s0 & txs0 & H0 & ->).
  exists msg, owners, threshold, s0, (txs0 ++ txs).
  split; [ exact H0 | ]. unfold run. rewrite fold_left_app. reflexivity.
Qed.

Lemma reachable_step (s : State) (tx : Tx) : reachable s -> reachable (step s tx).
Proof. apply (reachable_run [tx]). Qed.

(** ** The reentrancy lock *)

Lemma dispatch_locked_unchanged (call : ExternalCall) (msg : Msg) (c : Call)
    (s s' : State) :
  keeps_lock call ->
  dispatch call msg c s = Ok tt s' -> locked s' = locked s.
Proof.
  intros Hcall H. destruct c; run_call H; try reflexivity;
    repeat match goal with
           | E : call _ _ _ _ = Ok _ _ |- _ => apply Hcall in E; vsimpl_in E
           end; congruence.
Qed.

(** A call-back runs with the lock held, so whether it returns does not
    depend on how further external calls would behave: the three functions
    that call out stop at the [nonReentrant] guard. *)
Lemma dispatch_locked (call1 call2 : ExternalCall) (msg : Msg) (c : Call)
    (s : State) :
  locked s = true -> dispatch call1 msg c s = dispatch call2 msg c s.
Proof.
  intros Hl. destruct c; try reflexivity;
    unfold dispatch, executeAction, deposit, emergencyWithdraw, nonReentrant;
    rewrite Hl; reflexivity.
Qed.

Lemma no_call_keeps_lock : keeps_lock no_call.
Proof. intros t v d s b s' H. inversion H. reflexivity. Qed.

Lemma reenter_locked (now : uint256) (s : State) (rc : address * Call) :
  locked (reenter now s rc) = locked s.
Proof.
  unfold reenter.
  destruct (dispatch no_call (mkMsg rc.1 now) rc.2 s) as [[] s'|e] eqn:E;
    [ | reflexivity ].
  exact (dispatch_locked_unchanged _ _ _ _ _ no_call_keeps_lock E).
Qed.

Lemma callbacks_locked (now : uint256) (rcs : list (address * Call)) (s : State) :
  locked (fold_left (reenter now) rcs s) = locked s.
Proof.
  revert s. induction rcs as [|rc rcs IH]; intros s; [ reflexivity | ].
  cbn [fold_left]. rewrite IH. apply reenter_locked.
Qed.

Lemma run_callee_keeps_lock (now : uint256) (k : Callee) :
  keeps_lock (run_callee now k).
Proof.
  intros t v d s b s' H. unfold run_callee in H.
  destruct (succeeds k); inversion H; subst; [ apply callbacks_locked | reflexivity ].
Qed.

Lemma step_locked (s : State) (tx : Tx) : locked (step s tx) = locked s.
Proof.
  unfold step, transact.
  destruct (dispatch _ _ _ s) as [[] s'|e] eqn:E; [ | reflexivity ].
  exact (dispatch_locked_unchanged _ _ _ _ _ (run_callee_keeps_lock _ _) E).
Qed.

Lemma run_locked (txs : list Tx) (s : State) : locked (run txs s) = locked s.
Proof.
  revert s. induction txs as [|tx txs IH]; intros s; [ reflexivity | ].
  unfold run in *. cbn [fold_left]. rewrite IH. apply step_locked.
Qed.

Lemma _grantRole_locked (by_ : address) (role : Role) (account : address)
    (s s' : State) :
  _grantRole by_ role account s = Ok tt s' -> locked s' = locked s.
Proof.
  intros H. unfold _grantRole in H. unfold_monad. vsimpl_all. split_call.
  all: inversion H; reflexivity.
Qed.

Lemma grantOwners_locked (deployer : address) (owners : list address)
    (s s' : State) :
  grantOwners deployer owners s = Ok tt s' -> locked s' = locked s.
Proof.
  revert s. induction owners as [|o rest IH]; intros s H.
  - inversion H. reflexivity.
  - cbn [grantOwners] in H. unfold bind in H.
    destruct (_grantRole deployer OWNER_ROLE o s) as [[] s1|e] eqn:E;
      [ | discriminate ].
    apply IH in H. apply _grantRole_locked in E. congruence.
Qed.

Lemma constructor_locked (msg : Msg) (owners : list address)
    (threshold : uint256) (s s' : State) :
  constructor msg owners threshold s = Ok tt s' -> locked s' = locked s.
Proof.
  intros H. unfold constructor in H. destruct owners as [|first rest];
    [ discriminate | ].
  destruct (_ || _); [ discriminate | ]. unfold bind, modify in H.
  destruct (_grantRole _ _ _ s) as [[] s1|e] eqn:E1; [ | discriminate ].
  destruct (grantOwners _ _ _) as [[] s2|e] eqn:E2; [ | discriminate ].
  inversion H; subst. vsimpl.
  apply grantOwners_locked in E2. apply _grantRole_locked in E1.
  vsimpl_in E2. congruence.
Qed.

(** Between transactions the reentrancy lock is free. *)
Lemma reachable_unlocked (s : State) : reachable s -> locked s = false.
Proof.
  intros (msg & owners & threshold & s0 & txs & H0 & ->).
  rewrite run_locked. apply constructor_locked in H0. exact H0.
Qed.

(** ** The ledger holds [uint256] values *)

Lemma wrap_in_range (x : Z) : 0 <= wrap x < UINT256_MODULUS.
Proof. unfold wrap. apply Z.mod_pos_bound. reflexivity. Qed.

Lemma dispatch_ledger_in_range (call : ExternalCall) (msg : Msg) (c : Call)
    (s s' : State) :
  keeps_ledger call ->
  dispatch call msg c s = Ok tt s' -> ledger_in_range s -> ledger_in_range s'.
Proof.
  intros Hcall H Hs. unfold ledger_in_range in *.
  destruct c; run_call H;
    repeat match goal with
           | E : call _ _ _ _ = Ok _ _ |- _ =>
               apply Hcall in E; unfold ledger_in_range in *; vsimpl_in E
           end; auto.
  all: try (match goal with E : _ -> forall a, _ |- _ => apply E end).
  all: intros a; unfold insert, fn_insert; case_decide; subst;
    auto using wrap_in_range.
Qed.

Lemma no_call_keeps_ledger : keeps_ledger no_call.
Proof. intros t v d s b s' H Hs. inversion H; subst. exact Hs. Qed.

Lemma callbacks_ledger_in_range (now : uint256) (rcs : list (address * Call))
    (s : State) :
  ledger_in_range s -> ledger_in_range (fold_left (reenter now) rcs s).
Proof.
  revert s. induction rcs as [|rc rcs IH]; intros s Hs; [ exact Hs | ].
  cbn [fold_left]. apply IH. unfold reenter.
  destruct (dispatch no_call (mkMsg rc.1 now) rc.2 s) as [[] s'|e] eqn:E;
    [ | exact Hs ].
  exact (dispatch_ledger_in_range _ _ _ _ _ no_call_keeps_ledger E Hs).
Qed.

Lemma run_callee_keeps_ledger (now : uint256) (k : Callee) :
  keeps_ledger (run_callee now k).
Proof.
  intros t v d s b s' H Hs. unfold run_callee in H.
  destruct (succeeds k); inversion H; subst;
    [ apply callbacks_ledger_in_range; exact Hs | exact Hs ].
Qed.

Lemma step_ledger_in_range (s : State) (tx : Tx) :
  ledger_in_range s -> ledger_in_range (step s tx).
Proof.
  intros Hs. unfold step, transact.
  destruct (dispatch _ _ _ s) as [[] s'|e] eqn:E; [ | exact Hs ].
  exact (dispatch_ledger_in_range _ _ _ _ _ (run_callee_keeps_ledger _ _) E Hs).
Qed.

Lemma run_ledger_in_range (txs : list Tx) (s : State) :
  ledger_in_range s -> ledger_in_range (run txs s).
Proof.
  revert s. induction txs as [|tx txs IH]; intros s Hs; [ exact Hs | ].
  unfold run in *. cbn [fold_left]. apply IH. apply step_ledger_in_range.
  exact Hs.
Qed.

Lemma _grantRole_assetBalances (by_ : address) (role : Role) (account : address)
    (s s' : State) :
  _grantRole by_ role account s = Ok tt s' -> assetBalances s' = assetBalances s.
Proof.
  intros H. unfold _grantRole in H. unfold_monad. vsimpl_all. split_call.
  all: inversion H; reflexivity.
Qed.

Lemma grantOwners_assetBalances (deployer : address) (owners : list address)
    (s s' : State) :
  grantOwners deployer owners s = Ok tt s' -> assetBalances s' = assetBalances s.
Proof.
  revert s. induction owners as [|o rest IH]; intros s H.
  - inversion H. reflexivity.
  - cbn [grantOwners] in H. unfold bind in H.
    destruct (_grantRole deployer OWNER_ROLE o s) as [[] s1|e] eqn:E;
      [ | discriminate ].
    apply IH in H. apply _grantRole_assetBalances in E. congruence.
Qed.

Lemma constructor_assetBalances (msg : Msg) (owners : list address)
    (threshold : uint256) (s s' : State) :
  constructor msg owners threshold s = Ok tt s' ->
  assetBalances s' = assetBalances s.
Proof.
  intros H. unfold constructor in H. destruct owners as [|first rest];
    [ discriminate | ].
  destruct (_ || _); [ discriminate | ]. unfold bind, modify in H.
  destruct (_grantRole _ _ _ s) as [[] s1|e] eqn:E1; [ | discriminate ].
  destruct (grantOwners _ _ _) as [[] s2|e] eqn:E2; [ | discriminate ].
  inversion H; subst. vsimpl.
  apply grantOwners_assetBalances in E2. apply _grantRole_assetBalances in E1.
  vsimpl_in E2. congruence.
Qed.

(** Whatever amounts the callers pass, every balance the ledger of a
    deployed vault holds lies in [0, 2^256). *)
Lemma reachable_ledger_in_range (s : State) :
  reachable s -> ledger_in_range s.
Proof.
  intros (msg & owners & threshold & s0 & txs & H0 & ->).
  apply run_ledger_in_range. intros a.
  rewrite (constructor_assetBalances _ _ _ _ _ H0). cbn [assetBalances emptyState].
  unfold UINT256_MODULUS. lia.
Qed.

(** ** Approval records only grow *)

Lemma dispatch_approvals_grow (call : ExternalCall) (msg : Msg) (c : Call)
    (s s' : State) :
  keeps_approvals call ->
  dispatch call msg c s = Ok tt s' -> approvals_grow s s'.
Proof.
  intros Hcall H. destruct c; run_call H; intros id who Hid; vsimpl;
    repeat match goal with
           | E : call _ _ _ _ = Ok _ _ |- _ =>
               apply Hcall in E; specialize (E id who); vsimpl_in E
           end; auto; fn_cases.
Qed.

Lemma no_call_keeps_approvals : keeps_approvals no_call.
Proof. intros t v d s b s' H. inversion H; subst. intros id who Hid. exact Hid. Qed.

Lemma reenter_approvals_grow (now : uint256) (s : State) (rc : address * Call) :
  approvals_grow s (reenter now s rc).
Proof.
  unfold reenter.
  destruct (dispatch no_call (mkMsg rc.1 now) rc.2 s) as [[] s'|e] eqn:E;
    [ | intros id who; auto ].
  exact (dispatch_approvals_grow _ _ _ _ _ no_call_keeps_approvals E).
Qed.

Lemma callbacks_approvals_grow (now : uint256) (rcs : list (address * Call))
    (s : State) :
  approvals_grow s (fold_left (reenter now) rcs s).
Proof.
  revert s. induction rcs as [|rc rcs IH]; intros s id who H; [ exact H | ].
  cbn [fold_left]. apply IH. apply reenter_approvals_grow. exact H.
Qed.

Lemma run_callee_keeps_approvals (now : uint256) (k : Callee) :
  keeps_approvals (run_callee now k).
Proof.
  intros t v d s b s' H. unfold run_callee in H.
  destruct (succeeds k); inversion H; subst;
    [ apply callbacks_approvals_grow | intros ? ?; auto ].
Qed.

Lemma step_approvals_grow (s : State) (tx : Tx) : approvals_grow s (step s tx).
Proof.
  unfold step, transact.
  destruct (dispatch _ _ _ s) as [[] s'|e] eqn:E; [ | intros ? ?; auto ].
  exact (dispatch_approvals_grow _ _ _ _ _ (run_callee_keeps_approvals _ _) E).
Qed.

Lemma run_approvals_grow (txs : list Tx) (s : State) :
  approvals_grow s (run txs s).
Proof.
  revert s. induction txs as [|tx txs IH]; intros s id who H; [ exact H | ].
  unfold run in *. cbn [fold_left]. apply IH. apply step_approvals_grow. exact H.
Qed.

(** ** An executed action stays executed unless it is proposed again *)

Lemma dispatch_consumed (id : bytes32) (call : ExternalCall) (msg : Msg)
    (c : Call) (s s' : State) :
  keeps_consumed id call ->
  ~ proposes msg c id ->
  dispatch call msg c s = Ok tt s' -> consumed s id -> consumed s' id.
Proof.
  intros Hcall Hnp H Hc. unfold consumed in *.
  destruct c; cbn [proposes] in Hnp; run_call H;
    repeat match goal with
           | E : call _ _ _ _ = Ok _ _ |- _ =>
               apply Hcall in E; unfold consumed in E; vsimpl_in E
           end; auto.
  all: try (rewrite fn_lookup_insert_ne by exact Hnp; exact Hc).
  all: try (match goal with E : _ -> _ |- _ => apply E end).
  all: unfold insert, fn_insert; case_decide; subst; vsimpl; auto.
  all: intuition congruence.
Qed.

Lemma no_call_keeps_consumed (id : bytes32) : keeps_consumed id no_call.
Proof. intros t v d s b s' H Hc. inversion H; subst. exact Hc. Qed.

Lemma callbacks_consumed (now : uint256) (id : bytes32)
    (rcs : list (address * Call)) (s : State) :
  ~ Exists (fun rc => proposes (mkMsg rc.1 now) rc.2 id) rcs ->
  consumed s id -> consumed (fold_left (reenter now) rcs s) id.
Proof.
  revert s. induction rcs as [|rc rcs IH]; intros s Hnp Hc; [ exact Hc | ].
  cbn [fold_left]. apply IH.
  - intros Hex. apply Hnp. apply Exists_cons_tl. exact Hex.
  - unfold reenter.
    destruct (dispatch no_call (mkMsg rc.1 now) rc.2 s) as [[] s'|e] eqn:E;
      [ | exact Hc ].
    refine (dispatch_consumed id _ _ _ _ _ (no_call_keeps_consumed id) _ E Hc).
    intros Hp. apply Hnp. apply Exists_cons_hd. exact Hp.
Qed.

Lemma run_callee_keeps_consumed (now : uint256) (k : Callee) (id : bytes32) :
  ~ callee_proposes now k id -> keeps_consumed id (run_callee now k).
Proof.
  intros Hnp t v d s b s' H Hc. unfold run_callee in H.
  destruct (succeeds k); inversion H; subst;
    [ apply callbacks_consumed; assumption | exact Hc ].
Qed.

Lemma step_consumed (s : State) (tx : Tx) (id : bytes32) :
  ~ reproposes tx id -> consumed s id -> consumed (step s tx) id.
Proof.
  intros Hnp Hc. unfold step, transact.
  destruct (dispatch _ _ _ s) as [[] s'|e] eqn:E; [ | exact Hc ].
  refine (dispatch_consumed id _ _ _ _ _ _ _ E Hc).
  - apply run_callee_keeps_consumed. intros H. apply Hnp. right. exact H.
  - intros H. apply Hnp. left. exact H.
Qed.

Lemma run_consumed (txs : list Tx) (s : State) (id : bytes32) :
  Forall (fun tx => ~ reproposes tx id) txs ->
  consumed s id -> consumed (run txs s) id.
Proof.
  revert s. induction txs as [|tx txs IH]; intros s Hall Hc; [ exact Hc | ].
  inversion Hall; subst. unfold run in *. cbn [fold_left].
  apply IH; [ assumption | ]. apply step_consumed; assumption.
Qed.

(** A successful [executeAction] leaves the action consumed, provided the
    callee did not have it proposed again during the forwarded call. *)
Lemma executeAction_consumes (call : ExternalCall) (msg : Msg) (id : bytes32)
    (s s' : State) :
  keeps_consumed id call ->
  executeAction call msg id s = Ok tt s' -> consumed s' id.
Proof.
  intros Hcall H. run_call H;
    match goal with
    | E : call _ _ _ _ = Ok _ _ |- _ => apply (Hcall _ _ _ _ _ _ E)
    end; unfold consumed; vsimpl; rewrite fn_lookup_insert; vsimpl; Zbool;
    split; auto.
Qed.

(** ** What [executeAction] does *)

Lemma executeAction_forward (call : ExternalCall) (msg : Msg) (id : bytes32)
    (s : State) :
  locked s = false -> paused s = false -> executable s (timestamp msg) id ->
  let a := pendingActions s id in
  executeAction call msg id s =
  after_call id
    (low_level_call call (target a) (value a) (data a) (forwarding_state s id)).
Proof.
  intros Hl Hp (Hex & Hne & Hap & Htl & Hwl). cbv zeta.
  unfold executeAction, forwarding_state, after_call.
  unfold nonReentrant, whenNotPaused, emit, modify, gets, revert, bind, ret.
  vsimpl. rewrite Hl, Hp. vsimpl.
  rewrite (proj2 (Z.eqb_neq _ _) Hex), Hne. vsimpl.
  rewrite (proj2 (Z.ltb_ge _ _) Hap), (proj2 (Z.ltb_ge _ _) Htl). vsimpl.
  replace (negb (target (pendingActions s id) =? 0) &&
           negb (approvedStrategies s (target (pendingActions s id))))
    with false
    by (destruct Hwl as [-> | ->];
        [ reflexivity | rewrite andb_false_r; reflexivity ]).
  vsimpl. rewrite fn_lookup_insert. vsimpl.
  destruct (low_level_call _ _ _ _ _) as [[] s2|e]; vsimpl; [ | | reflexivity ];
    destruct (0 <? value (pendingActions s2 id)); reflexivity.
Qed.

Lemma executeAction_check_fails (call : ExternalCall) (msg : Msg) (id : bytes32)
    (s : State) (e : Error) :
  executeAction_check s (timestamp msg) id = Some e ->
  executeAction call msg id s = Err e.
Proof.
  unfold executeAction_check, executeAction. unfold_monad. vsimpl. intros H.
  repeat match type of H with
         | context [if ?c then _ else _] => destruct c eqn:?; vsimpl
         end; congruence.
Qed.

(** ** Time-lock policy *)

(** C4.  Every proposal [proposeAction] accepts is stored with
    [proposedAt] the block time and [executionTime >= proposedAt]; the two
    are equal exactly when the native balance at proposal time was 0 or
    [value * 100 / nativeBalance < 10], and otherwise [executionTime] is
    [proposedAt] plus 24 hours. *)
Theorem C4_timelock_policy (msg : Msg) (t : address) (d : bytes) (v : uint256)
    (ty : ActionType) (s s' : State) (id : bytes32) :
  0 <= v ->
  0 <= assetBalances s 0 ->
  proposeAction msg t d v ty s = Ok id s' ->
  let a := pendingActions s' id in
  let nativeBalance := assetBalances s 0 in
  proposedAt a = timestamp msg /\
  proposedAt a <= executionTime a /\
  (executionTime a = proposedAt a <->
     nativeBalance = 0 \/ v * 100 / nativeBalance < LARGE_TX_THRESHOLD) /\
  (~ (nativeBalance = 0 \/ v * 100 / nativeBalance < LARGE_TX_THRESHOLD) ->
     executionTime a = proposedAt a + 24 * 3600).
Proof.
  intros Hv Hbal H. unfold proposeAction, _isLargeTransaction in H.
  unfold_monad. unfold LARGE_TX_THRESHOLD, TIME_LOCK_DELAY in *. vsimpl_in H.
  split_hyp H; try discriminate; inversion H; subst; clear H; vsimpl;
    rewrite fn_lookup_insert; vsimpl; Zbool.
  all: assert (Hzero : v <= 0 -> v * 100 / assetBalances s 0 < 10)
    by (intros; assert (v = 0) by lia; subst v;
        rewrite Z.mul_0_l, Zdiv_0_l; lia).
  all: repeat split; intros; try lia; try tauto.
  all: exfalso; tauto.
Qed.

(** Under the stated conditions the proposal is accepted. *)
Lemma proposeAction_accepts (msg : Msg) (t : address) (d : bytes) (v : uint256)
    (ty : ActionType) (s : State) :
  paused s = false ->
  roles s EXECUTOR_ROLE (sender msg) = true \/
    roles s AI_AGENT_ROLE (sender msg) = true ->
  v * 100 < UINT256_MODULUS ->
  timestamp msg + TIME_LOCK_DELAY < UINT256_MODULUS ->
  exists s',
    proposeAction msg t d v ty s
    = Ok (keccak256 (encodePacked t d v (timestamp msg) (sender msg))) s'.
Proof.
  intros Hp Hrole Hv Ht. unfold proposeAction, _isLargeTransaction.
  unfold_monad. rewrite Hp. vsimpl.
  replace (negb (roles s EXECUTOR_ROLE (sender msg)) &&
           negb (roles s AI_AGENT_ROLE (sender msg))) with false
    by (destruct Hrole as [-> | ->];
        [ reflexivity | rewrite andb_false_r; reflexivity ]).
  apply Z.ltb_lt in Hv, Ht. vsimpl.
  destruct (0 <? v); vsimpl; [ | eexists; reflexivity ].
  destruct (assetBalances s 0 =? 0) eqn:E; vsimpl; [ eexists; reflexivity | ].
  rewrite Hv. vsimpl.
  destruct (LARGE_TX_THRESHOLD <=? _); vsimpl; [ rewrite Ht | ];
    eexists; reflexivity.
Qed.

(** The 20-BNB proposal of the scenario, against 100 BNB. *)
Lemma C4_timelock_policy_witness :
  exists s',
    proposeAction (mkMsg Scenario.owner1 Scenario.t0) Scenario.strategy []
      (Scenario.ether 20) SwapTokens Scenario.funded
    = Ok Scenario.large_id s' /\
    proposedAt (pendingActions s' Scenario.large_id) = Scenario.t0 /\
    executionTime (pendingActions s' Scenario.large_id)
    = Scenario.t0 + 24 * 3600.
Proof.
  destruct (proposeAction_accepts (mkMsg Scenario.owner1 Scenario.t0)
              Scenario.strategy [] (Scenario.ether 20) SwapTokens Scenario.funded)
    as [s' H]; [ by_compute | left; by_compute | by_compute | by_compute | ].
  change (proposeAction (mkMsg Scenario.owner1 Scenario.t0) Scenario.strategy []
            (Scenario.ether 20) SwapTokens Scenario.funded
          = Ok Scenario.large_id s') in H.
  exists s'. split; [ exact H | ].
  apply C4_timelock_policy in H; [ | by_compute | by_compute ].
  destruct H as (H1 & _ & _ & H2). split; [ exact H1 | ].
  rewrite H2; [ rewrite H1; reflexivity | ].
  vm_compute. intros [E|E]; discriminate.
Defined.

(** ** Execution *)

(** A forwarded call fails when the target rejects it or when the vault
    account does not hold the value to forward. *)
Lemma low_level_call_fails (now : uint256) (k : Callee) (t : address)
    (v : uint256) (d : bytes) (s : State) :
  succeeds k = false \/ nativeHeld s < v ->
  low_level_call (run_callee now k) t v d s = Ok false s.
Proof.
  intros H. unfold low_level_call, run_callee.
  destruct (nativeHeld s <? v) eqn:E; [ reflexivity | ].
  destruct H as [-> | H]; [ reflexivity | ]. apply Z.ltb_ge in E. lia.
Qed.

(** A target that accepts is paid and the call succeeds. *)
Lemma low_level_call_accepted (now : uint256) (t : address) (v : uint256)
    (d : bytes) (s : State) :
  v <= nativeHeld s ->
  low_level_call (run_callee now accepts) t v d s
  = Ok true (set_nativeHeld (fun h => h - v) s).
Proof.
  intros H. unfold low_level_call, run_callee.
  replace (nativeHeld s <? v) with false by (symmetry; apply Z.ltb_ge; lia).
  reflexivity.
Qed.

(** When the preconditions hold, the vault holds the value to forward and
    the target succeeds, [executeAction] returns. *)
Lemma executeAction_returns (s : State) (tx : Tx) (id : bytes32) :
  tx_call tx = call_executeAction id ->
  locked s = false -> paused s = false ->
  executable s (tx_timestamp tx) id ->
  succeeds (tx_callee tx) = true ->
  value (pendingActions s id) <= nativeHeld s ->
  transact tx s = Ok tt (step s tx).
Proof.
  intros Hc Hl Hp Hex Hk Hheld. apply transact_returns.
  unfold transact. rewrite Hc. cbn [dispatch].
  rewrite executeAction_forward by assumption.
  unfold low_level_call, run_callee, forwarding_state. vsimpl.
  replace (nativeHeld s <? value (pendingActions s id)) with false
    by (symmetry; apply Z.ltb_ge; exact Hheld).
  rewrite Hk. reflexivity.
Qed.

(** The two time-lock scenarios of the design: 5 BNB out of 100 can be
    executed at once after two approvals; 20 BNB out of 100 only a day
    later. *)
Example scenario_small_transfer :
  executionTime (pendingActions Scenario.approved_small Scenario.small_id)
    = Scenario.t0 /\
  outcome (transact (Scenario.execute_small accepts) Scenario.approved_small)
    = None /\
  assetBalances Scenario.executed_small 0 = Scenario.ether 95.
Proof. by_compute. Qed.

Example scenario_large_transfer :
  executionTime (pendingActions Scenario.approved_large Scenario.large_id)
    = Scenario.t0 + 24 * 3600 /\
  outcome (transact (mkTx Scenario.stranger Scenario.t0
                       (call_executeAction Scenario.large_id) accepts)
             Scenario.approved_large) = Some TimeLockNotExpired /\
  outcome (transact Scenario.execute_large_later Scenario.approved_large)
    = None.
Proof. by_compute. Qed.

(** C1 (as the code has it).  When every execute precondition holds and the
    forwarded call fails (the target rejects it, or the vault does not hold
    the value to forward), [executeAction] reverts with [CallFailed]: the
    storage and the event log are exactly what they were before the call, so
    the action is still not executed, nothing is debited and no
    [ActionExecuted] event is recorded. *)
Theorem C1_failed_call_reverts (s : State) (tx : Tx) (id : bytes32) :
  tx_call tx = call_executeAction id ->
  locked s = false -> paused s = false ->
  executable s (tx_timestamp tx) id ->
  succeeds (tx_callee tx) = false \/
    nativeHeld s < value (pendingActions s id) ->
  transact tx s = Err CallFailed /\ step s tx = s.
Proof.
  intros Hc Hl Hp Hex Hfail.
  assert (E : transact tx s = Err CallFailed).
  { unfold transact. rewrite Hc. cbn [dispatch].
    rewrite executeAction_forward by assumption.
    rewrite low_level_call_fails by exact Hfail. reflexivity. }
  split; [ exact E | ]. unfold step. rewrite E. reflexivity.
Qed.

(** The scenario's approved 5-BNB action, with a target that rejects. *)
Lemma C1_failed_call_reverts_witness :
  transact (Scenario.execute_small rejects) Scenario.approved_small = Err CallFailed /\
  step Scenario.approved_small (Scenario.execute_small rejects) = Scenario.approved_small.
Proof.
  apply (C1_failed_call_reverts Scenario.approved_small
           (Scenario.execute_small rejects) Scenario.small_id).
  - reflexivity.
  - by_compute.
  - by_compute.
  - by_compute. right. reflexivity.
  - left. reflexivity.
Defined.

(** C1, counterexample.  In the scenario the approved 5-BNB action meets
    every precondition and the target rejects the call: afterwards the
    action is not marked executed, the ledger still shows 100 BNB and the log
    has no new entry. *)
Lemma C1_counterexample :
  reachable Scenario.approved_small /\
  executable Scenario.approved_small Scenario.t0 Scenario.small_id /\
  succeeds rejects = false /\
  let s' := step Scenario.approved_small (Scenario.execute_small rejects) in
  executed (pendingActions s' Scenario.small_id) = false /\
  assetBalances s' 0 = Scenario.ether 100 /\
  logs s' = logs Scenario.approved_small.
Proof.
  split; [ apply scenario_reachable | ].
  split; [ by_compute; right; reflexivity | ].
  by_compute.
Qed.

(** C3 (as the code has it).  When the preconditions hold, the call is
    forwarded in [forwarding_state s id]: the result of [executeAction]
    depends on the target only through what the forwarded call does there.
    In that state the action is already marked executed and the reentrancy
    lock is held, so a re-entrant [executeAction], for any action, reverts
    with [ReentrancyGuardReentrantCall] at the guard, before the
    [ActionAlreadyExecuted] check; the same is true wherever it stands
    among the callee's call-backs. *)
Theorem C3_executed_before_forwarding (s : State) (msg : Msg) (id : bytes32) :
  locked s = false -> paused s = false ->
  executable s (timestamp msg) id ->
  let a := pendingActions s id in
  let mid := forwarding_state s id in
  (exists finish, forall call,
     executeAction call msg id s
     = finish (low_level_call call (target a) (value a) (data a) mid)) /\
  executed (pendingActions mid id) = true /\
  locked mid = true /\
  (forall call' msg' id',
     executeAction call' msg' id' mid = Err ReentrancyGuardReentrantCall) /\
  (forall k pre who id' post,
     reentrant k = pre ++ (who, call_executeAction id') :: post ->
     let s_i := fold_left (reenter (timestamp msg)) pre mid in
     dispatch no_call (mkMsg who (timestamp msg)) (call_executeAction id') s_i
     = Err ReentrancyGuardReentrantCall).
Proof.
  intros Hl Hp Hex. cbv zeta.
  assert (Hguard : forall st call' msg' id',
            locked st = true ->
            executeAction call' msg' id' st = Err ReentrancyGuardReentrantCall).
  { intros st call' msg' id' Hst. unfold executeAction, nonReentrant.
    rewrite Hst. reflexivity. }
  split; [ | split; [ | split; [ | split ] ] ].
  - exists (after_call id). intros call.
    apply (executeAction_forward call msg id s Hl Hp Hex).
  - unfold forwarding_state. vsimpl. rewrite fn_lookup_insert. reflexivity.
  - reflexivity.
  - intros call' msg' id'. apply Hguard. reflexivity.
  - intros k pre who id' post _. cbn [dispatch]. apply Hguard.
    rewrite callbacks_locked. reflexivity.
Qed.

(** The state in which the scenario's 5-BNB action is forwarded. *)
Lemma C3_executed_before_forwarding_witness :
  executed (pendingActions
              (forwarding_state Scenario.approved_small Scenario.small_id)
              Scenario.small_id) = true /\
  executeAction no_call (mkMsg Scenario.strategy Scenario.t0) Scenario.small_id
    (forwarding_state Scenario.approved_small Scenario.small_id)
  = Err ReentrancyGuardReentrantCall.
Proof.
  destruct (C3_executed_before_forwarding Scenario.approved_small
              (mkMsg Scenario.stranger Scenario.t0) Scenario.small_id)
    as (_ & He & _ & Hre & _).
  - by_compute.
  - by_compute.
  - by_compute. right. reflexivity.
  - split; [ exact He | apply Hre ].
Defined.

(** C3, counterexample.  The target of the approved 5-BNB action calls
    [executeAction] on the same action back.  If it insists on seeing
    [ActionAlreadyExecuted] the execution fails; it goes through when the
    target expects [ReentrancyGuardReentrantCall]: that, not
    [ActionAlreadyExecuted], is what the re-entrant call reverts with in the
    state the call is forwarded in. *)
Lemma C3_counterexample :
  let msg := mkMsg Scenario.stranger Scenario.t0 in
  outcome
    (executeAction
       (Scenario.reentry_probe ActionAlreadyExecuted Scenario.small_id)
       msg Scenario.small_id Scenario.approved_small) = Some CallFailed /\
  outcome
    (executeAction
       (Scenario.reentry_probe ReentrancyGuardReentrantCall Scenario.small_id)
       msg Scenario.small_id Scenario.approved_small) = None /\
  outcome
    (executeAction no_call (mkMsg Scenario.strategy Scenario.t0)
       Scenario.small_id
       (forwarding_state Scenario.approved_small Scenario.small_id))
    = Some ReentrancyGuardReentrantCall /\
  spec_error ReentrancyGuardReentrantCall <> Some SpecError.AlreadyExecuted.
Proof. by_compute. Qed.

(** The ledger is debited after the forwarded call returns: a target that
    checks the tracked balance during the call still finds the full
    100 BNB, and only the final state shows 95. *)
Remark debit_follows_forwarded_call :
  let r := executeAction (Scenario.balance_probe (Scenario.ether 100))
             (mkMsg Scenario.stranger Scenario.t0) Scenario.small_id
             Scenario.approved_small in
  outcome r = None /\
  assetBalances (commit Scenario.approved_small r) 0 = Scenario.ether 95.
Proof. by_compute. Qed.

(** C8 (as the code has it).  An existing action whose target is neither
    the zero address nor whitelisted can never be executed: [executeAction]
    reverts in every approval and time-lock state.  The error is that of the
    first check that fails, in the code's order; it is
    [UnauthorizedStrategy] only when all the earlier ones pass. *)
Theorem C8_unlisted_target_never_executes (call : ExternalCall) (msg : Msg)
    (id : bytes32) (s : State) :
  let a := pendingActions s id in
  proposedAt a <> 0 -> target a <> 0 ->
  approvedStrategies s (target a) = false ->
  executeAction call msg id s =
  Err (if locked s then ReentrancyGuardReentrantCall
       else if paused s then EnforcedPause
       else if executed a then ActionAlreadyExecuted
       else if approvals a <? approvalThreshold s then InsufficientApprovals
       else if timestamp msg <? executionTime a then TimeLockNotExpired
       else UnauthorizedStrategy).
Proof.
  intros a Hex Ht Hwl. apply executeAction_check_fails.
  unfold executeAction_check. fold a.
  rewrite (proj2 (Z.eqb_neq _ _) Hex), (proj2 (Z.eqb_neq _ _) Ht), Hwl.
  cbn [negb andb]. split_goal; reflexivity.
Qed.

(** The scenario's unapproved action aimed at the unlisted target. *)
Lemma C8_unlisted_target_never_executes_witness :
  executeAction no_call (mkMsg Scenario.stranger Scenario.t0) Scenario.unlisted_id
    Scenario.proposed_unlisted = Err InsufficientApprovals.
Proof.
  rewrite (C8_unlisted_target_never_executes no_call
             (mkMsg Scenario.stranger Scenario.t0) Scenario.unlisted_id
             Scenario.proposed_unlisted); by_compute.
Defined.

(** C8, counterexample.  The scenario's action aimed at the unlisted
    target exists, has no approvals yet, and [executeAction] reverts with
    [InsufficientApprovals], not [UnauthorizedStrategy]. *)
Lemma C8_counterexample :
  let a := pendingActions Scenario.proposed_unlisted Scenario.unlisted_id in
  proposedAt a <> 0 /\ target a <> 0 /\
  approvedStrategies Scenario.proposed_unlisted (target a) = false /\
  transact (mkTx Scenario.stranger Scenario.t0
              (call_executeAction Scenario.unlisted_id) accepts)
    Scenario.proposed_unlisted = Err InsufficientApprovals /\
  InsufficientApprovals <> UnauthorizedStrategy.
Proof. by_compute. Qed.

(** ** Deposits *)

(** A non-zero native deposit into an unlocked, unpaused vault is credited. *)
Lemma depositBNB_credits (msg : Msg) (v : uint256) (s : State) :
  locked s = false -> paused s = false -> v <> 0 ->
  exists s',
    depositBNB msg v s = Ok tt s' /\
    assetBalances s' 0 = wrap (assetBalances s 0 + v).
Proof.
  intros Hl Hp Hv. unfold depositBNB. unfold_monad. vsimpl. rewrite Hl. vsimpl.
  rewrite Hp, (proj2 (Z.eqb_neq _ _) Hv). vsimpl.
  eexists. split; [ reflexivity | ]. vsimpl. apply fn_lookup_insert.
Qed.

(** C9 (as the code has it).  [deposit] and [depositBNB] revert on a zero
    amount and change nothing; the error is the contract's
    [InsufficientBalance] (or that of the reentrancy or pause guard, which
    come first).  Either function returns only for a non-zero amount. *)
Theorem C9_zero_deposit_rejected (call : ExternalCall) (msg : Msg)
    (token : address) (s : State) :
  deposit call msg token 0 s = Err (zero_deposit_error s) /\
  depositBNB msg 0 s = Err (zero_deposit_error s) /\
  commit s (deposit call msg token 0 s) = s /\
  commit s (depositBNB msg 0 s) = s /\
  (forall a s', deposit call msg token a s = Ok tt s' -> a <> 0) /\
  (forall v s', depositBNB msg v s = Ok tt s' -> v <> 0).
Proof.
  assert (H1 : deposit call msg token 0 s = Err (zero_deposit_error s)).
  { unfold deposit, zero_deposit_error. unfold_monad.
    destruct (locked s); vsimpl; [ reflexivity | ].
    destruct (paused s); reflexivity. }
  assert (H2 : depositBNB msg 0 s = Err (zero_deposit_error s)).
  { unfold depositBNB, zero_deposit_error. unfold_monad. vsimpl.
    destruct (locked s); vsimpl; [ reflexivity | ].
    destruct (paused s); reflexivity. }
  repeat split.
  - exact H1.
  - exact H2.
  - rewrite H1. reflexivity.
  - rewrite H2. reflexivity.
  - intros a s' H ->. rewrite H1 in H. discriminate H.
  - intros v s' H ->. rewrite H2 in H. discriminate H.
Qed.

(** A native deposit of 0 into the freshly deployed vault. *)
Lemma C9_zero_deposit_rejected_witness :
  depositBNB (mkMsg Scenario.owner1 Scenario.t0) 0 Scenario.deployed
  = Err InsufficientBalance.
Proof.
  rewrite (proj1 (proj2 (C9_zero_deposit_rejected no_call
             (mkMsg Scenario.owner1 Scenario.t0) 0 Scenario.deployed))).
  vm_compute. reflexivity.
Defined.

(** C9, counterexample.  Depositing 0 into the freshly deployed vault,
    natively or as a token, reverts with the contract's
    [InsufficientBalance]; the spec knows that error under the same name,
    and it is not [InvalidAmount]. *)
Lemma C9_counterexample :
  depositBNB (mkMsg Scenario.owner1 Scenario.t0) 0 Scenario.deployed
    = Err InsufficientBalance /\
  deposit (run_callee Scenario.t0 accepts) (mkMsg Scenario.owner1 Scenario.t0)
    Scenario.tokenA 0 Scenario.deployed = Err InsufficientBalance /\
  spec_error InsufficientBalance = Some SpecError.InsufficientBalance /\
  spec_error InsufficientBalance <> Some SpecError.InvalidAmount.
Proof. by_compute. Qed.

(** The plain-transfer entry point has no such check: a transfer of 0 is
    accepted and logged as a deposit of 0. *)
Remark receive_accepts_zero (msg : Msg) (s : State) :
  exists s',
    receive msg 0 s = Ok tt s' /\
    assetBalances s' 0 = wrap (assetBalances s 0) /\
    logs s' = logs s ++ [Deposit 0 0 (sender msg)].
Proof.
  unfold receive. unfold_monad. eexists. split; [ reflexivity | ]. vsimpl.
  rewrite fn_lookup_insert, Z.add_0_r. split; reflexivity.
Qed.

(** ** The unchecked debit *)

Lemma executeAction_never_InsufficientBalance (call : ExternalCall) (msg : Msg)
    (id : bytes32) (s : State) :
  (forall t v d st, call t v d st <> Err InsufficientBalance) ->
  executeAction call msg id s <> Err InsufficientBalance.
Proof.
  intros Hcall H. unfold executeAction in H. unfold_monad. vsimpl_all.
  split_call; try discriminate H.
  inversion H; subst.
  match goal with E : call _ _ _ _ = Err _ |- _ => exact (Hcall _ _ _ _ E) end.
Qed.

(** C10.  [executeAction] never reverts with [InsufficientBalance].  When
    an executable action forwards more than the tracked native balance and
    the target accepts the call, the execution goes through and the unchecked
    subtraction leaves the tracked balance at [2^256] minus the deficit. *)
Theorem C10_unchecked_debit_wraps (s : State) (tx : Tx) (id : bytes32) :
  tx_call tx = call_executeAction id ->
  transact tx s <> Err InsufficientBalance /\
  (locked s = false -> paused s = false ->
   executable s (tx_timestamp tx) id ->
   tx_callee tx = accepts ->
   let v := value (pendingActions s id) in
   let bal := assetBalances s 0 in
   0 <= bal -> bal < v -> v < UINT256_MODULUS -> v <= nativeHeld s ->
   transact tx s = Ok tt (step s tx) /\
   assetBalances (step s tx) 0 = UINT256_MODULUS - (v - bal) /\
   executed (pendingActions (step s tx) id) = true).
Proof.
  intros Hc. split.
  { unfold transact. rewrite Hc. cbn [dispatch].
    apply executeAction_never_InsufficientBalance.
    intros t v d st. unfold run_callee. destruct (succeeds _); discriminate. }
  intros Hl Hp Hex Hk v bal Hb0 Hlt Hv Hheld.
  assert (E : transact tx s
              = after_call id
                  (Ok true (set_nativeHeld (fun h => h - v)
                              (forwarding_state s id)))).
  { unfold transact. rewrite Hc. cbn [dispatch].
    rewrite executeAction_forward by assumption. rewrite Hk.
    rewrite low_level_call_accepted by exact Hheld. reflexivity. }
  unfold after_call, forwarding_state in E. vsimpl_in E.
  rewrite fn_lookup_insert in E. vsimpl_in E. fold v in E.
  replace (0 <? v) with true in E by (symmetry; apply Z.ltb_lt; lia).
  unfold step. rewrite E. vsimpl.
  split; [ reflexivity | ]. split.
  - rewrite fn_lookup_insert. unfold wrap. fold bal. clearbody v bal.
    rewrite <- (Z.mod_add _ 1) by (unfold UINT256_MODULUS; lia).
    rewrite Z.mod_small; lia.
  - rewrite fn_lookup_insert. reflexivity.
Qed.

(** The approved 20-BNB action of the scenario, executed a day later after
    an owner has withdrawn the whole 100 BNB and 20 untracked BNB have
    reached the vault: from this reachable state the tracked balance ends at
    [2^256 - 20 * 10^18]. *)
Lemma C10_unchecked_debit_wraps_witness :
  reachable Scenario.drained /\
  transact Scenario.execute_large_later Scenario.drained
    = Ok tt (step Scenario.drained Scenario.execute_large_later) /\
  assetBalances (step Scenario.drained Scenario.execute_large_later) 0
    = UINT256_MODULUS - Scenario.ether 20.
Proof.
  split; [ apply scenario_reachable | ].
  destruct (C10_unchecked_debit_wraps Scenario.drained
              Scenario.execute_large_later Scenario.large_id eq_refl)
    as (_ & H).
  destruct H as (H1 & H2 & _).
  - by_compute.
  - by_compute.
  - by_compute. right. reflexivity.
  - reflexivity.
  - by_compute.
  - by_compute.
  - by_compute.
  - by_compute.
  - split; [ exact H1 | ]. rewrite H2. vm_compute. reflexivity.
Defined.

(** Without the untracked 20 BNB the vault has nothing to forward: the
    execution reverts, with [CallFailed]. *)
Remark withdrawn_vault_cannot_forward :
  nativeHeld Scenario.withdrawn = 0 /\
  assetBalances Scenario.withdrawn 0 = 0 /\
  outcome (transact Scenario.execute_large_later Scenario.withdrawn)
  = Some CallFailed.
Proof. by_compute. Qed.

(** ** Executing once *)

(** C2 (as the code has it).  After a successful [executeAction id], and
    for as long as no transaction (nor a call-back made during one) proposes
    the same identifier again, the action stays marked executed and every
    further [executeAction id] reverts and changes nothing: with
    [ActionAlreadyExecuted] while the vault is not paused, with
    [EnforcedPause] while it is. *)
Theorem C2_executed_stays_executed (s : State) (tx : Tx) (id : bytes32)
    (later : list Tx) :
  tx_call tx = call_executeAction id ->
  outcome (transact tx s) = None ->
  ~ reproposes tx id ->
  Forall (fun t => ~ reproposes t id) later ->
  let s2 := run later (step s tx) in
  consumed s2 id /\
  forall tx', tx_call tx' = call_executeAction id ->
    transact tx' s2
      = Err (if paused s2 then EnforcedPause else ActionAlreadyExecuted) /\
    step s2 tx' = s2.
Proof.
  intros Hc Hok Hnp Hlater s2.
  apply transact_returns in Hok.
  assert (Hl1 : locked (step s tx) = false).
  { rewrite step_locked. unfold transact in Hok. rewrite Hc in Hok.
    cbn [dispatch] in Hok. unfold executeAction, nonReentrant in Hok.
    destruct (locked s); [ discriminate | reflexivity ]. }
  assert (Hc1 : consumed (step s tx) id).
  { unfold transact in Hok. rewrite Hc in Hok. cbn [dispatch] in Hok.
    refine (executeAction_consumes _ _ _ _ _ _ Hok).
    apply run_callee_keeps_consumed. intros H. apply Hnp. right. exact H. }
  assert (Hc2 : consumed s2 id) by (apply run_consumed; assumption).
  assert (Hl2 : locked s2 = false) by (unfold s2; rewrite run_locked; exact Hl1).
  split; [ exact Hc2 | ]. intros tx' Hc'.
  assert (E : transact tx' s2
              = Err (if paused s2 then EnforcedPause else ActionAlreadyExecuted)).
  { unfold transact. rewrite Hc'. cbn [dispatch].
    apply executeAction_check_fails. unfold executeAction_check.
    destruct Hc2 as [He Hp]. rewrite Hl2, He, (proj2 (Z.eqb_neq _ _) Hp).
    destruct (paused s2); reflexivity. }
  split; [ exact E | ]. unfold step. rewrite E. reflexivity.
Qed.

(** The scenario's 5-BNB action, executed; then the vault is paused. *)
Lemma C2_executed_stays_executed_witness :
  transact (Scenario.execute_small accepts) Scenario.paused_after
  = Err EnforcedPause.
Proof.
  unfold Scenario.paused_after, Scenario.executed_small.
  destruct (C2_executed_stays_executed Scenario.approved_small
              (Scenario.execute_small accepts) Scenario.small_id
              [Scenario.pause_tx]) as [_ H].
  - reflexivity.
  - by_compute.
  - intros [H|H]; [ exact H | inversion H ].
  - constructor; [ | constructor ]. intros [H|H]; [ exact H | inversion H ].
  - destruct (H (Scenario.execute_small accepts) eq_refl) as [E _].
    rewrite E. vm_compute. reflexivity.
Defined.

(** C2, counterexample.  The 5-BNB action has been executed and an owner
    has paused the vault: the next [executeAction] on it reverts with
    [EnforcedPause], which is not the spec's [AlreadyExecuted]. *)
Lemma C2_counterexample :
  reachable Scenario.paused_after /\
  consumed Scenario.paused_after Scenario.small_id /\
  transact (Scenario.execute_small accepts) Scenario.paused_after
    = Err EnforcedPause /\
  spec_error EnforcedPause <> Some SpecError.AlreadyExecuted.
Proof.
  split; [ | by_compute ].
  apply reachable_run, reachable_step, scenario_reachable.
Qed.

(** ** Approving once *)

Lemma approveAction_records (msg : Msg) (id : bytes32) (s s1 : State) :
  approveAction msg id s = Ok tt s1 ->
  actionApprovals s1 id (sender msg) = true /\
  approvals (pendingActions s1 id) = wrap (approvals (pendingActions s id) + 1).
Proof.
  intros H. run_call H. rewrite !fn_lookup_insert. split; reflexivity.
Qed.

Lemma approveAction_already (msg : Msg) (id : bytes32) (s : State) :
  roles s OWNER_ROLE (sender msg) = true ->
  proposedAt (pendingActions s id) <> 0 ->
  executed (pendingActions s id) = false ->
  actionApprovals s id (sender msg) = true ->
  approveAction msg id s = Err AlreadyApproved.
Proof.
  intros Hr Hex Hne Hap. unfold approveAction. unfold_monad. vsimpl.
  rewrite Hr. vsimpl. rewrite (proj2 (Z.eqb_neq _ _) Hex), Hne. vsimpl.
  rewrite Hap. reflexivity.
Qed.

(** C5.  Once an owner's [approveAction] on an action has gone through,
    raising the count by one, every later [approveAction] by the same
    identity on the same action, at whatever later point it still holds the
    owner role and the action exists and is not executed, reverts with
    [AlreadyApproved] and leaves the storage, hence the approval count and
    the approval records, as they were. *)
Theorem C5_single_approval (s : State) (msg : Msg) (id : bytes32)
    (later : list Tx) (now' : uint256) :
  outcome (approveAction msg id s) = None ->
  let s1 := commit s (approveAction msg id s) in
  let s2 := run later s1 in
  roles s2 OWNER_ROLE (sender msg) = true ->
  proposedAt (pendingActions s2 id) <> 0 ->
  executed (pendingActions s2 id) = false ->
  approvals (pendingActions s1 id) = wrap (approvals (pendingActions s id) + 1) /\
  approveAction (mkMsg (sender msg) now') id s2 = Err AlreadyApproved /\
  commit s2 (approveAction (mkMsg (sender msg) now') id s2) = s2.
Proof.
  intros Hok s1 s2 Hr Hex Hne.
  assert (E1 : approveAction msg id s = Ok tt s1).
  { unfold s1. destruct (approveAction msg id s) as [[] s'|e];
      [ reflexivity | discriminate ]. }
  destruct (approveAction_records _ _ _ _ E1) as [Hflag Hcount].
  assert (E2 : approveAction (mkMsg (sender msg) now') id s2 = Err AlreadyApproved).
  { apply approveAction_already; try assumption.
    apply (run_approvals_grow later s1). exact Hflag. }
  split; [ exact Hcount | ]. split; [ exact E2 | ]. rewrite E2. reflexivity.
Qed.

(** [owner1] approves the 5-BNB action, [owner2] approves it too, and
    [owner1] tries again. *)
Lemma C5_single_approval_witness :
  let msg := mkMsg Scenario.owner1 Scenario.t0 in
  let s1 := commit Scenario.proposed_small
              (approveAction msg Scenario.small_id Scenario.proposed_small) in
  let s2 := run [mkTx Scenario.owner2 Scenario.t0
                   (call_approveAction Scenario.small_id) accepts] s1 in
  approveAction msg Scenario.small_id s2 = Err AlreadyApproved.
Proof.
  cbv zeta.
  destruct (C5_single_approval Scenario.proposed_small
              (mkMsg Scenario.owner1 Scenario.t0) Scenario.small_id
              [mkTx Scenario.owner2 Scenario.t0
                 (call_approveAction Scenario.small_id) accepts]
              Scenario.t0) as (_ & H & _); [ by_compute .. | ].
  cbn [sender] in H. exact H.
Defined.

(** ** Identifiers and the action store *)

(** C6, at the failing input.  The scenario's 5-BNB action has been
    approved twice and executed.  The proposer submits the same proposal
    again in the same block: [proposeAction] returns the same identifier and
    accepts, and the stored record is overwritten, with the approval count
    back at 0 and the executed flag cleared.  After two owners that had not
    approved before approve it, the action is executed a second time: the
    log holds two [ActionExecuted] events for the one identifier and 10 BNB
    have left the ledger. *)
Theorem C6_reproposal_overwrites :
  proposes (tx_msg Scenario.propose_small) (tx_call Scenario.propose_small)
    Scenario.small_id /\
  consumed Scenario.executed_small Scenario.small_id /\
  approvals (pendingActions Scenario.executed_small Scenario.small_id) = 2 /\
  outcome (transact Scenario.propose_small Scenario.executed_small) = None /\
  executed (pendingActions Scenario.reproposed Scenario.small_id) = false /\
  approvals (pendingActions Scenario.reproposed Scenario.small_id) = 0 /\
  count_executions Scenario.small_id (logs Scenario.executed_twice) = 2%nat /\
  assetBalances Scenario.executed_twice 0 = Scenario.ether 90.
Proof. by_compute. Qed.

(** ** Allocation *)

Lemma sumBalances_returns (assets : list address) (acc : uint256) (s s' : State)
    (t : uint256) :
  sumBalances assets acc s = Ok t s' ->
  s' = s /\ t = acc + sum_over (assetBalances s) assets.
Proof.
  revert acc. induction assets as [|a rest IH]; intros acc H.
  - inversion H; subst. cbn [sum_over fold_right]. split; [ reflexivity | lia ].
  - cbn [sumBalances] in H. unfold_monad.
    destruct (acc + assetBalances s a <? UINT256_MODULUS); [ | discriminate ].
    apply IH in H. destruct H as [-> ->]. split; [ reflexivity | ].
    unfold sum_over. cbn [fold_right]. lia.
Qed.

Lemma allocationItems_returns (assets : list address) (totalBalance : uint256)
    (s s' : State) (items : list AllocationItem) :
  allocationItems assets totalBalance s = Ok items s' ->
  s' = s /\ items = map (allocation_item s totalBalance) assets.
Proof.
  revert s' items. induction assets as [|a rest IH]; intros s' items H.
  - inversion H; subst. split; reflexivity.
  - cbn [allocationItems] in H. unfold_monad.
    assert (Hgo : forall pct,
              pct = percentage (allocation_item s totalBalance a) ->
              match allocationItems rest totalBalance s with
              | Ok items0 s0 =>
                  Ok ({| asset := a; amount := assetBalances s a;
                         percentage := pct; valueUSD := 0 |} :: items0) s0
              | Err e => Err e
              end = Ok items s' ->
              s' = s /\ items = map (allocation_item s totalBalance) (a :: rest)).
    { intros pct -> H'.
      destruct (allocationItems rest totalBalance s) as [items' s''|e] eqn:E;
        [ | discriminate ].
      destruct (IH _ _ eq_refl) as [-> ->]. inversion H'; subst.
      split; reflexivity. }
    destruct (0 <? totalBalance) eqn:Ht.
    + destruct (assetBalances s a * 10000 <? UINT256_MODULUS); [ | discriminate ].
      destruct (totalBalance =? 0); [ discriminate | ].
      apply (Hgo _ ltac:(cbn [allocation_item percentage]; rewrite Ht; reflexivity) H).
    + apply (Hgo _ ltac:(cbn [allocation_item percentage]; rewrite Ht; reflexivity) H).
Qed.

Lemma sumBalances_no_division (assets : list address) (acc : uint256) (s : State) :
  sumBalances assets acc s <> Err (Panic 18).
Proof.
  revert acc. induction assets as [|a rest IH]; intros acc; [ discriminate | ].
  cbn [sumBalances]. unfold_monad.
  destruct (acc + assetBalances s a <? UINT256_MODULUS); [ apply IH | discriminate ].
Qed.

Lemma allocationItems_no_division_by_zero (assets : list address)
    (totalBalance : uint256) (s : State) :
  allocationItems assets totalBalance s <> Err (Panic 18).
Proof.
  induction assets as [|a rest IH]; [ discriminate | ].
  cbn [allocationItems]. unfold_monad.
  destruct (0 <? totalBalance) eqn:Ht.
  - destruct (assetBalances s a * 10000 <? UINT256_MODULUS); [ | discriminate ].
    replace (totalBalance =? 0) with false
      by (symmetry; apply Z.eqb_neq; apply Z.ltb_lt in Ht; lia).
    destruct (allocationItems rest totalBalance s) as [items' s''|e];
      [ discriminate | exact IH ].
  - destruct (allocationItems rest totalBalance s) as [items' s''|e];
      [ discriminate | exact IH ].
Qed.

Lemma percentage_sum_items (s : State) (totalBalance : uint256)
    (assets : list address) :
  percentage_sum (map (allocation_item s totalBalance) assets)
  = sum_over (fun a => percentage (allocation_item s totalBalance a)) assets.
Proof.
  induction assets as [|a rest IH]; [ reflexivity | ].
  unfold percentage_sum, sum_over in *. cbn [map fold_right]. rewrite IH.
  reflexivity.
Qed.

Lemma sum_over_nonneg (bal : address -> Z) (l : list address) :
  Forall (fun a => 0 <= bal a) l -> 0 <= sum_over bal l.
Proof.
  induction 1 as [|a l Ha _ IH]; unfold sum_over in *; cbn [fold_right]; lia.
Qed.

Lemma sum_over_bounds (bal : address -> Z) (l : list address) :
  Forall (fun a => 0 <= bal a) l ->
  Forall (fun a => bal a <= sum_over bal l) l.
Proof.
  induction 1 as [|a l Ha Hl IH]; constructor.
  - pose proof (sum_over_nonneg bal l Hl). unfold sum_over in *.
    cbn [fold_right]. lia.
  - refine (Forall_impl _ _ _ IH _). intros b Hb. unfold sum_over in *.
    cbn [fold_right]. lia.
Qed.

(** Rounding every share down loses less than one basis point per asset. *)
Lemma floor_shares (bal : address -> Z) (T : Z) (assets : list address) :
  0 < T -> Forall (fun a => 0 <= bal a) assets ->
  let q := sum_over (fun a => bal a * 10000 / T) assets in
  T * q <= 10000 * sum_over bal assets /\
  10000 * sum_over bal assets <= T * q + Z.of_nat (length assets) * (T - 1).
Proof.
  intros HT Hbal. cbv zeta. induction Hbal as [|a rest Ha _ IH].
  - cbn [sum_over fold_right length]. lia.
  - unfold sum_over in *. cbn [fold_right length].
    pose proof (Z.div_mod (bal a * 10000) T ltac:(lia)) as Hdm.
    pose proof (Z.mod_pos_bound (bal a * 10000) T HT) as Hmod.
    set (q := bal a * 10000 / T) in *.
    set (r := (bal a * 10000) mod T) in *.
    rewrite Nat2Z.inj_succ. nia.
Qed.

(** With non-negative balances that are small enough the view returns. *)
Lemma getAllocation_returns (s : State) :
  Forall (fun a => 0 <= assetBalances s a) (supportedAssets s) ->
  10000 * total_balance s < UINT256_MODULUS ->
  getAllocation s
  = Ok (map (allocation_item s (total_balance s)) (supportedAssets s)) s.
Proof.
  intros Hbal Hsmall. unfold getAllocation, total_balance in *. unfold_monad.
  assert (Hsum : forall l acc,
             Forall (fun a => 0 <= assetBalances s a) l ->
             0 <= acc -> acc + sum_over (assetBalances s) l < UINT256_MODULUS ->
             sumBalances l acc s = Ok (acc + sum_over (assetBalances s) l) s).
  { intros l acc Hl. revert acc.
    induction Hl as [|a l Ha Hl IH]; intros acc Hacc Hlt.
    - cbn [sumBalances sum_over fold_right]. unfold ret. f_equal. lia.
    - cbn [sumBalances]. unfold_monad.
      unfold sum_over in Hlt. cbn [fold_right] in Hlt.
      fold (sum_over (assetBalances s) l) in Hlt.
      pose proof (sum_over_nonneg _ _ Hl) as Hnn.
      replace (acc + assetBalances s a <? UINT256_MODULUS) with true
        by (symmetry; apply Z.ltb_lt; lia).
      rewrite IH by lia. f_equal.
      unfold sum_over. cbn [fold_right]. lia. }
  pose proof (sum_over_nonneg _ _ Hbal) as HT0.
  pose proof (sum_over_bounds _ _ Hbal) as Hle.
  set (T := sum_over (assetBalances s) (supportedAssets s)) in *.
  rewrite (Hsum (supportedAssets s) 0 Hbal) by (fold T; lia).
  fold T. rewrite Z.add_0_l.
  assert (Hitems : forall l,
             Forall (fun a => assetBalances s a <= T) l ->
             allocationItems l T s = Ok (map (allocation_item s T) l) s).
  { induction 1 as [|a l Ha _ IH]; [ reflexivity | ].
    cbn [allocationItems map]. unfold_monad. cbn beta.
    unfold allocation_item at 1.
    destruct (0 <? T) eqn:HT.
    - apply Z.ltb_lt in HT.
      replace (assetBalances s a * 10000 <? UINT256_MODULUS) with true
        by (symmetry; apply Z.ltb_lt; lia).
      replace (T =? 0) with false by (symmetry; apply Z.eqb_neq; lia).
      cbn beta iota. rewrite IH. reflexivity.
    - cbn beta iota. rewrite IH. reflexivity. }
  apply Hitems. exact Hle.
Qed.

Lemma sum_over_ext (f g : address -> Z) (l : list address) :
  (forall a, f a = g a) -> sum_over f l = sum_over g l.
Proof.
  intros H. unfold sum_over. induction l as [|a l IH]; [ reflexivity | ].
  cbn [fold_right]. rewrite IH, H. reflexivity.
Qed.

Lemma Forall_map_all {A B : Type} (P : B -> Prop) (f : A -> B) (l : list A) :
  (forall a, P (f a)) -> Forall P (map f l).
Proof.
  intros H. induction l as [|a l IH]; cbn [map]; constructor; auto.
Qed.

(** C7 (as the code has it).  [getAllocation] never divides by zero, in
    any state.  When it returns (it reverts if the sum of the balances or a
    balance times 10,000 overflows) it changes nothing and lists one item per
    registered asset, in order.  With a positive total every percentage is the share in
    basis points rounded down, so the percentages add up to at most 10,000
    and to more than 10,000 minus the number of registered assets; with a
    total of 0 every percentage is 0. *)
Theorem C7_allocation_percentages (s : State) :
  getAllocation s <> Err (Panic 18) /\
  forall (items : list AllocationItem) (s' : State),
    Forall (fun a => 0 <= assetBalances s a) (supportedAssets s) ->
    getAllocation s = Ok items s' ->
    s' = s /\
    map asset items = supportedAssets s /\
    (0 < total_balance s ->
       Forall (fun it => percentage it
                         = assetBalances s (asset it) * 10000 / total_balance s)
         items /\
       10000 - Z.of_nat (length (supportedAssets s)) < percentage_sum items
         <= 10000) /\
    (total_balance s = 0 -> Forall (fun it => percentage it = 0) items).
Proof.
  split.
  { unfold getAllocation. unfold_monad.
    destruct (sumBalances (supportedAssets s) 0 s) as [T s1|e] eqn:E1.
    - apply sumBalances_returns in E1. destruct E1 as [-> _].
      apply allocationItems_no_division_by_zero.
    - intros H. inversion H; subst.
      exact (sumBalances_no_division _ _ _ E1). }
  intros items s' Hbal H.
  unfold getAllocation in H. unfold_monad.
  destruct (sumBalances (supportedAssets s) 0 s) as [T s1|e] eqn:E1;
    [ | discriminate ].
  apply sumBalances_returns in E1. destruct E1 as [-> ET].
  rewrite Z.add_0_l in ET. fold (total_balance s) in ET. subst T.
  apply allocationItems_returns in H. destruct H as [-> ->].
  split; [ reflexivity | ]. split.
  { rewrite map_map. cbn [allocation_item asset]. apply map_id. }
  split.
  - intros HT. split.
    + apply Forall_map_all. intros a. cbn [allocation_item percentage asset].
      replace (0 <? total_balance s) with true
        by (symmetry; apply Z.ltb_lt; exact HT).
      reflexivity.
    + rewrite percentage_sum_items.
      pose proof (floor_shares (assetBalances s) (total_balance s)
                    (supportedAssets s) HT Hbal) as [Hlo Hhi].
      cbv zeta in Hlo, Hhi.
      rewrite (sum_over_ext _ (fun a => assetBalances s a * 10000 / total_balance s))
        by (intros a; cbn [allocation_item percentage];
            replace (0 <? total_balance s) with true
              by (symmetry; apply Z.ltb_lt; exact HT);
            reflexivity).
      fold (total_balance s) in Hlo, Hhi.
      assert (Hn : 1 <= Z.of_nat (length (supportedAssets s))).
      { unfold total_balance in HT. destruct (supportedAssets s);
          [ cbn in HT; lia | cbn [length]; lia ]. }
      set (q := sum_over _ _) in *. set (T := total_balance s) in *.
      set (n := Z.of_nat (length (supportedAssets s))) in *.
      clearbody q T n. split.
      * apply (Z.mul_lt_mono_pos_l T); [ exact HT | nia ].
      * apply (Z.mul_le_mono_pos_l _ _ T); [ exact HT | lia ].
  - intros H0. apply Forall_map_all. intros a.
    cbn [allocation_item percentage]. rewrite H0. reflexivity.
Qed.

(** The three assets of the scenario, one unit each: 3,333 basis points
    apiece. *)
Lemma C7_allocation_percentages_witness :
  map percentage
    (map (allocation_item Scenario.thirds (total_balance Scenario.thirds))
       (supportedAssets Scenario.thirds)) = [3333; 3333; 3333] /\
  10000 - 3 < percentage_sum
    (map (allocation_item Scenario.thirds (total_balance Scenario.thirds))
       (supportedAssets Scenario.thirds)) <= 10000.
Proof.
  assert (Hbal : Forall (fun a => 0 <= assetBalances Scenario.thirds a)
                   (supportedAssets Scenario.thirds)).
  { vm_compute. repeat constructor; discriminate. }
  destruct (C7_allocation_percentages Scenario.thirds) as [_ Hall].
  destruct (Hall (map (allocation_item Scenario.thirds (total_balance Scenario.thirds))
                    (supportedAssets Scenario.thirds)) Scenario.thirds Hbal)
    as (_ & _ & H & _).
  - apply getAllocation_returns; [ exact Hbal | by_compute ].
  - split; [ by_compute | ].
    destruct H as [_ H]; [ by_compute | ]. exact H.
Defined.

(** C7, counterexample.  With three registered assets holding one unit
    each, the total is 3 and [getAllocation] reports 3,333 basis points for
    each: 9,999 in all, not 10,000. *)
Lemma C7_counterexample :
  reachable Scenario.thirds /\
  total_balance Scenario.thirds = 3 /\
  percentage_sum (map (allocation_item Scenario.thirds 3)
                    (supportedAssets Scenario.thirds)) = 9999 /\
  getAllocation Scenario.thirds
  = Ok (map (allocation_item Scenario.thirds 3) (supportedAssets Scenario.thirds))
      Scenario.thirds.
Proof.
  split; [ apply scenario_reachable | ].
  split; [ by_compute | ]. split; [ by_compute | ].
  assert (Hbal : Forall (fun a => 0 <= assetBalances Scenario.thirds a)
                   (supportedAssets Scenario.thirds)).
  { vm_compute. repeat constructor; discriminate. }
  rewrite (getAllocation_returns Scenario.thirds Hbal) by by_compute.
  replace (total_balance Scenario.thirds) with 3 by by_compute.
  reflexivity.
Qed.

(** ** Identifiers are injective in the proposal *)

Lemma be_bytes_S (n : nat) (x : Z) :
  be_bytes (S n) x = be_bytes n (x / 256) ++ [x mod 256].
Proof. reflexivity. Qed.

Lemma be_bytes_length (n : nat) (x : Z) : length (be_bytes n x) = n.
Proof.
  revert x. induction n as [|n IH]; intros x; [ reflexivity | ].
  rewrite be_bytes_S, length_app, IH. cbn [length]. lia.
Qed.

Lemma be_bytes_inj (n : nat) (x y : Z) :
  0 <= x < 256 ^ Z.of_nat n -> 0 <= y < 256 ^ Z.of_nat n ->
  be_bytes n x = be_bytes n y -> x = y.
Proof.
  revert x y. induction n as [|n IH]; intros x y Hx Hy H.
  - change (256 ^ Z.of_nat 0) with 1 in *. lia.
  - rewrite !be_bytes_S in H. apply app_inj_tail in H. destruct H as [Hhi Hlo].
    rewrite Nat2Z.inj_succ, Z.pow_succ_r in Hx, Hy by lia.
    assert (Hq : x / 256 = y / 256).
    { apply IH; [ | | exact Hhi ]; split;
        try (apply Z.div_pos; lia); apply Z.div_lt_upper_bound; lia. }
    inversion Hlo as [Hr].
    rewrite (Z.div_mod x 256), (Z.div_mod y 256) by lia. rewrite Hq, Hr.
    reflexivity.
Qed.

Lemma keccak256_inj (a b : bytes) : keccak256 a = keccak256 b -> a = b.
Proof. intros H. injection H as H. exact H. Qed.

(** With a single dynamic argument the packed encoding is unambiguous. *)
Lemma encodePacked_inj (t t' : address) (d d' : bytes) (v v' ts ts' : uint256)
    (p p' : address) :
  is_address t -> is_address t' -> is_uint256 v -> is_uint256 v' ->
  is_uint256 ts -> is_uint256 ts' -> is_address p -> is_address p' ->
  encodePacked t d v ts p = encodePacked t' d' v' ts' p' ->
  t = t' /\ d = d' /\ v = v' /\ ts = ts' /\ p = p'.
Proof.
  unfold is_address, is_uint256, encodePacked.
  intros Ht Ht' Hv Hv' Hts Hts' Hp Hp' H.
  apply app_inj_1 in H; [ | rewrite !be_bytes_length; reflexivity ].
  destruct H as [H1 H].
  apply app_inj_2 in H; [ | rewrite !length_app, !be_bytes_length; reflexivity ].
  destruct H as [H2 H].
  apply app_inj_1 in H; [ | rewrite !be_bytes_length; reflexivity ].
  destruct H as [H3 H].
  apply app_inj_1 in H; [ | rewrite !be_bytes_length; reflexivity ].
  destruct H as [H4 H5].
  apply (be_bytes_inj 20) in H1, H5; try assumption.
  apply (be_bytes_inj 32) in H3, H4; try assumption.
  repeat split; assumption.
Qed.

(** The identifier [proposeAction] returns is the digest of the packed
    proposal; two accepted proposals get the same identifier exactly when
    target, calldata, value, block time and proposer all coincide. *)
Lemma proposal_identifier (msg msg' : Msg) (t t' : address) (d d' : bytes)
    (v v' : uint256) (ty ty' : ActionType) (s s1 s' s1' : State)
    (id id' : bytes32) :
  is_address t -> is_address t' -> is_uint256 v -> is_uint256 v' ->
  is_uint256 (timestamp msg) -> is_uint256 (timestamp msg') ->
  is_address (sender msg) -> is_address (sender msg') ->
  proposeAction msg t d v ty s = Ok id s1 ->
  proposeAction msg' t' d' v' ty' s' = Ok id' s1' ->
  id = keccak256 (encodePacked t d v (timestamp msg) (sender msg)) /\
  (id = id' <->
   t = t' /\ d = d' /\ v = v' /\ timestamp msg = timestamp msg' /\
   sender msg = sender msg').
Proof.
  intros Ht Ht' Hv Hv' Hts Hts' Hp Hp' H H'.
  assert (Hid : forall m a b c e st st1 i,
            proposeAction m a b c e st = Ok i st1 ->
            i = keccak256 (encodePacked a b c (timestamp m) (sender m))).
  { clear. intros m a b c e st st1 i H. unfold proposeAction in H.
    unfold_monad. vsimpl_in H. split_call; try discriminate H.
    all: inversion H; reflexivity. }
  apply Hid in H, H'. subst id id'. split; [ reflexivity | ]. split.
  - intros E. apply keccak256_inj in E. apply encodePacked_inj in E; assumption.
  - intros (-> & -> & -> & -> & ->). reflexivity.
Qed.

(** A transaction in another block cannot propose an identifier again. *)
Lemma other_block_cannot_propose (msg : Msg) (c : Call) (t : address) (d : bytes)
    (v ts : uint256) (p : address) :
  is_uint256 ts -> is_uint256 (timestamp msg) -> timestamp msg <> ts ->
  ~ proposes msg c (keccak256 (encodePacked t d v ts p)).
Proof.
  intros Hts Hnow Hne H. destruct c; cbn [proposes] in H; try exact H.
  apply keccak256_inj in H. rename H into E. unfold encodePacked in E.
  rewrite !app_assoc in E.
  apply app_inj_2 in E; [ | rewrite !be_bytes_length; reflexivity ].
  destruct E as [E _].
  apply app_inj_2 in E; [ | rewrite !be_bytes_length; reflexivity ].
  destruct E as [_ E]. apply (be_bytes_inj 32) in E; [ | assumption .. ].
  exact (Hne E).
Qed.

(** Once the block of the proposal is past, nothing can propose the
    identifier again. *)
Lemma later_blocks_do_not_repropose (later : list Tx) (t : address) (d : bytes)
    (v ts : uint256) (p : address) :
  is_uint256 ts ->
  Forall (fun tx => is_uint256 (tx_timestamp tx) /\ tx_timestamp tx <> ts) later ->
  Forall (fun tx => ~ reproposes tx (keccak256 (encodePacked t d v ts p))) later.
Proof.
  intros Hts Hall. refine (Forall_impl _ _ _ Hall _).
  intros tx [Hnow Hne] [H|H].
  - revert H. apply other_block_cannot_propose; assumption.
  - unfold callee_proposes in H. apply Exists_exists in H.
    destruct H as (rc & _ & H). revert H.
    apply other_block_cannot_propose; assumption.
Qed.

(** * Further properties of the vault *)

(** ** Lifting a property of single calls to transactions and runs *)

Section Lifting.

Variable R : State -> State -> Prop.
Variable allowed : Msg -> Call -> Prop.

Hypothesis R_refl : forall s, R s s.
Hypothesis R_trans : forall s1 s2 s3, R s1 s2 -> R s2 s3 -> R s1 s3.

Hypothesis dispatch_respects :
  forall call msg c s s',
    allowed msg c -> call_respects R call ->
    dispatch call msg c s = Ok tt s' -> R s s'.

Lemma no_call_respects : call_respects R no_call.
Proof. intros t v d s b s' H. inversion H; subst. apply R_refl. Qed.

Lemma callbacks_respect (now : uint256) (rcs : list (address * Call))
    (s : State) :
  Forall (fun rc => allowed (mkMsg rc.1 now) rc.2) rcs ->
  R s (fold_left (reenter now) rcs s).
Proof.
  intros Hall. revert s. induction Hall as [|rc rcs Hrc _ IH]; intros s;
    [ apply R_refl | ].
  cbn [fold_left]. refine (R_trans _ _ _ _ (IH _)). unfold reenter.
  destruct (dispatch no_call (mkMsg rc.1 now) rc.2 s) as [[] s'|e] eqn:E;
    [ | apply R_refl ].
  exact (dispatch_respects _ _ _ _ _ Hrc no_call_respects E).
Qed.

Lemma run_callee_respects (now : uint256) (k : Callee) :
  Forall (fun rc => allowed (mkMsg rc.1 now) rc.2) (reentrant k) ->
  call_respects R (run_callee now k).
Proof.
  intros Hk t v d s b s' H. unfold run_callee in H.
  destruct (succeeds k); inversion H; subst;
    [ apply callbacks_respect; assumption | apply R_refl ].
Qed.

Lemma step_respects (s : State) (tx : Tx) :
  tx_allowed allowed tx -> R s (step s tx).
Proof.
  intros [Hc Hk]. unfold step, transact.
  destruct (dispatch _ _ _ s) as [[] s'|e] eqn:E; [ | apply R_refl ].
  exact (dispatch_respects _ _ _ _ _ Hc (run_callee_respects _ _ Hk) E).
Qed.

Lemma run_respects (txs : list Tx) (s : State) :
  Forall (tx_allowed allowed) txs -> R s (run txs s).
Proof.
  intros Hall. revert s. induction Hall as [|tx txs Htx _ IH]; intros s;
    [ apply R_refl | ].
  unfold run in *. cbn [fold_left].
  exact (R_trans _ _ _ (step_respects _ _ Htx) (IH _)).
Qed.

End Lifting.

Lemma every_tx_allowed (txs : list Tx) : Forall (tx_allowed any_call) txs.
Proof.
  induction txs as [|tx txs IH]; constructor; [ | exact IH ].
  split; [ exact I | ]. induction (reentrant (tx_callee tx)); constructor;
    [ exact I | assumption ].
Qed.

(** A relation every call respects holds along every run. *)
Lemma run_respects_any (R : State -> State -> Prop) :
  (forall s, R s s) -> (forall s1 s2 s3, R s1 s2 -> R s2 s3 -> R s1 s3) ->
  (forall call msg c s s',
     call_respects R call -> dispatch call msg c s = Ok tt s' -> R s s') ->
  forall txs s, R s (run txs s).
Proof.
  intros Hr Ht Hd txs s.
  apply (run_respects R any_call Hr Ht); [ | apply every_tx_allowed ].
  intros call m c s1 s2 _. apply Hd.
Qed.

(** An invariant of every call that holds after deployment holds in every
    reachable state. *)
Lemma invariant_reachable (P : State -> Prop) :
  (forall call msg c s s',
     call_respects (keeps P) call ->
     dispatch call msg c s = Ok tt s' -> P s -> P s') ->
  (forall msg owners threshold s0,
     constructor msg owners threshold emptyState = Ok tt s0 -> P s0) ->
  forall s, reachable s -> P s.
Proof.
  intros Hd H0 s (msg & owners & threshold & s0 & txs & Hc & ->).
  apply (run_respects_any (keeps P)); unfold keeps; eauto.
Qed.

(** ** Deployment *)

(** The owner loop grants [OWNER_ROLE] to the listed accounts and touches
    nothing but the roles and the log. *)
Lemma grantOwners_spec (deployer : address) (l : list address) (s : State) :
  exists s',
    grantOwners deployer l s = Ok tt s' /\
    (forall r a, roles s' r a
                 = roles s r a || (bool_decide (r = OWNER_ROLE) && bool_decide (a ∈ l))) /\
    set_logs (fun _ => []) (set_roles (fun _ => roles s) s')
    = set_logs (fun _ => []) s.
Proof.
  revert s. induction l as [|o l IH]; intros s.
  - exists s. split; [ reflexivity | ]. split.
    + intros r a. rewrite (bool_decide_eq_false_2 (a ∈ [])) by apply not_elem_of_nil.
      rewrite andb_false_r, orb_false_r. reflexivity.
    + destruct s; reflexivity.
  - cbn [grantOwners]. unfold _grantRole. unfold_monad.
    destruct (roles s OWNER_ROLE o) eqn:Ho.
    + destruct (IH s) as (s' & E & Hr & Hf). exists s'. split; [ exact E | ].
      split; [ | exact Hf ].
      intros r a. rewrite Hr.
      destruct (decide (r = OWNER_ROLE)) as [->|Hne].
      * rewrite !bool_decide_eq_true_2 by reflexivity. cbn [andb].
        destruct (decide (a = o)) as [->|Hao].
        -- rewrite Ho. reflexivity.
        -- destruct (decide (a ∈ l)) as [Hin|Hin].
           ++ rewrite !bool_decide_eq_true_2; [ reflexivity | | ]; try assumption.
              apply elem_of_cons. right. exact Hin.
           ++ rewrite !bool_decide_eq_false_2; [ reflexivity | | ]; try assumption.
              rewrite elem_of_cons. tauto.
      * rewrite !(bool_decide_eq_false_2 (r = OWNER_ROLE)) by assumption.
        reflexivity.
    + vsimpl.
      match goal with |- context [grantOwners deployer l ?s1] =>
        destruct (IH s1) as (s' & E & Hr & Hf) end.
      exists s'. split; [ exact E | ]. split.
      * intros r a. rewrite Hr. vsimpl.
        destruct (decide (r = OWNER_ROLE)) as [->|Hne].
        -- rewrite !bool_decide_eq_true_2 by reflexivity. cbn [andb].
           destruct (decide (a = o)) as [->|Hao].
           ++ rewrite (bool_decide_eq_true_2 (o ∈ o :: l)) by apply list_elem_of_here.
              rewrite !orb_true_r.
              replace (<[OWNER_ROLE:=<[o:=true]> (roles s OWNER_ROLE)]> (roles s)
                         OWNER_ROLE o) with true by fn_cases.
              reflexivity.
           ++ replace (<[OWNER_ROLE:=<[o:=true]> (roles s OWNER_ROLE)]> (roles s)
                         OWNER_ROLE a) with (roles s OWNER_ROLE a) by fn_cases.
              destruct (decide (a ∈ l)) as [Hin|Hin].
              ** rewrite !bool_decide_eq_true_2; [ reflexivity | | ];
                   try assumption.
                 apply elem_of_cons. right. exact Hin.
              ** rewrite !bool_decide_eq_false_2; [ reflexivity | | ];
                   try assumption.
                 rewrite elem_of_cons. tauto.
        -- rewrite !(bool_decide_eq_false_2 (r = OWNER_ROLE)) by assumption.
           cbn [andb]. f_equal. fn_cases.
      * destruct s, s'. unfold set_logs, set_roles in *. vsimpl_all.
        inversion Hf; subst. reflexivity.
Qed.

Lemma constructor_post (msg : Msg) (owners : list address)
    (threshold : uint256) (s0 : State) :
  constructor msg owners threshold emptyState = Ok tt s0 ->
  owners <> [] /\ threshold <> 0 /\ threshold <= Z.of_nat (length owners) /\
  deployed_with owners threshold s0.
Proof.
  unfold constructor. destruct owners as [|first rest]; [ discriminate | ].
  destruct ((threshold =? 0) || _) eqn:Hth; [ discriminate | ].
  apply orb_false_elim in Hth. destruct Hth as [H0 Hlen]. Zbool.
  unfold _grantRole. unfold_monad. cbn [roles emptyState].
  match goal with |- context [grantOwners ?d ?l ?s1] =>
    destruct (grantOwners_spec d l s1) as (s' & E & Hr & Hf); rewrite E end.
  intros H. inversion H; subst; clear H E.
  split; [ discriminate | ]. split; [ exact H0 | ]. split; [ exact Hlen | ].
  assert (Hroles : forall r a,
            roles s' r a = true <->
            (r = OWNER_ROLE /\ a ∈ first :: rest) \/
            (r = DEFAULT_ADMIN_ROLE /\ Some first = Some a)).
  { intros r a. rewrite Hr. vsimpl. cbn [emptyState roles].
    rewrite orb_true_iff, andb_true_iff, !bool_decide_eq_true.
    split; intros [H|H].
    - right. revert H. fn_cases. intros _. split; reflexivity.
    - left. exact H.
    - right. exact H.
    - left. destruct H as [-> H]. inversion H; subst. fn_cases. }
  clear Hr. destruct s'. unfold deployed_with.
  unfold set_logs, set_roles, set_governance, set_supportedAssets, emptyState in *.
  vsimpl_all. inversion Hf; subst; clear Hf. cbn [head].
  repeat split; try reflexivity; apply Hroles.
Qed.

(** X1.  The constructor accepts exactly a non-empty owner list with a
    non-zero threshold that does not exceed the number of listed owners; an
    empty list is rejected with [InvalidOwnerCount] before the threshold is
    looked at, any other bad threshold with [InvalidThreshold].  The vault it
    leaves has the threshold and the list length stored, [OWNER_ROLE] held by
    exactly the listed accounts, [DEFAULT_ADMIN_ROLE] by exactly the first of
    them (the deployer gets nothing for deploying, and nobody can propose
    yet), the native currency as its only asset, and every other slot
    zero. *)
Theorem X1_constructor_spec (msg : Msg) (owners : list address)
    (threshold : uint256) :
  match constructor msg owners threshold emptyState with
  | Ok _ s0 =>
      owners <> [] /\ threshold <> 0 /\ threshold <= Z.of_nat (length owners) /\
      deployed_with owners threshold s0
  | Err e =>
      (owners = [] /\ e = InvalidOwnerCount) \/
      (owners <> [] /\ e = InvalidThreshold /\
       (threshold = 0 \/ Z.of_nat (length owners) < threshold))
  end.
Proof.
  destruct (constructor msg owners threshold emptyState) as [[] s0|e] eqn:E.
  - apply (constructor_post msg). exact E.
  - unfold constructor in E. destruct owners as [|first rest].
    + left. inversion E. split; reflexivity.
    + right. destruct ((threshold =? 0) || _) eqn:Hth.
      * inversion E. split; [ discriminate | ]. split; [ reflexivity | ].
        apply orb_true_iff in Hth. destruct Hth as [H|H]; Zbool; [ left | right ];
          assumption.
      * exfalso. revert E. unfold _grantRole. unfold_monad. cbn [roles emptyState].
        match goal with |- context [grantOwners ?d ?l ?s1] =>
          destruct (grantOwners_spec d l s1) as (s' & E' & _); rewrite E' end.
        discriminate.
Qed.

(** ** Governance parameters *)

Lemma dispatch_same_governance (call : ExternalCall) (msg : Msg) (c : Call)
    (s s' : State) :
  call_respects same_governance call ->
  dispatch call msg c s = Ok tt s' -> same_governance s s'.
Proof.
  intros Hcall H. unfold same_governance.
  destruct c; run_call H;
    repeat match goal with
           | E : call _ _ _ _ = Ok _ _ |- _ =>
               apply Hcall in E; unfold same_governance in E; vsimpl_in E
           end; auto.
Qed.

Lemma run_same_governance (txs : list Tx) (s : State) :
  same_governance s (run txs s).
Proof.
  apply (run_respects_any same_governance).
  - intros s1. split; reflexivity.
  - intros s1 s2 s3 [H1 H2] [H3 H4]. split; congruence.
  - intros call msg c s1 s2. apply dispatch_same_governance.
Qed.

(** X2.  The approval threshold and the owner count are written once, by
    the constructor: whatever transactions follow (role grants and
    revocations included), the threshold is the deployed one and lies
    between 1 and the owner count, which stays the length of the deployed
    owner list. *)
Theorem X2_governance_fixed (msg : Msg) (owners : list address)
    (threshold : uint256) (s0 : State) (txs : list Tx) :
  constructor msg owners threshold emptyState = Ok tt s0 ->
  0 <= threshold ->
  approvalThreshold (run txs s0) = threshold /\
  ownerCount (run txs s0) = Z.of_nat (length owners) /\
  1 <= approvalThreshold (run txs s0) <= ownerCount (run txs s0).
Proof.
  intros H0 Hpos. apply constructor_post in H0.
  destruct H0 as (_ & Hne & Hle & Hth & Hcount & _).
  destruct (run_same_governance txs s0) as [-> ->].
  rewrite Hth, Hcount. lia.
Qed.

Lemma X2_governance_fixed_witness :
  approvalThreshold (run Scenario.second_round Scenario.deployed) = 2 /\
  ownerCount (run Scenario.second_round Scenario.deployed) = 3 /\
  1 <= approvalThreshold (run Scenario.second_round Scenario.deployed)
    <= ownerCount (run Scenario.second_round Scenario.deployed).
Proof.
  apply (X2_governance_fixed (mkMsg Scenario.owner1 Scenario.t0)
           [Scenario.owner1; Scenario.owner2; Scenario.owner3] 2);
    [ apply constructor_returns; vm_compute; reflexivity | lia ].
Defined.

(** ** The list of supported assets *)

Lemma isSupported_elem_of (l : list address) (t : address) :
  isSupported l t = true <-> t ∈ l.
Proof.
  induction l as [|a l IH]; cbn [isSupported].
  - split; [ discriminate | intros H; inversion H ].
  - rewrite elem_of_cons. destruct (a =? t) eqn:E; Zbool.
    + split; [ intros _; left; symmetry; exact E | reflexivity ].
    + rewrite IH. split; [ tauto | intros [->|H]; [ contradiction | exact H ] ].
Qed.

Lemma dispatch_assets_extend (call : ExternalCall) (msg : Msg) (c : Call)
    (s s' : State) :
  call_respects assets_extend call ->
  dispatch call msg c s = Ok tt s' -> assets_extend s s'.
Proof.
  intros Hcall H. unfold assets_extend.
  destruct c; run_call H;
    repeat match goal with
           | E : call _ _ _ _ = Ok _ _ |- _ =>
               apply Hcall in E; unfold assets_extend in E; vsimpl_in E
           end; auto; try reflexivity.
  apply prefix_app_r. reflexivity.
Qed.

Lemma run_assets_extend (txs : list Tx) (s : State) :
  assets_extend s (run txs s).
Proof.
  apply (run_respects_any assets_extend).
  - intros s1. unfold assets_extend. reflexivity.
  - intros s1 s2 s3. unfold assets_extend. intros H1 H2. etransitivity; eassumption.
  - intros call msg c s1 s2. apply dispatch_assets_extend.
Qed.

Lemma dispatch_assets_wf (call : ExternalCall) (msg : Msg) (c : Call)
    (s s' : State) :
  call_respects (keeps assets_wf) call ->
  dispatch call msg c s = Ok tt s' -> assets_wf s -> assets_wf s'.
Proof.
  intros Hcall H Hs. unfold keeps, assets_wf in *.
  destruct c; run_call H;
    repeat match goal with
           | E : call _ _ _ _ = Ok _ _ |- _ => apply Hcall in E; vsimpl_in E
           end; auto.
  destruct Hs as [Hnd Hhd]. split.
  - apply NoDup_app. split; [ exact Hnd | ]. split; [ | apply NoDup_singleton ].
    intros x Hx Hin. apply list_elem_of_singleton in Hin. subst x.
    apply isSupported_elem_of in Hx. congruence.
  - destruct (supportedAssets s); [ discriminate | exact Hhd ].
Qed.

Lemma reachable_assets_wf (s : State) : reachable s -> assets_wf s.
Proof.
  apply (invariant_reachable assets_wf).
  - apply dispatch_assets_wf.
  - intros msg owners threshold s0 H. apply constructor_post in H.
    destruct H as (_ & _ & _ & _ & _ & _ & Ha & _). unfold assets_wf.
    rewrite Ha. split; [ apply NoDup_singleton | reflexivity ].
Qed.

(** X3.  In every reachable state the asset list starts with the native
    currency (the zero address) and lists no asset twice, and whatever
    transactions follow only append to it: nothing removes or reorders an
    asset, so the positions [getAllocation] reports are stable. *)
Theorem X3_asset_list_invariant (s : State) (txs : list Tx) :
  reachable s ->
  NoDup (supportedAssets s) /\ head (supportedAssets s) = Some 0 /\
  supportedAssets s `prefix_of` supportedAssets (run txs s).
Proof.
  intros Hs. destruct (reachable_assets_wf s Hs) as [Hnd Hhd].
  split; [ exact Hnd | ]. split; [ exact Hhd | ]. apply run_assets_extend.
Qed.

Lemma X3_asset_list_invariant_witness :
  NoDup (supportedAssets (run Scenario.thirds_history Scenario.deployed)) /\
  head (supportedAssets (run Scenario.thirds_history Scenario.deployed)) = Some 0 /\
  supportedAssets (run Scenario.thirds_history Scenario.deployed)
    `prefix_of`
  supportedAssets (run Scenario.setup (run Scenario.thirds_history Scenario.deployed)).
Proof.
  apply (X3_asset_list_invariant
           (run Scenario.thirds_history Scenario.deployed) Scenario.setup).
  apply scenario_reachable.
Defined.

(** X4.  [addSupportedAsset] called by an owner always returns; afterwards
    the token is listed, the list is the old one if the token was already
    there and the old one with the token appended otherwise, and nothing else
    in the storage changes: adding a token twice is the same as adding it
    once.  Called by anybody else it reverts. *)
Theorem X4_addSupportedAsset_idempotent (msg : Msg) (token : address)
    (s : State) :
  if roles s OWNER_ROLE (sender msg)
  then exists s',
         addSupportedAsset msg token s = Ok tt s' /\
         s' = set_supportedAssets
                (fun l => if bool_decide (token ∈ l) then l else l ++ [token]) s /\
         token ∈ supportedAssets s' /\
         addSupportedAsset msg token s' = Ok tt s'
  else addSupportedAsset msg token s
       = Err (AccessControlUnauthorizedAccount (sender msg) OWNER_ROLE).
Proof.
  unfold addSupportedAsset. unfold_monad.
  destruct (roles s OWNER_ROLE (sender msg)) eqn:Ho; [ | reflexivity ].
  destruct (isSupported (supportedAssets s) token) eqn:Hin.
  - exists s. split; [ reflexivity | ].
    pose proof (proj1 (isSupported_elem_of _ _) Hin) as Hel.
    split; [ | split; [ exact Hel | rewrite Ho, Hin; reflexivity ] ].
    unfold set_supportedAssets. rewrite bool_decide_eq_true_2 by exact Hel.
    destruct s; reflexivity.
  - eexists. split; [ reflexivity | ].
    assert (Hel : token ∉ supportedAssets s).
    { intros Hel. apply isSupported_elem_of in Hel. congruence. }
    split; [ | split ].
    + unfold set_supportedAssets. rewrite bool_decide_eq_false_2 by exact Hel.
      reflexivity.
    + vsimpl. apply elem_of_app. right. apply list_elem_of_here.
    + vsimpl. rewrite Ho.
      rewrite (proj2 (isSupported_elem_of _ _)); [ reflexivity | ].
      apply elem_of_app. right. apply list_elem_of_here.
Qed.

(** ** The strategy whitelist *)

Lemma dispatch_whitelist_grows (call : ExternalCall) (msg : Msg) (c : Call)
    (s s' : State) :
  call_respects whitelist_grows call ->
  dispatch call msg c s = Ok tt s' -> whitelist_grows s s'.
Proof.
  intros Hcall H. destruct c; run_call H; intros a Ha; vsimpl;
    repeat match goal with
           | E : call _ _ _ _ = Ok _ _ |- _ =>
               apply Hcall in E; specialize (E a); vsimpl_in E
           end; auto; fn_cases.
Qed.

(** X5.  The whitelist only grows: the vault has no function that revokes a
    strategy, so a target approved once stays approved whatever transactions
    follow. *)
Theorem X5_whitelist_never_shrinks (s : State) (txs : list Tx)
    (strategy : address) :
  approvedStrategies s strategy = true ->
  approvedStrategies (run txs s) strategy = true.
Proof.
  revert strategy. change (whitelist_grows s (run txs s)).
  apply (run_respects_any whitelist_grows).
  - intros s1 a Ha. exact Ha.
  - intros s1 s2 s3 H1 H2 a Ha. apply H2, H1, Ha.
  - intros call msg c s1 s2. apply dispatch_whitelist_grows.
Qed.

Lemma X5_whitelist_never_shrinks_witness :
  approvedStrategies (run Scenario.second_round Scenario.funded)
    Scenario.strategy = true.
Proof.
  apply (X5_whitelist_never_shrinks Scenario.funded Scenario.second_round
           Scenario.strategy).
  vm_compute. reflexivity.
Defined.

(** ** What accounts without a governing role cannot do *)

Lemma governed_unchanged_refl (s : State) : governed_unchanged s s.
Proof.
  unfold governed_unchanged. repeat split; auto.
  exists []. split; [ rewrite app_nil_r; reflexivity | constructor ].
Qed.

Lemma governed_unchanged_trans (s1 s2 s3 : State) :
  governed_unchanged s1 s2 -> governed_unchanged s2 s3 ->
  governed_unchanged s1 s3.
Proof.
  intros (Hr & Hp & Hw & Ha & Hap & Hc & m1 & Hl1 & Hm1)
         (Hr' & Hp' & Hw' & Ha' & Hap' & Hc' & m2 & Hl2 & Hm2).
  unfold governed_unchanged. repeat split; try congruence.
  - intros r a H. apply Hr, Hr', H.
  - intros id. destruct (Hc' id) as [E|E]; [ rewrite E; apply Hc | right; exact E ].
  - exists (m1 ++ m2). split; [ rewrite Hl2, Hl1, app_assoc; reflexivity | ].
    apply Forall_app. split; assumption.
Qed.

Ltac solve_logged :=
  match goal with
  | |- exists more, logs ?s ++ ?l = logs ?s ++ more /\ _ =>
      exists l; split; [ reflexivity | repeat constructor ]
  | E : logs ?s0 = logs ?s ++ ?m, F : Forall _ ?m
    |- exists more, logs ?s0 ++ ?l = logs ?s ++ more /\ _ =>
      exists (m ++ l); split;
      [ rewrite E, app_assoc; reflexivity
      | apply Forall_app; split; [ exact F | repeat constructor ] ]
  end.

Lemma dispatch_outsiders_kept (A : address -> Prop) (call : ExternalCall)
    (msg : Msg) (c : Call) (s s' : State) :
  sent_by A msg c -> call_respects (outsiders_kept A) call ->
  dispatch call msg c s = Ok tt s' -> outsiders_kept A s s'.
Proof.
  unfold sent_by. intros Hsender Hcall H Hout.
  destruct (Hout _ Hsender) as [Hown Hadm].
  destruct c; run_call H; try congruence;
    repeat match goal with
           | E : call _ _ _ _ = Ok _ _ |- _ =>
               apply Hcall in E; unfold outsiders_kept in E; vsimpl_in E;
               specialize (E Hout); destruct E as [Hout' E]
           end;
    unfold outsider, governed_unchanged in *; vsimpl.
  all: try (split; [ exact Hout | ]).
  all: try (split; [ exact Hout' | ]).
  all: repeat match goal with
              | E : _ /\ _ |- _ => destruct E
              | E : exists _, _ |- _ => destruct E
              end; vsimpl_all.
  all: repeat match goal with
              | |- _ /\ _ => split
              end; try assumption; try reflexivity; auto.
  all: try solve_logged.
  all: try (intros id;
            try match goal with
                | E : forall id, _ \/ _ |- _ => specialize (E id); revert E
                end;
            unfold insert, fn_insert; case_decide; subst; vsimpl; auto; fail).
  all: try (exists []; split; [ rewrite app_nil_r; reflexivity | constructor ]).
  - intros a Ha. destruct (Hout a Ha) as [H1 H2].
    split; unfold insert, fn_insert; repeat case_decide; subst; auto.
  - intros r a. unfold insert, fn_insert; repeat case_decide; subst; auto;
      discriminate.
Qed.

(** X6.  Accounts that hold neither [OWNER_ROLE] nor [DEFAULT_ADMIN_ROLE]
    cannot govern: whatever transactions and call-backs they send, they never
    gain either role, no role is granted to anybody, the pause flag, the
    strategy whitelist, the asset list and the approval records stay as they
    were, no approval is counted, and the log gains no approval, whitelisting,
    emergency-withdrawal, pause, unpause or role-grant event. *)
Theorem X6_outsiders_cannot_govern (A : address -> Prop) (s : State)
    (txs : list Tx) :
  (forall a, A a -> outsider s a) ->
  Forall (tx_allowed (sent_by A)) txs ->
  (forall a, A a -> outsider (run txs s) a) /\
  governed_unchanged s (run txs s).
Proof.
  intros Hout Htxs. revert Hout. change (outsiders_kept A s (run txs s)).
  apply (run_respects (outsiders_kept A) (sent_by A)); [ | | | exact Htxs ].
  - intros s1 H. split; [ exact H | apply governed_unchanged_refl ].
  - intros s1 s2 s3 H12 H23 H1. destruct (H12 H1) as [H2 G12].
    destruct (H23 H2) as [H3 G23]. split; [ exact H3 | ].
    exact (governed_unchanged_trans _ _ _ G12 G23).
  - intros call msg c s1 s2. apply dispatch_outsiders_kept.
Qed.

Lemma X6_outsiders_cannot_govern_witness :
  (forall a, a = Scenario.stranger ->
             outsider (run [ mkTx Scenario.stranger Scenario.t0 call_pause accepts;
                             Scenario.execute_small accepts ]
                         Scenario.approved_small) a) /\
  governed_unchanged Scenario.approved_small
    (run [ mkTx Scenario.stranger Scenario.t0 call_pause accepts;
           Scenario.execute_small accepts ] Scenario.approved_small).
Proof.
  apply (X6_outsiders_cannot_govern (fun a => a = Scenario.stranger)).
  - intros a ->. split; vm_compute; reflexivity.
  - repeat constructor.
Defined.

(** ** Pausing *)

(** X7.  While a deployed vault is paused, every [proposeAction],
    [executeAction], [deposit] and [depositBNB] reverts with
    [EnforcedPause], whoever sends it, with whatever arguments and whatever
    the called party would do; the storage stays as it is. *)
Theorem X7_pause_blocks (s : State) (tx : Tx) :
  reachable s -> paused s = true -> pausable (tx_call tx) = true ->
  transact tx s = Err EnforcedPause /\ step s tx = s.
Proof.
  intros Hs Hp Hc. apply reachable_unlocked in Hs.
  assert (E : transact tx s = Err EnforcedPause).
  { unfold transact. destruct (tx_call tx); try discriminate Hc;
      unfold_vault; unfold_monad; vsimpl; rewrite ?Hs, ?Hp; reflexivity. }
  split; [ exact E | ]. unfold step. rewrite E. reflexivity.
Qed.

Lemma X7_pause_blocks_witness :
  transact (mkTx Scenario.owner1 Scenario.t0 (call_depositBNB 5) accepts)
    (run [Scenario.pause_tx] (step Scenario.approved_small
                                (Scenario.execute_small accepts)))
  = Err EnforcedPause /\
  step (run [Scenario.pause_tx] (step Scenario.approved_small
                                   (Scenario.execute_small accepts)))
    (mkTx Scenario.owner1 Scenario.t0 (call_depositBNB 5) accepts)
  = run [Scenario.pause_tx] (step Scenario.approved_small
                               (Scenario.execute_small accepts)).
Proof.
  apply (X7_pause_blocks
           (run [Scenario.pause_tx] (step Scenario.approved_small
                                       (Scenario.execute_small accepts)))
           (mkTx Scenario.owner1 Scenario.t0 (call_depositBNB 5) accepts)).
  - apply reachable_run, reachable_step. unfold Scenario.approved_small.
    apply scenario_reachable.
  - vm_compute. reflexivity.
  - reflexivity.
Defined.

(** X8.  Pausing stops neither plain transfers to the vault nor
    governance: [receive], [approveAction], [approveStrategy],
    [addSupportedAsset] and the role functions behave on a paused vault
    exactly as on an unpaused one (same outcome, same writes), and so does a
    forced transfer. *)
Theorem X8_pause_blind (call : ExternalCall) (msg : Msg) (c : Call)
    (b : bool) (s : State) :
  pause_blind c = true ->
  dispatch call msg c (set_paused b s)
  = on_state (set_paused b) (dispatch call msg c s).
Proof.
  intros Hc. destruct c; try discriminate Hc; destruct s;
    unfold_vault; unfold_monad; unfold on_state; vsimpl; split_goal;
    reflexivity.
Qed.

Lemma X8_pause_blind_witness :
  dispatch no_call (mkMsg Scenario.stranger Scenario.t0) (call_receive 5)
    (set_paused true Scenario.funded)
  = on_state (set_paused true)
      (dispatch no_call (mkMsg Scenario.stranger Scenario.t0) (call_receive 5)
         Scenario.funded).
Proof.
  apply (X8_pause_blind no_call (mkMsg Scenario.stranger Scenario.t0)
           (call_receive 5) true Scenario.funded).
  reflexivity.
Defined.

(** X9.  [pause] and [unpause] are reserved to owners and undo each other:
    on an unpaused vault an owner's [pause] returns, a second [pause]
    reverts with [EnforcedPause], any owner's [unpause] then returns and
    leaves the storage exactly as before the pause apart from the two logged
    events, and a second [unpause] reverts with [ExpectedPause].  An account
    without [OWNER_ROLE] can do neither. *)
Theorem X9_pause_unpause (a b c : Msg) (s : State) :
  roles s OWNER_ROLE (sender a) = true ->
  roles s OWNER_ROLE (sender b) = true ->
  paused s = false ->
  exists s1,
    pause a s = Ok tt s1 /\ paused s1 = true /\
    pause b s1 = Err EnforcedPause /\
    unpause b s1
    = Ok tt (set_logs (fun l => l ++ [Paused (sender a); Unpaused (sender b)]) s) /\
    unpause a s = Err ExpectedPause /\
    (roles s OWNER_ROLE (sender c) = false ->
     pause c s = Err (AccessControlUnauthorizedAccount (sender c) OWNER_ROLE) /\
     unpause c s1 = Err (AccessControlUnauthorizedAccount (sender c) OWNER_ROLE)).
Proof.
  intros Ha Hb Hp.
  exists (set_logs (fun l => l ++ [Paused (sender a)]) (set_paused true s)).
  unfold pause, unpause. unfold_monad. vsimpl.
  rewrite Ha, Hb, Hp. vsimpl.
  split; [ reflexivity | ]. split; [ reflexivity | ].
  split; [ reflexivity | ]. split.
  - destruct s. unfold set_logs. vsimpl_all. subst. rewrite <- app_assoc.
    reflexivity.
  - split; [ reflexivity | ]. intros Hc. rewrite Hc. split; reflexivity.
Qed.

Lemma X9_pause_unpause_witness :
  exists s1,
    pause (mkMsg Scenario.owner1 Scenario.t0) Scenario.funded = Ok tt s1 /\
    paused s1 = true /\
    pause (mkMsg Scenario.owner2 Scenario.t0) s1 = Err EnforcedPause /\
    unpause (mkMsg Scenario.owner2 Scenario.t0) s1
    = Ok tt (set_logs (fun l => l ++ [Paused Scenario.owner1;
                                      Unpaused Scenario.owner2])
               Scenario.funded) /\
    unpause (mkMsg Scenario.owner1 Scenario.t0) Scenario.funded
    = Err ExpectedPause /\
    (roles Scenario.funded OWNER_ROLE Scenario.stranger = false ->
     pause (mkMsg Scenario.stranger Scenario.t0) Scenario.funded
     = Err (AccessControlUnauthorizedAccount Scenario.stranger OWNER_ROLE) /\
     unpause (mkMsg Scenario.stranger Scenario.t0) s1
     = Err (AccessControlUnauthorizedAccount Scenario.stranger OWNER_ROLE)).
Proof.
  apply (X9_pause_unpause (mkMsg Scenario.owner1 Scenario.t0)
           (mkMsg Scenario.owner2 Scenario.t0)
           (mkMsg Scenario.stranger Scenario.t0) Scenario.funded);
    vm_compute; reflexivity.
Defined.

(** ** Call-backs during a guarded call *)

Lemma dispatch_while_locked (call : ExternalCall) (msg : Msg) (c : Call)
    (s s' : State) :
  dispatch call msg c s = Ok tt s' -> while_locked s s'.
Proof.
  intros H Hl. destruct c; run_call H; try congruence; vsimpl.
  all: split; [ assumption | ].
  all: split;
    [ intros t Ht; unfold insert, fn_insert; repeat case_decide; subst;
      try congruence; reflexivity
    | intros id; unfold insert, fn_insert; repeat case_decide; subst; vsimpl;
      auto; discriminate ].
Qed.

Lemma callbacks_while_locked (now : uint256) (rcs : list (address * Call))
    (s : State) :
  while_locked s (fold_left (reenter now) rcs s).
Proof.
  apply (callbacks_respect while_locked any_call).
  - intros s1 H. repeat split; auto.
  - intros s1 s2 s3 H12 H23 H1. destruct (H12 H1) as (H2 & Hb & He).
    destruct (H23 H2) as (H3 & Hb' & He'). split; [ exact H3 | ]. split.
    + intros t Ht. rewrite Hb', Hb by exact Ht. reflexivity.
    + intros id H. apply He, He', H.
  - intros call msg c s1 s2 _ _. apply dispatch_while_locked.
  - induction rcs; constructor; [ exact I | assumption ].
Qed.

(** ** Emergency withdrawal *)



(** X11.  An accepted [emergencyWithdraw] of a token debits the tracked
    balance of that token by exactly the amount, leaves the tracked balance
    of every other token as it was, whatever the recipient calls back into
    the vault, releases the lock and logs the withdrawal last.  When the
    recipient makes no call-back, a withdrawal of the native currency debits
    both the tracked native balance and the currency the vault holds by
    exactly the amount. *)
Theorem X11_emergencyWithdraw_effect (s : State) (who now : Z)
    (token to amount : Z) (k : Callee) :
  locked s = false -> 0 <= nativeHeld s ->
  0 <= amount -> assetBalances s token < UINT256_MODULUS ->
  emergencyWithdraw_check s who token amount k = None ->
  let s' := step s (mkTx who now (call_emergencyWithdraw token to amount) k) in
  locked s' = false /\
  last (logs s') = Some (EmergencyWithdraw token to amount) /\
  (forall t, t <> 0 ->
             assetBalances s' t
             = if decide (t = token) then assetBalances s t - amount
               else assetBalances s t) /\
  (reentrant k = [] ->
   assetBalances s' 0
   = (if decide (token = 0) then assetBalances s 0 - amount
      else assetBalances s 0) /\
   nativeHeld s'
   = if decide (token = 0) then nativeHeld s - amount else nativeHeld s).
Proof.
  intros Hl Hh Ha Hb Hc. unfold emergencyWithdraw_check in Hc.
  destruct (roles s OWNER_ROLE who) eqn:Ho; [ | discriminate ].
  destruct (assetBalances s token <? amount) eqn:Hbal; [ discriminate | ].
  cbn [negb] in Hc. Zbool.
  assert (Hw : wrap (assetBalances s token - amount) = assetBalances s token - amount).
  { unfold wrap. apply Z.mod_small. lia. }
  unfold step, transact, tx_msg, run_callee.
  cbn [tx_call tx_callee tx_sender tx_timestamp dispatch].
  unfold emergencyWithdraw, safeTransfer. unfold_monad. vsimpl.
  rewrite Hl, Ho. vsimpl. rewrite (proj2 (Z.ltb_ge _ _)) by lia.
  destruct (token =? 0) eqn:Ht; Zbool.
  - subst token. destruct (amount <=? nativeHeld s) eqn:Hv; [ | discriminate ].
    destruct (succeeds k) eqn:Hk; [ | discriminate ]. Zbool. vsimpl.
    rewrite (proj2 (Z.ltb_ge _ _)) by lia. vsimpl.
    match goal with |- context [fold_left (reenter now) ?rcs ?s1] =>
      pose proof (callbacks_while_locked now rcs s1 eq_refl) as (_ & Hbs & _) end.
    vsimpl_all. split; [ reflexivity | ]. split; [ apply last_snoc | ]. split.
    + intros t Hne. rewrite Hbs by exact Hne.
      unfold insert, fn_insert. repeat case_decide; subst; congruence.
    + intros ->. cbn [fold_left]. vsimpl. rewrite !decide_True by reflexivity.
      split; [ | reflexivity ]. rewrite <- Hw. fn_cases.
  - destruct (succeeds k) eqn:Hk; [ | discriminate ]. vsimpl.
    rewrite (proj2 (Z.ltb_ge _ _)) by lia. vsimpl.
    match goal with |- context [fold_left (reenter now) ?rcs ?s1] =>
      pose proof (callbacks_while_locked now rcs s1 eq_refl) as (_ & Hbs & _) end.
    vsimpl_all. split; [ reflexivity | ]. split; [ apply last_snoc | ]. split.
    + intros t Hne. rewrite Hbs by exact Hne. rewrite <- Hw.
      unfold insert, fn_insert. repeat case_decide; subst; congruence.
    + intros ->. cbn [fold_left]. vsimpl. rewrite !decide_False by exact Ht.
      split; [ | lia ]. fn_cases.
Qed.

Lemma X11_emergencyWithdraw_effect_witness :
  let s' := step Scenario.approved_large
              (mkTx Scenario.owner1 Scenario.t0
                 (call_emergencyWithdraw 0 Scenario.owner1 (Scenario.ether 100))
                 accepts) in
  locked s' = false /\
  last (logs s')
  = Some (EmergencyWithdraw 0 Scenario.owner1 (Scenario.ether 100)) /\
  (forall t, t <> 0 ->
             assetBalances s' t
             = if decide (t = 0)
               then assetBalances Scenario.approved_large t - Scenario.ether 100
               else assetBalances Scenario.approved_large t) /\
  (reentrant accepts = [] ->
   assetBalances s' 0
   = (if decide (0 = 0)
      then assetBalances Scenario.approved_large 0 - Scenario.ether 100
      else assetBalances Scenario.approved_large 0) /\
   nativeHeld s'
   = if decide (0 = 0)
     then nativeHeld Scenario.approved_large - Scenario.ether 100
     else nativeHeld Scenario.approved_large).
Proof.
  apply (X11_emergencyWithdraw_effect Scenario.approved_large Scenario.owner1
           Scenario.t0 0 Scenario.owner1 (Scenario.ether 100) accepts).
  - vm_compute. reflexivity.
  - vm_compute. discriminate.
  - vm_compute. discriminate.
  - vm_compute. reflexivity.
  - vm_compute. reflexivity.
Defined.

(** ** Approval counts *)

Lemma wrap_le (x : Z) : 0 <= x -> 0 <= wrap x <= x.
Proof.
  intros Hx. unfold wrap. split.
  - apply Z.mod_pos_bound. reflexivity.
  - apply Z.mod_le; [ exact Hx | reflexivity ].
Qed.

Lemma dispatch_approvals_backed (call : ExternalCall) (msg : Msg) (c : Call)
    (s s' : State) :
  call_respects (keeps approvals_backed) call ->
  dispatch call msg c s = Ok tt s' -> approvals_backed s -> approvals_backed s'.
Proof.
  intros Hcall H Hs. unfold keeps in Hcall.
  destruct c; run_call H;
    repeat match goal with
           | E : call _ _ _ _ = Ok _ _ |- _ => apply Hcall in E; cbv beta in E
           end; try exact Hs.
  all: try (intros id; destruct (Hs id) as (l & Hnd & Hall & Hn); vsimpl;
            destruct (decide (id = keccak256
                        (encodePacked _target _data _value (timestamp msg)
                           (sender msg)))) as [->|Hne];
            [ exists l; split; [ exact Hnd | ]; split; [ exact Hall | ];
              unfold insert, fn_insert; rewrite decide_True by reflexivity;
              vsimpl; lia
            | exists l; split; [ exact Hnd | ]; split; [ exact Hall | ];
              unfold insert, fn_insert; rewrite decide_False by congruence;
              exact Hn ]).
  1: { (* approveAction *)
  intros id. destruct (Hs id) as (l & Hnd & Hall & Hn). vsimpl.
    destruct (decide (id = actionId)) as [->|Hne].
    + exists (sender msg :: l). split; [ | split ].
      * apply NoDup_cons. split; [ | exact Hnd ].
        intros Hin. apply Hall in Hin. congruence.
      * intros a Ha. apply elem_of_cons in Ha. unfold insert, fn_insert.
        rewrite decide_True by reflexivity. case_decide; [ reflexivity | ].
        destruct Ha as [->|Ha]; [ congruence | apply Hall, Ha ].
      * unfold insert, fn_insert. rewrite decide_True by reflexivity. vsimpl.
        cbn [length]. rewrite Nat2Z.inj_succ.
        pose proof (wrap_le (approvals (pendingActions s actionId) + 1)). lia.
    + exists l. split; [ exact Hnd | ]. unfold insert, fn_insert.
      rewrite !decide_False by congruence. split; [ exact Hall | exact Hn ]. }
  (* after an external call *)
  all: match goal with
       | E : approvals_backed ?m -> approvals_backed _ |- _ =>
           assert (Hm : approvals_backed m);
           [ intros id; destruct (Hs id) as (l & Hnd & Hall & Hn); exists l;
             vsimpl; unfold insert, fn_insert; repeat case_decide; subst;
             vsimpl; repeat split; try apply Hn; assumption
           | intros id; destruct (E Hm id) as (l & Hnd & Hall & Hn); exists l;
             vsimpl; repeat split; try apply Hn; assumption ]
       end.
Qed.

Lemma reachable_approvals_backed (s : State) : reachable s -> approvals_backed s.
Proof.
  apply (invariant_reachable approvals_backed).
  - apply dispatch_approvals_backed.
  - intros msg owners threshold s0 H. apply constructor_post in H.
    destruct H as (_ & _ & _ & _ & _ & _ & _ & _ & _ & Hp & _).
    intros id. exists []. rewrite Hp. cbn [zeroAction approvals length].
    split; [ apply NoDup_nil_2 | ]. split; [ | lia ].
    intros a Ha. inversion Ha.
Qed.

(** X12.  In every reachable state the approval count of every action is
    backed by as many approval records of pairwise different accounts: an
    action that passes the threshold test of [executeAction] has been
    approved by at least [approvalThreshold] distinct accounts, each through
    its own [approveAction] (the unchecked increment never makes the count
    run ahead of the records, not even across a repeated proposal). *)
Theorem X12_approvals_are_backed (s : State) (id : bytes32) :
  reachable s ->
  exists approvers : list address,
    NoDup approvers /\
    (forall a, a ∈ approvers -> actionApprovals s id a = true) /\
    0 <= approvals (pendingActions s id) <= Z.of_nat (length approvers) /\
    (approvalThreshold s <= approvals (pendingActions s id) ->
     approvalThreshold s <= Z.of_nat (length approvers)).
Proof.
  intros Hs. destruct (reachable_approvals_backed s Hs id) as (l & Hnd & Hall & Hn).
  exists l. split; [ exact Hnd | ]. split; [ exact Hall | ].
  split; [ exact Hn | lia ].
Qed.

Lemma X12_approvals_are_backed_witness :
  exists approvers : list address,
    NoDup approvers /\
    (forall a, a ∈ approvers ->
               actionApprovals (run Scenario.small_history Scenario.deployed)
                 Scenario.small_id a = true) /\
    0 <= approvals (pendingActions (run Scenario.small_history Scenario.deployed)
                      Scenario.small_id)
      <= Z.of_nat (length approvers) /\
    (approvalThreshold (run Scenario.small_history Scenario.deployed)
     <= approvals (pendingActions (run Scenario.small_history Scenario.deployed)
                     Scenario.small_id) ->
     approvalThreshold (run Scenario.small_history Scenario.deployed)
     <= Z.of_nat (length approvers)).
Proof.
  apply (X12_approvals_are_backed
           (run Scenario.small_history Scenario.deployed) Scenario.small_id).
  apply scenario_reachable.
Defined.

(** ** The action store *)

Lemma record_sound_flags (id : bytes32) (a : Action) (n : uint256) (b : bool) :
  proposedAt a <> 0 -> record_sound id a ->
  record_sound id (with_approvals n a) /\ record_sound id (with_executed b a).
Proof.
  intros Hne [->|H]; [ contradiction Hne; reflexivity | ].
  split; right; exact H.
Qed.

Lemma content_kept_refl (s : State) : content_kept s s.
Proof. intros H. split; [ exact H | ]. intros id _. repeat split. Qed.

Lemma content_kept_trans (s1 s2 s3 : State) :
  content_kept s1 s2 -> content_kept s2 s3 -> content_kept s1 s3.
Proof.
  intros H12 H23 H1. destruct (H12 H1) as [H2 C12].
  destruct (H23 H2) as [H3 C23]. split; [ exact H3 | ].
  intros id Hid. destruct (C12 id Hid) as (Ht & Hd & Hv & Hp).
  destruct (C23 id) as (Ht' & Hd' & Hv' & Hp'); [ congruence | ].
  repeat split; congruence.
Qed.

(** A proposal stored under its digest. *)
Lemma propose_content_kept (s s' : State) (t : address) (d : bytes)
    (v ts et : uint256) (ty : ActionType) (p : address) :
  is_address t -> is_uint256 v -> is_uint256 ts -> is_address p ->
  pendingActions s'
  = <[keccak256 (encodePacked t d v ts p) :=
        {| target := t; value := v; proposedAt := ts; executionTime := et;
           approvals := 0; executed := false; actionType := ty; data := d |}]>
      (pendingActions s) ->
  content_kept s s'.
Proof.
  intros Ht Hv Hts Hp E Hs. split.
  - intros id. rewrite E. unfold insert, fn_insert. case_decide; [ | apply Hs ].
    subst id. right. exists p. vsimpl.
    split; [ exact Ht | ]. split; [ exact Hv | ]. split; [ exact Hts | ].
    split; [ exact Hp | reflexivity ].
  - intros id Hid. rewrite E. unfold insert, fn_insert.
    case_decide; [ | repeat split ]. subst id.
    destruct (Hs (keccak256 (encodePacked t d v ts p))) as [Hz|(q & H1 & H2 & H3 & H4 & H5)].
    + rewrite Hz in Hid. contradiction Hid. reflexivity.
    + apply keccak256_inj in H5. apply encodePacked_inj in H5; try assumption.
      destruct H5 as (E1 & E2 & E3 & E4 & _). unfold same_content. vsimpl.
      repeat split; assumption.
Qed.

(** A record whose flags or count change. *)
Lemma update_content_kept (s s' : State) (id0 : bytes32) (a : Action) :
  proposedAt (pendingActions s id0) <> 0 ->
  same_content (pendingActions s id0) a ->
  pendingActions s' = <[id0 := a]> (pendingActions s) ->
  content_kept s s'.
Proof.
  intros Hne (Ht & Hd & Hv & Hp) E Hs. split.
  - intros id. rewrite E. unfold insert, fn_insert. case_decide; [ | apply Hs ].
    subst id. destruct (Hs id0) as [Hz|(q & H)].
    + rewrite Hz in Hne. contradiction Hne. reflexivity.
    + right. exists q. rewrite Ht, Hd, Hv, Hp. exact H.
  - intros id Hid. rewrite E. unfold insert, fn_insert.
    case_decide; [ subst id | ]; repeat split; assumption.
Qed.

Lemma same_pending_content_kept (s s' : State) :
  pendingActions s' = pendingActions s -> content_kept s s'.
Proof.
  intros E Hs. split.
  - intros id. rewrite E. apply Hs.
  - intros id _. rewrite E. repeat split.
Qed.

Lemma dispatch_content_kept (call : ExternalCall) (msg : Msg) (c : Call)
    (s s' : State) :
  call_in_range msg c -> call_respects content_kept call ->
  dispatch call msg c s = Ok tt s' -> content_kept s s'.
Proof.
  intros (Hsender & Hnow & Hargs) Hcall H.
  destruct c; run_call H;
    repeat match goal with
           | E : call _ _ _ _ = Ok _ _ |- _ => apply Hcall in E
           end;
    try (apply same_pending_content_kept; reflexivity).
  (* proposeAction *)
  all: try (eapply propose_content_kept; [ .. | reflexivity ];
            try apply Hargs; assumption).
  (* approveAction *)
  all: try (eapply update_content_kept; [ | | vsimpl; reflexivity ];
            [ Zbool; assumption | repeat split ]).
  (* after an external call *)
  all: match goal with
       | E : content_kept ?m ?s0 |- content_kept ?s _ =>
           apply (content_kept_trans s m);
           [ | apply (content_kept_trans m s0);
               [ exact E | apply same_pending_content_kept; reflexivity ] ]
       end.
  all: try (apply same_pending_content_kept; reflexivity).
  all: eapply update_content_kept; [ | | vsimpl; reflexivity ];
    [ Zbool; assumption | repeat split ].
Qed.

Lemma run_content_kept (txs : list Tx) (s : State) :
  Forall (tx_allowed call_in_range) txs -> content_kept s (run txs s).
Proof.
  apply (run_respects content_kept call_in_range).
  - apply content_kept_refl.
  - apply content_kept_trans.
  - intros call msg c s1 s2. apply dispatch_content_kept.
Qed.

Lemma constructor_store_sound (msg : Msg) (owners : list address)
    (threshold : uint256) (s0 : State) :
  constructor msg owners threshold emptyState = Ok tt s0 -> store_sound s0.
Proof.
  intros H. apply constructor_post in H.
  destruct H as (_ & _ & _ & _ & _ & _ & _ & _ & _ & Hp & _).
  intros id. rewrite Hp. left. reflexivity.
Qed.

(** X13.  In a vault driven by well-formed calls every stored action sits
    under the digest of its own target, calldata, value and proposal time
    (and of its proposer's address): a slot is either untouched or holds
    exactly the content its identifier was computed from, so approvals
    given to an identifier are approvals of that content. *)
Theorem X13_store_matches_identifiers (msg : Msg) (owners : list address)
    (threshold : uint256) (s0 : State) (txs : list Tx) (id : bytes32) :
  constructor msg owners threshold emptyState = Ok tt s0 ->
  Forall (tx_allowed call_in_range) txs ->
  let a := pendingActions (run txs s0) id in
  a = zeroAction \/
  exists proposer,
    is_address proposer /\
    id = keccak256 (encodePacked (target a) (data a) (value a) (proposedAt a)
                      proposer).
Proof.
  intros H0 Htxs. apply constructor_store_sound in H0.
  destruct (run_content_kept txs s0 Htxs H0) as [Hs _].
  destruct (Hs id) as [Hz|(p & _ & _ & _ & Hp & E)]; [ left; exact Hz | ].
  right. exists p. split; assumption.
Qed.

Lemma X13_store_matches_identifiers_witness :
  let a := pendingActions (run Scenario.small_history Scenario.deployed)
             Scenario.small_id in
  a = zeroAction \/
  exists proposer,
    is_address proposer /\
    Scenario.small_id
    = keccak256 (encodePacked (target a) (data a) (value a) (proposedAt a)
                   proposer).
Proof.
  apply (X13_store_matches_identifiers (mkMsg Scenario.owner1 Scenario.t0)
           [Scenario.owner1; Scenario.owner2; Scenario.owner3] 2
           Scenario.deployed Scenario.small_history Scenario.small_id).
  - apply constructor_returns. vm_compute. reflexivity.
  - unfold Scenario.small_history, Scenario.setup. cbn [app].
    repeat constructor; by_compute.
Defined.

(** X14.  Nothing rewrites what an existing action is: along every run of
    well-formed calls the target, calldata, value and proposal time stored
    under an identifier stay what they were, through approvals, execution
    and even a repeated proposal of the same identifier (which resets only
    the approval count, the executed flag, the time-lock and the type). *)
Theorem X14_action_content_is_fixed (msg : Msg) (owners : list address)
    (threshold : uint256) (s0 : State) (before after : list Tx)
    (id : bytes32) :
  constructor msg owners threshold emptyState = Ok tt s0 ->
  Forall (tx_allowed call_in_range) before ->
  Forall (tx_allowed call_in_range) after ->
  proposedAt (pendingActions (run before s0) id) <> 0 ->
  same_content (pendingActions (run before s0) id)
    (pendingActions (run after (run before s0)) id).
Proof.
  intros H0 Hb Ha Hid. apply constructor_store_sound in H0.
  destruct (run_content_kept before s0 Hb H0) as [Hs _].
  destruct (run_content_kept after _ Ha Hs) as [_ Hc]. apply Hc, Hid.
Qed.

Lemma X14_action_content_is_fixed_witness :
  same_content
    (pendingActions (run Scenario.small_history Scenario.deployed)
       Scenario.small_id)
    (pendingActions
       (run [Scenario.execute_small accepts; Scenario.propose_small]
          (run Scenario.small_history Scenario.deployed))
       Scenario.small_id).
Proof.
  apply (X14_action_content_is_fixed (mkMsg Scenario.owner1 Scenario.t0)
           [Scenario.owner1; Scenario.owner2; Scenario.owner3] 2
           Scenario.deployed Scenario.small_history
           [Scenario.execute_small accepts; Scenario.propose_small]
           Scenario.small_id).
  - apply constructor_returns. vm_compute. reflexivity.
  - unfold Scenario.small_history, Scenario.setup. cbn [app].
    repeat constructor; by_compute.
  - repeat constructor; by_compute.
  - vm_compute. discriminate.
Defined.

(** ** Native currency held and tracked *)

Lemma gap_add (h b v : Z) :
  (h + v - wrap (b + v)) mod UINT256_MODULUS = (h - b) mod UINT256_MODULUS.
Proof.
  unfold wrap. rewrite Zminus_mod_idemp_r. f_equal. lia.
Qed.

Lemma gap_sub (h b v : Z) :
  (h - v - wrap (b - v)) mod UINT256_MODULUS = (h - b) mod UINT256_MODULUS.
Proof.
  unfold wrap. rewrite Zminus_mod_idemp_r. f_equal. lia.
Qed.

Lemma gap_kept_refl (s : State) : gap_kept s s.
Proof. split; [ apply content_kept_refl | reflexivity ]. Qed.

Lemma gap_kept_trans (s1 s2 s3 : State) :
  gap_kept s1 s2 -> gap_kept s2 s3 -> gap_kept s1 s3.
Proof.
  intros [C12 G12] [C23 G23]. split.
  - exact (content_kept_trans _ _ _ C12 C23).
  - intros H1. destruct (C12 H1) as [H2 _]. rewrite G23, G12; auto.
Qed.

Lemma gap_debit (h0 b0 h b v : Z) :
  (h0 - b0) mod UINT256_MODULUS = (h - v - b) mod UINT256_MODULUS ->
  (h0 - wrap (b0 - v)) mod UINT256_MODULUS = (h - b) mod UINT256_MODULUS.
Proof.
  intros E. unfold wrap. rewrite Zminus_mod_idemp_r.
  replace (h0 - (b0 - v)) with ((h0 - b0) + v) by lia.
  rewrite <- Zplus_mod_idemp_l, E, Zplus_mod_idemp_l. f_equal. lia.
Qed.

Lemma sound_value_nonneg (s : State) (id : bytes32) :
  store_sound s -> 0 <= value (pendingActions s id).
Proof.
  intros Hs. destruct (Hs id) as [->|(p & _ & Hv & _)]; [ reflexivity | ].
  apply Hv.
Qed.

(** The storage [executeAction] hands to the target holds the same
    proposals as before. *)
Lemma forwarding_sound (s mid : State) (id : bytes32) :
  proposedAt (pendingActions s id) <> 0 -> store_sound s ->
  pendingActions mid
  = <[id := with_executed true (pendingActions s id)]> (pendingActions s) ->
  store_sound mid /\ proposedAt (pendingActions mid id) <> 0 /\
  value (pendingActions mid id) = value (pendingActions s id).
Proof.
  intros Hne Hs E. split.
  - refine (proj1 (update_content_kept s mid id _ Hne _ E Hs)). repeat split.
  - rewrite E. unfold insert, fn_insert. rewrite decide_True by reflexivity.
    split; [ exact Hne | reflexivity ].
Qed.

Lemma dispatch_gap_kept (call : ExternalCall) (msg : Msg) (c : Call)
    (s s' : State) :
  tracked_call msg c -> call_respects gap_kept call ->
  dispatch call msg c s = Ok tt s' -> gap_kept s s'.
Proof.
  intros [Hr Hu] Hcall H. split.
  - eapply dispatch_content_kept; [ exact Hr | | exact H ].
    intros t v d s1 b s2 E. apply (Hcall _ _ _ _ _ _ E).
  - intros Hs. unfold native_gap.
    destruct c; try discriminate Hu; run_call H;
      repeat match goal with
             | E : call _ _ _ _ = Ok _ _ |- _ =>
                 apply Hcall in E; destruct E as [Ec Eg]
             end; vsimpl; try reflexivity.
    + (* receive *)
      unfold insert, fn_insert. rewrite decide_True by reflexivity.
      apply gap_add.
    + (* executeAction, value debited *)
      Zbool.
      match type of Ec with content_kept ?m _ =>
        destruct (forwarding_sound s m actionId) as (Hm & Hpm & Hvm);
          [ assumption | exact Hs | reflexivity | ] end.
      destruct (Ec Hm) as [_ Hc]. destruct (Hc actionId Hpm) as (_ & _ & Hv & _).
      specialize (Eg Hm). unfold native_gap in Eg. vsimpl_all.
      unfold insert at 1, fn_insert at 1. rewrite decide_True by reflexivity.
      rewrite Hv. apply gap_debit. exact Eg.
    + (* executeAction, nothing to debit *)
      Zbool.
      match type of Ec with content_kept ?m _ =>
        destruct (forwarding_sound s m actionId) as (Hm & Hpm & Hvm);
          [ assumption | exact Hs | reflexivity | ] end.
      destruct (Ec Hm) as [_ Hc]. destruct (Hc actionId Hpm) as (_ & _ & Hv & _).
      specialize (Eg Hm). unfold native_gap in Eg. vsimpl_all.
      pose proof (sound_value_nonneg s actionId Hs) as Hn.
      rewrite Eg. f_equal. lia.
    + (* deposit of a token *)
      cbn [untracked_inflow] in Hu. Zbool.
      unfold insert, fn_insert. rewrite decide_False by congruence.
      specialize (Eg Hs). unfold native_gap in Eg. vsimpl_in Eg.
      rewrite Eg. f_equal. lia.
    + (* depositBNB *)
      unfold insert, fn_insert. rewrite decide_True by reflexivity.
      apply gap_add.
    + (* emergencyWithdraw, native *)
      Zbool. subst token. specialize (Eg Hs). unfold native_gap in Eg.
      vsimpl_in Eg. rewrite Eg.
      unfold insert, fn_insert. rewrite decide_True by reflexivity.
      apply gap_sub.
    + (* emergencyWithdraw, token *)
      Zbool. specialize (Eg Hs). unfold native_gap in Eg.
      vsimpl_in Eg. rewrite Eg.
      unfold insert, fn_insert. rewrite decide_False by congruence.
      f_equal. lia.
Qed.

Lemma run_gap_kept (txs : list Tx) (s : State) :
  Forall (tx_allowed tracked_call) txs -> gap_kept s (run txs s).
Proof.
  apply (run_respects gap_kept tracked_call).
  - apply gap_kept_refl.
  - apply gap_kept_trans.
  - intros call msg c s1 s2. apply dispatch_gap_kept.
Qed.

Lemma dispatch_holds_no_debt (call : ExternalCall) (msg : Msg) (c : Call)
    (s s' : State) :
  call_in_range msg c -> call_respects (keeps holds_no_debt) call ->
  dispatch call msg c s = Ok tt s' -> holds_no_debt s -> holds_no_debt s'.
Proof.
  intros (_ & _ & Hargs) Hcall H Hs. unfold keeps, holds_no_debt in *.
  destruct c; run_call H;
    repeat match goal with
           | E : call _ _ _ _ = Ok _ _ |- _ => apply Hcall in E; vsimpl_in E
           end; vsimpl; Zbool; unfold is_uint256 in *; try lia.
  all: match goal with E : _ -> 0 <= nativeHeld _ |- _ => apply E end; lia.
Qed.

Lemma run_holds_no_debt (txs : list Tx) (s : State) :
  Forall (tx_allowed call_in_range) txs ->
  holds_no_debt s -> holds_no_debt (run txs s).
Proof.
  apply (run_respects (keeps holds_no_debt) call_in_range).
  - intros s1 H. exact H.
  - intros s1 s2 s3 H12 H23 H. apply H23, H12, H.
  - intros call msg c s1 s2 Ha Hc Hd.
    exact (dispatch_holds_no_debt _ _ _ _ _ Ha Hc Hd).
Qed.

Lemma tracked_in_range (txs : list Tx) :
  Forall (tx_allowed tracked_call) txs -> Forall (tx_allowed call_in_range) txs.
Proof.
  intros H. refine (Forall_impl _ _ _ H _). intros tx [[Hc _] Hk].
  split; [ exact Hc | ]. refine (Forall_impl _ _ _ Hk _). intros rc [Hr _].
  exact Hr.
Qed.

(** A gap of zero: the tracked native balance is the amount held, as a
    [uint256]. *)
Lemma gap_zero_balance (s : State) :
  0 <= assetBalances s 0 < UINT256_MODULUS -> native_gap s = 0 ->
  assetBalances s 0 = nativeHeld s mod UINT256_MODULUS.
Proof.
  unfold native_gap. intros Hb Hg.
  rewrite <- (Z.mod_small (assetBalances s 0) UINT256_MODULUS) by exact Hb.
  symmetry. apply Z.mod_divide in Hg; [ | discriminate ].
  destruct Hg as [q Hq].
  replace (nativeHeld s) with (assetBalances s 0 + q * UINT256_MODULUS) by lia.
  apply Z_mod_plus_full.
Qed.

(** After a run without untracked inflow the gap is zero, the vault holds
    no debt and the action store is sound. *)
Lemma tracked_run (msg : Msg) (owners : list address) (threshold : uint256)
    (s0 : State) (txs : list Tx) :
  constructor msg owners threshold emptyState = Ok tt s0 ->
  Forall (tx_allowed tracked_call) txs ->
  native_gap (run txs s0) = 0 /\ 0 <= nativeHeld (run txs s0) /\
  store_sound (run txs s0).
Proof.
  intros H0 Htxs.
  pose proof (constructor_store_sound _ _ _ _ H0) as Hs0.
  apply constructor_post in H0.
  destruct H0 as (_ & _ & _ & _ & _ & _ & _ & _ & _ & _ & _ & Hb & _ & Hh).
  destruct (run_gap_kept txs s0 Htxs) as [Hc Hg]. split; [ | split ].
  - rewrite (Hg Hs0). unfold native_gap. rewrite Hh, Hb. reflexivity.
  - apply run_holds_no_debt; [ apply tracked_in_range, Htxs | ].
    unfold holds_no_debt. rewrite Hh. lia.
  - apply (Hc Hs0).
Qed.

(** X15.  The ledger of the native currency is exact as long as no
    currency reaches the vault behind its back: after any run of well-formed
    calls without forced transfers (and without token deposits naming the
    zero address), the vault holds a non-negative amount and the tracked
    native balance is that amount as a [uint256]; in particular, whenever
    the amount held fits a [uint256], the tracked balance equals it.  This
    holds across forwarded calls, call-backs, plain transfers and emergency
    withdrawals, although [executeAction] debits the ledger only after the
    call. *)
Theorem X15_native_ledger_exact (msg : Msg) (owners : list address)
    (threshold : uint256) (s0 : State) (txs : list Tx) :
  constructor msg owners threshold emptyState = Ok tt s0 ->
  Forall (tx_allowed tracked_call) txs ->
  0 <= nativeHeld (run txs s0) /\
  assetBalances (run txs s0) 0 = nativeHeld (run txs s0) mod UINT256_MODULUS /\
  (nativeHeld (run txs s0) < UINT256_MODULUS ->
   assetBalances (run txs s0) 0 = nativeHeld (run txs s0)).
Proof.
  intros H0 Htxs.
  assert (Hreach : reachable (run txs s0)).
  { exists msg, owners, threshold, s0, txs. split; [ exact H0 | reflexivity ]. }
  apply reachable_ledger_in_range in Hreach. specialize (Hreach 0).
  destruct (tracked_run msg owners threshold s0 txs H0 Htxs) as (Hg & Hn & _).
  pose proof (gap_zero_balance _ Hreach Hg) as E.
  split; [ exact Hn | ]. split; [ exact E | ].
  intros Hlt. rewrite E. apply Z.mod_small. lia.
Qed.

Lemma X15_native_ledger_exact_witness :
  0 <= nativeHeld (run Scenario.withdrawn_history Scenario.deployed) /\
  assetBalances (run Scenario.withdrawn_history Scenario.deployed) 0
  = nativeHeld (run Scenario.withdrawn_history Scenario.deployed)
      mod UINT256_MODULUS /\
  (nativeHeld (run Scenario.withdrawn_history Scenario.deployed)
   < UINT256_MODULUS ->
   assetBalances (run Scenario.withdrawn_history Scenario.deployed) 0
   = nativeHeld (run Scenario.withdrawn_history Scenario.deployed)).
Proof.
  apply (X15_native_ledger_exact (mkMsg Scenario.owner1 Scenario.t0)
           [Scenario.owner1; Scenario.owner2; Scenario.owner3] 2
           Scenario.deployed Scenario.withdrawn_history).
  - apply constructor_returns. vm_compute. reflexivity.
  - unfold Scenario.withdrawn_history, Scenario.large_history, Scenario.setup.
    cbn [app]. repeat constructor; by_compute.
Defined.

(** ** Outcome of [executeAction] *)

Lemma executeAction_check_passes (s : State) (now : uint256) (id : bytes32) :
  executeAction_check s now id = None ->
  locked s = false /\ paused s = false /\ executable s now id.
Proof.
  unfold executeAction_check, executable. cbv zeta. intros H.
  destruct (locked s); [ discriminate | ].
  destruct (paused s); [ discriminate | ].
  destruct (proposedAt (pendingActions s id) =? 0) eqn:E1; [ discriminate | ].
  destruct (executed (pendingActions s id)); [ discriminate | ].
  destruct (approvals (pendingActions s id) <? approvalThreshold s) eqn:E2;
    [ discriminate | ].
  destruct (now <? executionTime (pendingActions s id)) eqn:E3; [ discriminate | ].
  destruct (target (pendingActions s id) =? 0) eqn:E4;
    destruct (approvedStrategies s (target (pendingActions s id))) eqn:E5;
    try discriminate; Zbool; repeat split; auto.
Qed.

Lemma transact_executeAction (s : State) (who now : Z) (id : bytes32)
    (k : Callee) :
  executeAction_check s now id = None ->
  transact (mkTx who now (call_executeAction id) k) s
  = after_call id
      (low_level_call (run_callee now k) (target (pendingActions s id))
         (value (pendingActions s id)) (data (pendingActions s id))
         (forwarding_state s id)).
Proof.
  intros H. apply executeAction_check_passes in H. destruct H as (Hl & Hp & Hex).
  unfold transact, tx_msg. cbn [tx_call tx_callee tx_sender tx_timestamp dispatch].
  apply (executeAction_forward _ (mkMsg who now)); assumption.
Qed.

(** X16.  A transaction calling [executeAction] returns exactly when the
    vault is neither locked nor paused, the action exists, is not executed,
    has reached the threshold, its time-lock has expired, its target is the
    zero address or whitelisted, the vault holds the value to forward and the
    target accepts the call; otherwise it reverts with the error of the first
    of these that fails, [CallFailed] for the last two.  Who sends the
    transaction plays no role: no role is needed to execute. *)
Theorem X16_executeAction_outcome (s : State) (who now : Z) (id : bytes32)
    (k : Callee) :
  outcome (transact (mkTx who now (call_executeAction id) k) s)
  = executeAction_outcome s now id k.
Proof.
  unfold executeAction_outcome.
  destruct (executeAction_check s now id) as [e|] eqn:E.
  - unfold transact, tx_msg.
    cbn [tx_call tx_callee tx_sender tx_timestamp dispatch].
    rewrite (executeAction_check_fails _ (mkMsg who now) id s e E). reflexivity.
  - rewrite transact_executeAction by exact E.
    unfold low_level_call, run_callee, forwarding_state, after_call. vsimpl.
    destruct (nativeHeld s <? value (pendingActions s id)) eqn:Hv; Zbool.
    + rewrite (proj2 (Z.leb_gt _ _)) by lia. reflexivity.
    + rewrite (proj2 (Z.leb_le _ _)) by lia.
      destruct (succeeds k); reflexivity.
Qed.

(** X17.  Without untracked inflow the unchecked debit of [executeAction]
    is exact: in a vault driven by well-formed calls without forced
    transfers, holding an amount that fits a [uint256], an execution that
    returns (the target making no call-back) forwards a value that the
    tracked native balance covers, and debits both the tracked balance and
    the amount held by exactly that value. *)
Theorem X17_tracked_debit_is_exact (msg : Msg) (owners : list address)
    (threshold : uint256) (s0 : State) (txs : list Tx) (who now : Z)
    (id : bytes32) (k : Callee) :
  constructor msg owners threshold emptyState = Ok tt s0 ->
  Forall (tx_allowed tracked_call) txs ->
  nativeHeld (run txs s0) < UINT256_MODULUS ->
  reentrant k = [] ->
  outcome (transact (mkTx who now (call_executeAction id) k) (run txs s0)) = None ->
  let s := run txs s0 in
  let s' := step s (mkTx who now (call_executeAction id) k) in
  0 <= value (pendingActions s id) <= assetBalances s 0 /\
  assetBalances s' 0 = assetBalances s 0 - value (pendingActions s id) /\
  nativeHeld s' = nativeHeld s - value (pendingActions s id).
Proof.
  intros H0 Htxs Hfit Hk Hout. cbv zeta.
  destruct (tracked_run msg owners threshold s0 txs H0 Htxs)
    as (Hgap & Hheld & Hsound).
  assert (Hexact : assetBalances (run txs s0) 0 = nativeHeld (run txs s0)).
  { assert (Hreach : reachable (run txs s0)).
    { exists msg, owners, threshold, s0, txs. split; [ exact H0 | reflexivity ]. }
    rewrite (gap_zero_balance _ (reachable_ledger_in_range _ Hreach 0) Hgap).
    apply Z.mod_small. lia. }
  pose proof (sound_value_nonneg _ id Hsound) as Hv0.
  set (s := run txs s0) in *. set (v := value (pendingActions s id)) in *.
  destruct (executeAction_check s now id) as [e|] eqn:E.
  { exfalso. revert Hout. unfold transact, tx_msg.
    cbn [tx_call tx_callee tx_sender tx_timestamp dispatch].
    rewrite (executeAction_check_fails _ (mkMsg who now) id s e E). discriminate. }
  unfold step. rewrite transact_executeAction in Hout |- * by exact E.
  fold v in Hout |- *.
  unfold low_level_call, run_callee, forwarding_state, after_call in Hout |- *.
  vsimpl_all. rewrite Hk in *.
  destruct (nativeHeld s <? v) eqn:Hv; [ discriminate Hout | ].
  destruct (succeeds k); [ | discriminate Hout ]. Zbool.
  clear Hout. cbn [fold_left]. vsimpl.
  rewrite !fn_lookup_insert. vsimpl. fold v.
  split; [ lia | ].
  destruct (0 <? v) eqn:Hpos; vsimpl; Zbool.
  - split; [ | reflexivity ].
    rewrite fn_lookup_insert. unfold wrap. apply Z.mod_small. lia.
  - split; lia.
Qed.

Lemma X17_tracked_debit_is_exact_witness :
  let s := run Scenario.small_history Scenario.deployed in
  let s' := step s (mkTx Scenario.stranger Scenario.t0
                      (call_executeAction Scenario.small_id) accepts) in
  0 <= value (pendingActions s Scenario.small_id) <= assetBalances s 0 /\
  assetBalances s' 0
  = assetBalances s 0 - value (pendingActions s Scenario.small_id) /\
  nativeHeld s' = nativeHeld s - value (pendingActions s Scenario.small_id).
Proof.
  apply (X17_tracked_debit_is_exact (mkMsg Scenario.owner1 Scenario.t0)
           [Scenario.owner1; Scenario.owner2; Scenario.owner3] 2
           Scenario.deployed Scenario.small_history Scenario.stranger
           Scenario.t0 Scenario.small_id accepts).
  - apply constructor_returns. vm_compute. reflexivity.
  - unfold Scenario.small_history, Scenario.setup. cbn [app].
    repeat constructor; by_compute.
  - vm_compute. reflexivity.
  - reflexivity.
  - vm_compute. reflexivity.
Defined.

(** ** Actions along a run *)

Lemma dispatch_unproposed (id : bytes32) (call : ExternalCall) (msg : Msg)
    (c : Call) (s s' : State) :
  does_not_propose id msg c -> call_respects (keeps (unproposed id)) call ->
  dispatch call msg c s = Ok tt s' -> unproposed id s -> unproposed id s'.
Proof.
  unfold does_not_propose, keeps, unproposed. intros Hc Hcall H Hs.
  destruct c; cbn [proposes] in Hc; run_call H;
    repeat match goal with
           | E : call _ _ _ _ = Ok _ _ |- _ => apply Hcall in E; vsimpl_in E
           end; auto.
  (* proposeAction stores elsewhere *)
  all: try (unfold insert, fn_insert; rewrite decide_False by congruence;
            exact Hs).
  (* approveAction and executeAction need an existing action *)
  all: try (unfold insert, fn_insert; case_decide;
            [ subst; rewrite Hs in *; discriminate | exact Hs ]).
  (* after the forwarded call *)
  all: match goal with E : ?P -> ?Q |- ?Q => apply E end.
  all: unfold insert, fn_insert; case_decide;
    [ subst; rewrite Hs in *; discriminate | exact Hs ].
Qed.

Lemma run_unproposed (id : bytes32) (txs : list Tx) (s : State) :
  Forall (tx_allowed (does_not_propose id)) txs ->
  unproposed id s -> unproposed id (run txs s).
Proof.
  apply (run_respects (keeps (unproposed id)) (does_not_propose id)).
  - intros s1 H. exact H.
  - intros s1 s2 s3 H12 H23 H. apply H23, H12, H.
  - intros call msg c s1 s2 Ha Hc Hd.
    exact (dispatch_unproposed id _ _ _ _ _ Ha Hc Hd).
Qed.

(** X18.  An identifier that no [proposeAction] has produced names no
    action: as long as no transaction or call-back proposes it, its slot is
    untouched, an owner's [approveAction] of it reverts with
    [ActionNotFound] and leaves no approval record, and so does every
    [executeAction] of it on an unpaused vault.  Nothing can be approved or
    executed before it is proposed. *)
Theorem X18_unproposed_is_not_found (msg : Msg) (owners : list address)
    (threshold : uint256) (s0 : State) (txs : list Tx) (id : bytes32) :
  constructor msg owners threshold emptyState = Ok tt s0 ->
  Forall (tx_allowed (does_not_propose id)) txs ->
  let s := run txs s0 in
  pendingActions s id = zeroAction /\
  (forall m, roles s OWNER_ROLE (sender m) = true ->
             approveAction m id s = Err ActionNotFound) /\
  (forall call m, paused s = false ->
                  executeAction call m id s = Err ActionNotFound).
Proof.
  intros H0 Htxs. cbv zeta.
  assert (Hs : unproposed id (run txs s0)).
  { apply run_unproposed; [ exact Htxs | ]. apply constructor_post in H0.
    destruct H0 as (_ & _ & _ & _ & _ & _ & _ & _ & _ & Hp & _).
    unfold unproposed. rewrite Hp. reflexivity. }
  assert (Hl : locked (run txs s0) = false).
  { apply reachable_unlocked. exists msg, owners, threshold, s0, txs.
    split; [ exact H0 | reflexivity ]. }
  unfold unproposed in Hs. split; [ exact Hs | ]. split.
  - intros m Hm. unfold approveAction. unfold_monad. rewrite Hm, Hs. reflexivity.
  - intros call m Hp. unfold executeAction. unfold_monad. rewrite Hl. vsimpl.
    rewrite Hp, Hs. reflexivity.
Qed.

Lemma X18_unproposed_is_not_found_witness :
  let s := run Scenario.setup Scenario.deployed in
  pendingActions s Scenario.small_id = zeroAction /\
  (forall m, roles s OWNER_ROLE (sender m) = true ->
             approveAction m Scenario.small_id s = Err ActionNotFound) /\
  (forall call m, paused s = false ->
                  executeAction call m Scenario.small_id s = Err ActionNotFound).
Proof.
  apply (X18_unproposed_is_not_found (mkMsg Scenario.owner1 Scenario.t0)
           [Scenario.owner1; Scenario.owner2; Scenario.owner3] 2
           Scenario.deployed Scenario.setup Scenario.small_id).
  - apply constructor_returns. vm_compute. reflexivity.
  - unfold Scenario.setup. repeat constructor; intros H; exact H.
Defined.

(** ** The time-lock along a run *)

Lemma dispatch_locked_until (id : bytes32) (until : uint256)
    (call : ExternalCall) (msg : Msg) (c : Call) (s s' : State) :
  before id until msg c -> call_respects (keeps (locked_until id until)) call ->
  dispatch call msg c s = Ok tt s' ->
  locked_until id until s -> locked_until id until s'.
Proof.
  unfold before, keeps, locked_until. intros [Hnow Hc] Hcall H (Hex & Hne & Ht).
  destruct c; cbn [proposes] in Hc; run_call H;
    repeat match goal with
           | E : call _ _ _ _ = Ok _ _ |- _ => apply Hcall in E; vsimpl_in E
           end; auto.
  (* proposeAction stores elsewhere *)
  all: try (unfold insert, fn_insert; rewrite decide_False by congruence;
            auto; fail).
  (* approveAction changes the count only *)
  all: try (unfold insert, fn_insert; case_decide; subst; vsimpl; auto; fail).
  (* executeAction of [id] is stopped by the time-lock *)
  all: match goal with E : _ -> _ /\ _ /\ _ |- _ => apply E end.
  all: unfold insert, fn_insert; case_decide; subst; vsimpl; auto.
  all: Zbool; lia.
Qed.

(** X19.  The time-lock holds along every run: an existing, not yet
    executed action stays unexecuted, with its execution time unchanged,
    through any transactions and call-backs made at block times before that
    execution time, provided none of them proposes the same identifier
    again. *)
Theorem X19_timelock_holds (s : State) (txs : list Tx) (id : bytes32) :
  proposedAt (pendingActions s id) <> 0 ->
  executed (pendingActions s id) = false ->
  Forall (tx_allowed (before id (executionTime (pendingActions s id)))) txs ->
  executed (pendingActions (run txs s) id) = false /\
  executionTime (pendingActions (run txs s) id)
  = executionTime (pendingActions s id).
Proof.
  intros Hex Hne Htxs.
  assert (Hk : keeps (locked_until id (executionTime (pendingActions s id)))
                 s (run txs s)).
  { apply (run_respects
             (keeps (locked_until id (executionTime (pendingActions s id))))
             (before id (executionTime (pendingActions s id)))).
    - intros s1 H. exact H.
    - intros s1 s2 s3 H12 H23 H. apply H23, H12, H.
    - intros call msg c s1 s2 Ha Hc Hd.
      exact (dispatch_locked_until id _ _ _ _ _ _ Ha Hc Hd).
    - exact Htxs. }
  assert (H : locked_until id (executionTime (pendingActions s id)) (run txs s)).
  { apply Hk. repeat split; assumption. }
  destruct H as (_ & H1 & H2). split; assumption.
Qed.

Lemma X19_timelock_holds_witness :
  executed (pendingActions
              (run [ mkTx Scenario.stranger Scenario.t0
                       (call_executeAction Scenario.large_id) accepts;
                     mkTx Scenario.owner3 (Scenario.t0 + 3600)
                       (call_approveAction Scenario.large_id) accepts;
                     mkTx Scenario.stranger (Scenario.t0 + 86399)
                       (call_executeAction Scenario.large_id) accepts ]
                 Scenario.approved_large) Scenario.large_id) = false /\
  executionTime (pendingActions
                   (run [ mkTx Scenario.stranger Scenario.t0
                            (call_executeAction Scenario.large_id) accepts;
                          mkTx Scenario.owner3 (Scenario.t0 + 3600)
                            (call_approveAction Scenario.large_id) accepts;
                          mkTx Scenario.stranger (Scenario.t0 + 86399)
                            (call_executeAction Scenario.large_id) accepts ]
                      Scenario.approved_large) Scenario.large_id)
  = executionTime (pendingActions Scenario.approved_large Scenario.large_id).
Proof.
  apply (X19_timelock_holds Scenario.approved_large
           [ mkTx Scenario.stranger Scenario.t0
               (call_executeAction Scenario.large_id) accepts;
             mkTx Scenario.owner3 (Scenario.t0 + 3600)
               (call_approveAction Scenario.large_id) accepts;
             mkTx Scenario.stranger (Scenario.t0 + 86399)
               (call_executeAction Scenario.large_id) accepts ]
           Scenario.large_id).
  - vm_compute. discriminate.
  - vm_compute. reflexivity.
  - repeat constructor; try (intros H; exact H); vm_compute; reflexivity.
Defined.

(** ** Token deposits *)



(** ** Availability of the allocation view *)

Lemma sumBalances_outcome (s : State) (l : list address) (acc : uint256) :
  Forall (fun a => 0 <= assetBalances s a) l -> 0 <= acc < UINT256_MODULUS ->
  sumBalances l acc s
  = if acc + sum_over (assetBalances s) l <? UINT256_MODULUS
    then Ok (acc + sum_over (assetBalances s) l) s
    else Err (Panic 17).
Proof.
  intros Hl. revert acc. induction Hl as [|a l Ha Hl IH]; intros acc Hacc.
  - cbn [sumBalances sum_over fold_right]. rewrite Z.add_0_r.
    rewrite (proj2 (Z.ltb_lt _ _)) by lia. reflexivity.
  - cbn [sumBalances]. unfold_monad.
    pose proof (sum_over_nonneg _ _ Hl) as Hnn.
    unfold sum_over in *. cbn [fold_right].
    destruct (acc + assetBalances s a <? UINT256_MODULUS) eqn:E; Zbool.
    + rewrite IH by lia. rewrite Z.add_assoc. reflexivity.
    + rewrite (proj2 (Z.ltb_ge _ _)) by lia. reflexivity.
Qed.

Lemma allocationItems_outcome (s : State) (l : list address) (T : uint256) :
  allocationItems l T s
  = if (T <=? 0) ||
       forallb (fun a => assetBalances s a * 10000 <? UINT256_MODULUS) l
    then Ok (map (allocation_item s T) l) s
    else Err (Panic 17).
Proof.
  induction l as [|a l IH].
  - cbn [allocationItems forallb map]. rewrite orb_true_r. reflexivity.
  - cbn [allocationItems forallb map]. unfold_monad.
    unfold allocation_item at 1.
    destruct (0 <? T) eqn:HT; Zbool.
    + rewrite (proj2 (Z.leb_gt _ _)) in * by lia. cbn [orb] in *.
      destruct (assetBalances s a * 10000 <? UINT256_MODULUS); [ | reflexivity ].
      rewrite (proj2 (Z.eqb_neq _ _)) by lia. cbn [andb]. rewrite IH.
      destruct (forallb _ l); reflexivity.
    + rewrite (proj2 (Z.leb_le _ _)) in * by lia. cbn [orb] in *. rewrite IH.
      reflexivity.
Qed.

(** X21.  [getAllocation] is a view with one way to fail: with
    non-negative tracked balances it returns, leaving the storage untouched,
    one item per registered asset in list order, exactly when the sum of the
    registered balances fits a [uint256] and, unless that sum is zero, every
    registered balance times 10,000 does; otherwise it reverts with the
    overflow panic, so that a single oversized tracked balance makes the
    view unavailable. *)
Theorem X21_getAllocation_outcome (s : State) :
  Forall (fun a => 0 <= assetBalances s a) (supportedAssets s) ->
  getAllocation s
  = if allocation_fits s
    then Ok (map (allocation_item s (total_balance s)) (supportedAssets s)) s
    else Err (Panic 17).
Proof.
  intros Hbal. unfold getAllocation, allocation_fits, total_balance.
  unfold_monad. rewrite sumBalances_outcome; [ | exact Hbal | ]; cycle 1.
  { split; [ lia | reflexivity ]. }
  rewrite Z.add_0_l. pose proof (sum_over_nonneg _ _ Hbal) as Hnn.
  set (T := sum_over (assetBalances s) (supportedAssets s)) in *.
  destruct (T <? UINT256_MODULUS); [ | reflexivity ]. cbn [andb].
  rewrite allocationItems_outcome.
  replace (T <=? 0) with (T =? 0); [ reflexivity | ].
  destruct (T =? 0) eqn:E; Zbool; symmetry;
    [ apply Z.leb_le | apply Z.leb_gt ]; lia.
Qed.

Lemma X21_getAllocation_outcome_witness :
  getAllocation Scenario.thirds
  = if allocation_fits Scenario.thirds
    then Ok (map (allocation_item Scenario.thirds (total_balance Scenario.thirds))
               (supportedAssets Scenario.thirds))
           Scenario.thirds
    else Err (Panic 17).
Proof.
  apply (X21_getAllocation_outcome Scenario.thirds).
  vm_compute. repeat constructor; discriminate.
Defined.

(** ** The token ledger *)

Lemma dispatch_same_balance (token : address) (call : ExternalCall) (msg : Msg)
    (c : Call) (s s' : State) :
  token <> 0 -> leaves_token token msg c ->
  call_respects (same_balance token) call ->
  dispatch call msg c s = Ok tt s' -> same_balance token s s'.
Proof.
  unfold leaves_token, same_balance. intros Ht Hc Hcall H.
  destruct c; run_call H;
    repeat match goal with
           | E : call _ _ _ _ = Ok _ _ |- _ => apply Hcall in E; vsimpl_in E
           end; auto.
  all: unfold insert, fn_insert in *; repeat case_decide; subst;
    try congruence.
Qed.

(** X22.  The tracked balance of a token moves only through [deposit] and
    [emergencyWithdraw] of that token: every other transaction, an executed
    action that makes the target spend or receive the token included, and
    every call-back leaves it exactly as it was. *)
Theorem X22_token_ledger_moves_by_deposit_and_withdrawal (token : address)
    (s : State) (txs : list Tx) :
  token <> 0 ->
  Forall (tx_allowed (leaves_token token)) txs ->
  assetBalances (run txs s) token = assetBalances s token.
Proof.
  intros Ht Htxs. change (same_balance token s (run txs s)).
  apply (run_respects (same_balance token) (leaves_token token));
    [ | | | exact Htxs ].
  - intros s1. reflexivity.
  - unfold same_balance. intros s1 s2 s3 H12 H23. congruence.
  - intros call msg c s1 s2. apply dispatch_same_balance. exact Ht.
Qed.

Lemma X22_token_ledger_moves_by_deposit_and_withdrawal_witness :
  assetBalances
    (run [ Scenario.propose_small;
           mkTx Scenario.owner1 Scenario.t0 (call_deposit Scenario.tokenB 7) accepts;
           mkTx Scenario.owner1 Scenario.t0
             (call_emergencyWithdraw 0 Scenario.owner1 5) accepts ]
       Scenario.thirds) Scenario.tokenA
  = assetBalances Scenario.thirds Scenario.tokenA.
Proof.
  apply (X22_token_ledger_moves_by_deposit_and_withdrawal Scenario.tokenA
           Scenario.thirds
           [ Scenario.propose_small;
             mkTx Scenario.owner1 Scenario.t0 (call_deposit Scenario.tokenB 7) accepts;
             mkTx Scenario.owner1 Scenario.t0
               (call_emergencyWithdraw 0 Scenario.owner1 5) accepts ]).
  - vm_compute. discriminate.
  - repeat constructor; vm_compute; discriminate.
Defined.

(** * Properties of the StrategyExecutor *)

Ltac exec_monad :=
  unfold Executor.onlyOwner, Executor.nonReentrant, Executor.payable,
    Executor.checked_add, Executor.checked_sub, Executor.emit,
    Executor.modify, Executor.gets, Executor.revert, Executor.bind,
    Executor.ret in *.

Ltac exec_simpl :=
  cbn [Executor.owner Executor.locked Executor.pancakeRouter
       Executor.pancakeNFTManager Executor.venusComptroller
       Executor.tokenToVToken Executor.bnbStakingContract Executor.balance
       Executor.logs
       Executor.set_owner Executor.set_locked Executor.set_config
       Executor.set_tokenToVToken Executor.set_balance Executor.set_logs
       Executor.commit Executor.outcome sender timestamp fst snd
       negb andb orb] in *.

Ltac exec_unfold :=
  unfold Executor.dispatch, Executor.forcedTransfer, Executor.receive,
    Executor.transferOwnership, Executor.renounceOwnership,
    Executor.setVTokenMapping, Executor.swapTokens, Executor.addLiquidity,
    Executor.removeLiquidity, Executor.supplyToVenus,
    Executor.withdrawFromVenus, Executor.stakeBNB, Executor.claimRewards,
    Executor._approveIfNeeded, Executor.forceApprove,
    Executor.safeTransferFrom, Executor.safeTransfer,
    Executor._transferOwnership in *.

(** Case analysis of a call: conditions first, then the answers of the
    external calls, innermost first, then the tuples they return. *)
Ltac exec_split :=
  repeat match goal with
         | H : context [if ?c then _ else _] |- _ =>
             destruct c eqn:?; exec_simpl
         | H : context [match ?c with Executor.Ok _ _ => _ | Executor.Err _ => _ end] |- _ =>
             lazymatch c with
             | context [match _ with _ => _ end] => fail
             | _ => destruct c eqn:?; exec_simpl
             end
         | H : context [match ?p with pair _ _ => _ end] |- _ =>
             destruct p; exec_simpl
         end.

Ltac exec_call H :=
  exec_unfold; exec_monad; exec_simpl; exec_split;
  try discriminate H; inversion H; subst; clear H; exec_simpl.

(** ** Deployment *)

(** X23.  The executor's constructor accepts exactly a non-zero owner
    together with non-zero router, position-manager and comptroller
    addresses; the staking contract is not tested and may be zero.  A zero
    owner is rejected by [Ownable]'s constructor with
    [OwnableInvalidOwner(0)] before the body runs, so the body's own zero
    test of the owner never fires; a zero protocol address reverts with
    [AddressZero].  The deployed executor is owned by the given owner (not by
    the deployer), unlocked, configured as given, with an empty vToken table
    and the ownership transfer as its only event. *)
Theorem X23_executor_constructor
    (router manager comptroller staking initialOwner : address) :
  match Executor.constructor router manager comptroller staking initialOwner
          Executor.emptyState with
  | Executor.Ok _ s0 =>
      initialOwner <> 0 /\ router <> 0 /\ manager <> 0 /\ comptroller <> 0 /\
      Executor.deployed_with router manager comptroller staking initialOwner s0
  | Executor.Err e =>
      (initialOwner = 0 /\ e = Executor.OwnableInvalidOwner 0) \/
      (initialOwner <> 0 /\ (router = 0 \/ manager = 0 \/ comptroller = 0) /\
       e = Executor.AddressZero)
  end.
Proof.
  unfold Executor.constructor, Executor.Ownable_constructor,
    Executor._transferOwnership, Executor.deployed_with.
  exec_monad. unfold Executor.emptyState.
  destruct (initialOwner =? 0) eqn:Ho; Zbool; [ left; split; auto | ].
  exec_simpl.
  destruct (router =? 0) eqn:Hr; Zbool; [ right; auto | ].
  destruct (manager =? 0) eqn:Hm; Zbool; [ right; auto | ].
  destruct (comptroller =? 0) eqn:Hc; Zbool; [ right; auto | ].
  exec_simpl. repeat split; assumption.
Qed.

Lemma executor_constructor_post
    (router manager comptroller staking initialOwner : address)
    (s0 : Executor.State) :
  Executor.constructor router manager comptroller staking initialOwner
    Executor.emptyState = Executor.Ok tt s0 ->
  initialOwner <> 0 /\ router <> 0 /\ manager <> 0 /\ comptroller <> 0 /\
  Executor.deployed_with router manager comptroller staking initialOwner s0.
Proof.
  unfold Executor.constructor, Executor.Ownable_constructor,
    Executor._transferOwnership, Executor.deployed_with.
  exec_monad. unfold Executor.emptyState.
  destruct (initialOwner =? 0) eqn:Ho; Zbool; [ discriminate | ]. exec_simpl.
  destruct (router =? 0) eqn:Hr; Zbool; [ discriminate | ].
  destruct (manager =? 0) eqn:Hm; Zbool; [ discriminate | ].
  destruct (comptroller =? 0) eqn:Hc; Zbool; [ discriminate | ].
  intros H. inversion H; subst. exec_simpl. repeat split; assumption.
Qed.

(** ** Validation comes before interaction *)

Lemma optimal_ticks (t0 t1 : address) (fee : Z) :
  Executor.calculateOptimalTicks t0 t1 fee = (-887220, 887220).
Proof. reflexivity. Qed.

(** X25.  Every strategy function validates before it touches the outside
    world.  When a guard or an argument test fails the call reverts with the
    error of the first failing test, in the code's order (owner, lock, then
    the function's own tests), whatever the external contracts would do: none
    of them is called.  When all pass, the call goes on to the external
    contracts: in a world where nothing answers it reverts there. *)
Theorem X25_validation_precedes_interaction (s : Executor.State) (msg : Msg)
    (c : Executor.Call) :
  (forall e, Executor.precheck s msg c = Some e ->
             forall w, Executor.dispatch w msg c s = Executor.Err e) /\
  (Executor.calls_out c = true -> Executor.precheck s msg c = None ->
   timestamp msg + Executor.THIRTY_MINUTES < UINT256_MODULUS ->
   Executor.dispatch Executor.silent msg c s
   = Executor.Err Executor.ExternalRevert).
Proof.
  split.
  - intros e H w. unfold Executor.precheck in H.
    destruct c; cbn [Executor.calls_out] in H; try discriminate H;
      exec_unfold; exec_monad; exec_simpl;
      repeat match type of H with
             | context [if ?c then _ else _] =>
                 destruct c eqn:?; exec_simpl;
                 rewrite ?optimal_ticks; cbn [fst snd] in *
             end; try discriminate H; try congruence.
  - intros Hc H Hnow. unfold Executor.precheck in H. rewrite Hc in H.
    destruct c; try discriminate Hc;
      exec_unfold; exec_monad; exec_simpl;
      repeat match type of H with
             | context [if ?c then _ else _] =>
                 destruct c eqn:?; exec_simpl;
                 rewrite ?optimal_ticks; cbn [fst snd] in *
             end; try discriminate H; try reflexivity.
    all: try (rewrite (proj2 (Z.ltb_lt _ _) Hnow); reflexivity).
Qed.

(** X26.  With both ticks zero [addLiquidity] provides liquidity over the
    range [calculateOptimalTicks] returns, -887,220 to 887,220: whatever the
    external contracts do, the call behaves exactly as if those two ticks
    had been passed.  The two ticks are multiples of the tick spacing,
    symmetric, in order and within [int24], so that the automatic range
    never fails the range test. *)
Theorem X26_automatic_ticks (w : Executor.World Executor.M) (msg : Msg)
    (token0 token1 : address) (amount0 amount1 amount0Min amount1Min : uint256) :
  let ticks := Executor.calculateOptimalTicks token0 token1
                 Executor.DEFAULT_FEE_TIER in
  Executor.addLiquidity w msg token0 token1 amount0 amount1 0 0
    amount0Min amount1Min
  = Executor.addLiquidity w msg token0 token1 amount0 amount1 ticks.1 ticks.2
      amount0Min amount1Min /\
  ticks.1 mod Executor.TICK_SPACING = 0 /\
  ticks.2 mod Executor.TICK_SPACING = 0 /\
  ticks.1 = - ticks.2 /\ ticks.1 < ticks.2 /\
  - 2 ^ 23 <= ticks.1 /\ ticks.2 < 2 ^ 23.
Proof.
  cbv zeta. rewrite optimal_ticks. cbn [fst snd].
  split; [ reflexivity | ]. repeat split; try reflexivity; discriminate.
Qed.

(** ** Lifting a property of single executor calls to runs *)

Section ExecutorLifting.

Variable R : Executor.State -> Executor.State -> Prop.
Variable allowed : Msg -> Executor.Call -> Prop.

Hypothesis R_refl : forall s, R s s.
Hypothesis R_trans : forall s1 s2 s3, R s1 s2 -> R s2 s3 -> R s1 s3.

Hypothesis dispatch_respects :
  forall w msg c s s',
    allowed msg c -> Executor.world_respects R w ->
    Executor.dispatch w msg c s = Executor.Ok tt s' -> R s s'.

Lemma executor_silent_respects : Executor.world_respects R Executor.silent.
Proof.
  unfold Executor.world_respects, Executor.World_all, Executor.respects.
  repeat split; intros; discriminate.
Qed.

Lemma executor_callbacks_respect (now : uint256)
    (rcs : list (address * Executor.Call)) (s : Executor.State) :
  Forall (fun rc => allowed (mkMsg rc.1 now) rc.2) rcs ->
  R s (fold_left (Executor.reenter now) rcs s).
Proof.
  intros Hall. revert s. induction Hall as [|rc rcs Hrc _ IH]; intros s;
    [ apply R_refl | ].
  cbn [fold_left]. refine (R_trans _ _ _ _ (IH _)). unfold Executor.reenter.
  destruct (Executor.dispatch Executor.silent (mkMsg rc.1 now) rc.2 s)
    as [[] s'|e] eqn:E; [ | apply R_refl ].
  exact (dispatch_respects _ _ _ _ _ Hrc executor_silent_respects E).
Qed.

Lemma executor_play_respects {A} (now : uint256) (r : Executor.Reply A) :
  Forall (fun rc => allowed (mkMsg rc.1 now) rc.2) (Executor.reentrant r) ->
  Executor.respects R (Executor.play now r).
Proof.
  intros Hr s a s' H. unfold Executor.play in H.
  destruct (Executor.answer r); inversion H; subst.
  apply executor_callbacks_respect. exact Hr.
Qed.

Lemma executor_world_respects (now : uint256)
    (r : Executor.World Executor.Reply) :
  Executor.World_all
    (fun A rep => Forall (fun rc => allowed (mkMsg rc.1 now) rc.2)
                    (Executor.reentrant rep)) r ->
  Executor.world_respects R (Executor.world_of now r).
Proof.
  unfold Executor.world_respects, Executor.World_all.
  intros (H1 & H2 & H3 & H4 & H5 & H6 & H7 & H8 & H9 & H10 & H11 & H12 & H13
          & H14 & H15 & H16).
  cbn [Executor.world_of Executor.IERC20_transferFrom Executor.IERC20_transfer
       Executor.IERC20_forceApprove Executor.IERC20_allowance
       Executor.IERC20_balanceOf Executor.exactInputSingle Executor.mint
       Executor.decreaseLiquidity Executor.collect Executor.IVToken_balanceOf
       Executor.IVToken_mint Executor.IVToken_redeem Executor.enterMarkets
       Executor.claimVenus Executor.delegate Executor.IBNBStaking_claimRewards].
  repeat split; intros; apply executor_play_respects; auto.
Qed.

Lemma executor_step_respects (s : Executor.State) (tx : Executor.Tx) :
  Executor.tx_allowed allowed tx -> R s (Executor.step s tx).
Proof.
  intros [Hc Hw]. unfold Executor.step, Executor.transact.
  destruct (Executor.dispatch _ _ _ s) as [[] s'|e] eqn:E; [ | apply R_refl ].
  exact (dispatch_respects _ _ _ _ _ Hc (executor_world_respects _ _ Hw) E).
Qed.

Lemma executor_run_respects (txs : list Executor.Tx) (s : Executor.State) :
  Forall (Executor.tx_allowed allowed) txs -> R s (Executor.run txs s).
Proof.
  intros Hall. revert s. induction Hall as [|tx txs Htx _ IH]; intros s;
    [ apply R_refl | ].
  unfold Executor.run in *. cbn [fold_left].
  exact (R_trans _ _ _ (executor_step_respects _ _ Htx) (IH _)).
Qed.

End ExecutorLifting.

Lemma executor_every_tx_allowed (txs : list Executor.Tx) :
  Forall (Executor.tx_allowed Executor.any_call) txs.
Proof.
  induction txs as [|tx txs IH]; constructor; [ | exact IH ].
  split; [ exact I | ].
  unfold Executor.World_all, Executor.any_call.
  repeat split; intros; apply Forall_forall; intros; exact I.
Qed.

(** What the external calls did, from what the world respects. *)
Ltac exec_world Hw :=
  unfold Executor.world_respects, Executor.World_all, Executor.respects in Hw;
  destruct Hw as (W1 & W2 & W3 & W4 & W5 & W6 & W7 & W8 & W9 & W10 & W11 & W12
                  & W13 & W14 & W15 & W16);
  repeat match goal with
         | E : _ = Executor.Ok _ _ |- _ =>
             first [ apply W1 in E | apply W2 in E | apply W3 in E
                   | apply W4 in E | apply W5 in E | apply W6 in E
                   | apply W7 in E | apply W8 in E | apply W9 in E
                   | apply W10 in E | apply W11 in E | apply W12 in E
                   | apply W13 in E | apply W14 in E | apply W15 in E
                   | apply W16 in E ]
         end.

(** ** Configuration and vToken table *)

Lemma executor_dispatch_same_config (w : Executor.World Executor.M) (msg : Msg)
    (c : Executor.Call) (s s' : Executor.State) :
  Executor.world_respects Executor.same_config w ->
  Executor.dispatch w msg c s = Executor.Ok tt s' -> Executor.same_config s s'.
Proof.
  intros Hw H. destruct c; exec_call H; exec_world Hw;
    unfold Executor.same_config in *; exec_simpl;
    repeat match goal with E : _ /\ _ |- _ => destruct E end;
    repeat split; congruence.
Qed.

Lemma executor_run_same_config (txs : list Executor.Tx) (s : Executor.State) :
  Executor.same_config s (Executor.run txs s).
Proof.
  apply (executor_run_respects Executor.same_config Executor.any_call).
  - intros s1. repeat split.
  - unfold Executor.same_config.
    intros s1 s2 s3 (H1 & H2 & H3 & H4) (H5 & H6 & H7 & H8).
    repeat split; congruence.
  - intros w msg c s1 s2 _. apply executor_dispatch_same_config.
  - apply executor_every_tx_allowed.
Qed.

(** X28.  The executor's configuration is fixed at deployment: there is no
    setter, so after any transactions and call-backs the router, the
    position manager and the comptroller are the non-zero addresses given to
    the constructor, and the staking contract is the one given.  An executor
    deployed with the zero address as staking contract can therefore never
    stake: every [stakeBNB] reverts, whoever calls it, with whatever
    arguments and in whatever world. *)
Theorem X28_configuration_is_fixed
    (router manager comptroller staking initialOwner : address)
    (s0 : Executor.State) (txs : list Executor.Tx) :
  Executor.constructor router manager comptroller staking initialOwner
    Executor.emptyState = Executor.Ok tt s0 ->
  let s := Executor.run txs s0 in
  Executor.pancakeRouter s = router /\ router <> 0 /\
  Executor.pancakeNFTManager s = manager /\ manager <> 0 /\
  Executor.venusComptroller s = comptroller /\ comptroller <> 0 /\
  Executor.bnbStakingContract s = staking /\
  (staking = 0 ->
   forall w msg amount validator,
     Executor.outcome (Executor.stakeBNB w msg amount validator s) <> None).
Proof.
  intros H0. cbv zeta. apply executor_constructor_post in H0.
  destruct H0 as (_ & Hr & Hm & Hc & _ & _ & Er & Em & Ec & Es & _).
  destruct (executor_run_same_config txs s0) as (H1 & H2 & H3 & H4).
  rewrite H1, H2, H3, H4, Er, Em, Ec, Es.
  repeat (split; [ assumption || reflexivity | ]).
  intros -> w msg amount validator. unfold Executor.stakeBNB. exec_monad.
  destruct (Executor.owner _ =? sender msg); [ | discriminate ].
  destruct (Executor.locked _); [ discriminate | ].
  destruct (amount =? 0); [ discriminate | ].
  destruct (validator =? 0); [ discriminate | ].
  exec_simpl. rewrite H4, Es. discriminate.
Qed.

Lemma X28_configuration_is_fixed_witness :
  let s := Executor.run Executor.Scenario.setup Executor.Scenario.deployed in
  Executor.pancakeRouter s = Executor.Scenario.router /\
  Executor.Scenario.router <> 0 /\
  Executor.pancakeNFTManager s = Executor.Scenario.manager /\
  Executor.Scenario.manager <> 0 /\
  Executor.venusComptroller s = Executor.Scenario.comptroller /\
  Executor.Scenario.comptroller <> 0 /\
  Executor.bnbStakingContract s = Executor.Scenario.staking /\
  (Executor.Scenario.staking = 0 ->
   forall w msg amount validator,
     Executor.outcome (Executor.stakeBNB w msg amount validator s) <> None).
Proof.
  apply (X28_configuration_is_fixed Executor.Scenario.router
           Executor.Scenario.manager Executor.Scenario.comptroller
           Executor.Scenario.staking Executor.Scenario.vault
           Executor.Scenario.deployed Executor.Scenario.setup).
  reflexivity.
Defined.

(** ** The vToken table *)

Lemma executor_dispatch_support_kept (w : Executor.World Executor.M)
    (msg : Msg) (c : Executor.Call) (s s' : Executor.State) :
  Executor.world_respects Executor.support_kept w ->
  Executor.dispatch w msg c s = Executor.Ok tt s' -> Executor.support_kept s s'.
Proof.
  intros Hw H. destruct c; exec_call H; exec_world Hw;
    unfold Executor.support_kept in *; exec_simpl; intros t Ht; auto 10.
  unfold insert, fn_insert. case_decide; subst; [ | exact Ht ].
  match goal with Hb : (_ || _) = false |- _ =>
    apply orb_false_elim in Hb; destruct Hb end.
  Zbool. assumption.
Qed.

Lemma executor_run_support_kept (txs : list Executor.Tx) (s : Executor.State) :
  Executor.support_kept s (Executor.run txs s).
Proof.
  apply (executor_run_respects Executor.support_kept Executor.any_call).
  - intros s1 t Ht. exact Ht.
  - intros s1 s2 s3 H12 H23 t Ht. apply H23, H12, Ht.
  - intros w msg c s1 s2 _. apply executor_dispatch_support_kept.
  - apply executor_every_tx_allowed.
Qed.

(** X27.  [setVTokenMapping] called by the owner with two non-zero
    addresses returns, makes the token's vToken the given one and leaves
    every other entry alone; a zero token or vToken is rejected with
    [AddressZero], so that the table can re-point a token but never forget
    one: after any further transactions and call-backs the token still has a
    vToken, and [supplyToVenus] and [withdrawFromVenus] of it never stop at
    [UnsupportedToken]. *)
Theorem X27_vtoken_support (s : Executor.State) (msg : Msg)
    (token vToken : address) (txs : list Executor.Tx) :
  Executor.owner s = sender msg -> token <> 0 -> vToken <> 0 ->
  let s1 := Executor.commit s (Executor.setVTokenMapping msg token vToken s) in
  Executor.setVTokenMapping msg token vToken s = Executor.Ok tt s1 /\
  Executor.tokenToVToken s1 token = vToken /\
  (forall t, t <> token -> Executor.tokenToVToken s1 t = Executor.tokenToVToken s t) /\
  Executor.setVTokenMapping msg 0 vToken s = Executor.Err Executor.AddressZero /\
  Executor.setVTokenMapping msg token 0 s = Executor.Err Executor.AddressZero /\
  Executor.tokenToVToken (Executor.run txs s1) token <> 0 /\
  (forall m amount,
     Executor.precheck (Executor.run txs s1) m
       (Executor.call_supplyToVenus token amount)
     <> Some Executor.UnsupportedToken /\
     Executor.precheck (Executor.run txs s1) m
       (Executor.call_withdrawFromVenus token amount)
     <> Some Executor.UnsupportedToken).
Proof.
  intros Ho Ht Hv. cbv zeta. unfold Executor.setVTokenMapping. exec_monad.
  rewrite Ho, Z.eqb_refl.
  rewrite (proj2 (Z.eqb_neq _ _) Ht), (proj2 (Z.eqb_neq _ _) Hv). exec_simpl.
  split; [ reflexivity | ]. split; [ apply fn_lookup_insert | ].
  split; [ intros t Hne; apply fn_lookup_insert_ne; congruence | ].
  split; [ reflexivity | ].
  split; [ reflexivity | ].
  match goal with |- Executor.tokenToVToken (Executor.run txs ?s1) token <> 0 /\ _ =>
    assert (Hkept : Executor.tokenToVToken (Executor.run txs s1) token <> 0) end.
  { apply executor_run_support_kept. exec_simpl. rewrite fn_lookup_insert.
    exact Hv. }
  split; [ exact Hkept | ]. intros m amount.
  unfold Executor.precheck. cbn [Executor.calls_out].
  rewrite (proj2 (Z.eqb_neq _ _) Hkept).
  split; destruct (Executor.owner _ =? sender m); try discriminate;
    destruct (Executor.locked _); try discriminate;
    destruct (amount =? 0); discriminate.
Qed.

Lemma X27_vtoken_support_witness :
  let s1 := Executor.commit Executor.Scenario.deployed
              (Executor.setVTokenMapping
                 (mkMsg Executor.Scenario.vault Executor.Scenario.t0)
                 Executor.Scenario.usdt Executor.Scenario.vusdt
                 Executor.Scenario.deployed) in
  Executor.setVTokenMapping (mkMsg Executor.Scenario.vault Executor.Scenario.t0)
    Executor.Scenario.usdt Executor.Scenario.vusdt Executor.Scenario.deployed
  = Executor.Ok tt s1 /\
  Executor.tokenToVToken s1 Executor.Scenario.usdt = Executor.Scenario.vusdt /\
  (forall t, t <> Executor.Scenario.usdt ->
             Executor.tokenToVToken s1 t
             = Executor.tokenToVToken Executor.Scenario.deployed t) /\
  Executor.setVTokenMapping (mkMsg Executor.Scenario.vault Executor.Scenario.t0)
    0 Executor.Scenario.vusdt Executor.Scenario.deployed
  = Executor.Err Executor.AddressZero /\
  Executor.setVTokenMapping (mkMsg Executor.Scenario.vault Executor.Scenario.t0)
    Executor.Scenario.usdt 0 Executor.Scenario.deployed
  = Executor.Err Executor.AddressZero /\
  Executor.tokenToVToken (Executor.run Executor.Scenario.setup s1)
    Executor.Scenario.usdt <> 0 /\
  (forall m amount,
     Executor.precheck (Executor.run Executor.Scenario.setup s1) m
       (Executor.call_supplyToVenus Executor.Scenario.usdt amount)
     <> Some Executor.UnsupportedToken /\
     Executor.precheck (Executor.run Executor.Scenario.setup s1) m
       (Executor.call_withdrawFromVenus Executor.Scenario.usdt amount)
     <> Some Executor.UnsupportedToken).
Proof.
  apply (X27_vtoken_support Executor.Scenario.deployed
           (mkMsg Executor.Scenario.vault Executor.Scenario.t0)
           Executor.Scenario.usdt Executor.Scenario.vusdt
           Executor.Scenario.setup).
  - reflexivity.
  - discriminate.
  - discriminate.
Defined.

(** ** Who may use the executor *)

Lemma executor_only_owner (w : Executor.World Executor.M) (msg : Msg)
    (c : Executor.Call) (s : Executor.State) :
  Executor.owner s <> sender msg -> Executor.owner_only c = true ->
  Executor.dispatch w msg c s
  = Executor.Err (Executor.OwnableUnauthorizedAccount (sender msg)).
Proof.
  intros Ho Hc. apply Z.eqb_neq in Ho.
  destruct c; try discriminate Hc; exec_unfold; exec_monad; rewrite Ho;
    reflexivity.
Qed.

Lemma only_balance_changed_owner (s s' : Executor.State) :
  Executor.only_balance_changed s s' -> Executor.owner s' = Executor.owner s.
Proof.
  unfold Executor.only_balance_changed. intros H.
  apply (f_equal Executor.owner) in H. exact H.
Qed.

Lemma executor_dispatch_strangers (A : address -> Prop)
    (w : Executor.World Executor.M) (msg : Msg) (c : Executor.Call)
    (s s' : Executor.State) :
  Executor.sent_by A msg c ->
  Executor.dispatch w msg c s = Executor.Ok tt s' ->
  Executor.strangers_kept A s s'.
Proof.
  unfold Executor.sent_by. intros Ha H Hout. specialize (Hout _ Ha).
  destruct (Executor.owner_only c) eqn:Hc.
  - rewrite (executor_only_owner w msg c s Hout Hc) in H. discriminate.
  - destruct c; try discriminate Hc; exec_call H;
      unfold Executor.only_balance_changed; destruct s; reflexivity.
Qed.

(** X24.  Only the owner can use the executor: every function but
    [receive] reverts with [OwnableUnauthorizedAccount] for any other
    sender, in every state and whatever the external contracts would do; and
    whatever transactions and call-backs other accounts send, the executor's
    storage (owner, configuration, vToken table, lock, log) stays as it was:
    all they can change is the native currency it holds. *)
Theorem X24_only_the_owner (A : address -> Prop) (s : Executor.State)
    (txs : list Executor.Tx) :
  (forall a, A a -> Executor.owner s <> a) ->
  Forall (Executor.tx_allowed (Executor.sent_by A)) txs ->
  Executor.only_balance_changed s (Executor.run txs s) /\
  (forall w a now c,
     A a -> Executor.owner_only c = true ->
     Executor.dispatch w (mkMsg a now) c (Executor.run txs s)
     = Executor.Err (Executor.OwnableUnauthorizedAccount a)).
Proof.
  intros Hout Htxs.
  assert (Hk : Executor.strangers_kept A s (Executor.run txs s)).
  { apply (executor_run_respects (Executor.strangers_kept A) (Executor.sent_by A));
      [ | | | exact Htxs ].
    - intros s1 _. reflexivity.
    - unfold Executor.strangers_kept, Executor.only_balance_changed.
      intros s1 s2 s3 H12 H23 H1. specialize (H12 H1).
      rewrite H23; [ exact H12 | ].
      intros a Ha. rewrite (only_balance_changed_owner _ _ H12). apply H1, Ha.
    - intros w msg c s1 s2 Ha _. apply executor_dispatch_strangers. exact Ha. }
  specialize (Hk Hout). split; [ exact Hk | ].
  intros w a now c Ha Hc. apply (executor_only_owner w (mkMsg a now)); [ | exact Hc ].
  rewrite (only_balance_changed_owner _ _ Hk). apply Hout, Ha.
Qed.

Lemma X24_only_the_owner_witness :
  Executor.only_balance_changed Executor.Scenario.ready
    (Executor.run
       [ Executor.mkTx Executor.Scenario.stranger Executor.Scenario.t0
           (Executor.call_transferOwnership Executor.Scenario.stranger)
           (Executor.plain 0);
         Executor.mkTx Executor.Scenario.stranger Executor.Scenario.t0
           (Executor.call_receive 5) (Executor.plain 0) ]
       Executor.Scenario.ready) /\
  (forall w a now c,
     a = Executor.Scenario.stranger -> Executor.owner_only c = true ->
     Executor.dispatch w (mkMsg a now) c
       (Executor.run
          [ Executor.mkTx Executor.Scenario.stranger Executor.Scenario.t0
              (Executor.call_transferOwnership Executor.Scenario.stranger)
              (Executor.plain 0);
            Executor.mkTx Executor.Scenario.stranger Executor.Scenario.t0
              (Executor.call_receive 5) (Executor.plain 0) ]
          Executor.Scenario.ready)
     = Executor.Err (Executor.OwnableUnauthorizedAccount a)).
Proof.
  apply (X24_only_the_owner (fun a => a = Executor.Scenario.stranger)
           Executor.Scenario.ready).
  - intros a ->. vm_compute. discriminate.
  - repeat constructor.
Defined.

(** ** The reentrancy lock *)

Lemma executor_dispatch_same_lock (w : Executor.World Executor.M) (msg : Msg)
    (c : Executor.Call) (s s' : Executor.State) :
  Executor.world_respects Executor.same_lock w ->
  Executor.dispatch w msg c s = Executor.Ok tt s' -> Executor.same_lock s s'.
Proof.
  intros Hw H. destruct c; exec_call H; exec_world Hw;
    unfold Executor.same_lock in *; exec_simpl; congruence.
Qed.

Lemma executor_reachable_unlocked (s : Executor.State) :
  Executor.reachable s -> Executor.locked s = false.
Proof.
  intros (r & m & c & st & o & s0 & txs & H0 & ->).
  apply executor_constructor_post in H0.
  destruct H0 as (_ & _ & _ & _ & _ & Hl & _).
  rewrite <- Hl. change (Executor.same_lock s0 (Executor.run txs s0)).
  apply (executor_run_respects Executor.same_lock Executor.any_call).
  - intros s1. reflexivity.
  - unfold Executor.same_lock. intros s1 s2 s3 H12 H23. congruence.
  - intros w msg c' s1 s2 _. apply executor_dispatch_same_lock.
  - apply executor_every_tx_allowed.
Qed.

(** While the lock is held the world plays no role: a call-back either
    stops at a guard or is a function that does not call out.  This is what
    allows [Executor.reenter] to run call-backs in the silent world. *)
Lemma executor_dispatch_locked (w : Executor.World Executor.M) (msg : Msg)
    (c : Executor.Call) (s : Executor.State) :
  Executor.locked s = true ->
  Executor.dispatch w msg c s = Executor.dispatch Executor.silent msg c s.
Proof.
  intros Hl. destruct c; try reflexivity; exec_unfold; exec_monad;
    destruct (Executor.owner s =? sender msg); try reflexivity;
    rewrite Hl; reflexivity.
Qed.

(** X29.  Strategy functions do not nest.  Between transactions the lock
    is released; while a strategy function is waiting for an external
    contract, every call-back into a strategy function reverts (with
    [ReentrancyGuardReentrantCall] when it comes from the owner, with
    [OwnableUnauthorizedAccount] otherwise), so that a series of such
    call-backs leaves the storage untouched. *)
Theorem X29_strategies_do_not_nest (s : Executor.State) (now : uint256)
    (rcs : list (address * Executor.Call)) :
  (Executor.reachable s -> Executor.locked s = false) /\
  (Executor.locked s = true ->
   (forall w msg c,
      Executor.calls_out c = true ->
      Executor.dispatch w msg c s
      = Executor.Err (if Executor.owner s =? sender msg
                      then Executor.ReentrancyGuardReentrantCall
                      else Executor.OwnableUnauthorizedAccount (sender msg))) /\
   (Forall (fun rc => Executor.calls_out rc.2 = true) rcs ->
    fold_left (Executor.reenter now) rcs s = s)).
Proof.
  split; [ apply executor_reachable_unlocked | ]. intros Hl.
  assert (Hd : forall w msg c,
             Executor.calls_out c = true ->
             Executor.dispatch w msg c s
             = Executor.Err (if Executor.owner s =? sender msg
                             then Executor.ReentrancyGuardReentrantCall
                             else Executor.OwnableUnauthorizedAccount (sender msg))).
  { intros w msg c Hc.
    destruct c; try discriminate Hc; exec_unfold; exec_monad;
      destruct (Executor.owner s =? sender msg); try reflexivity;
      rewrite Hl; reflexivity. }
  split; [ exact Hd | ].
  induction 1 as [|rc rcs Hrc _ IH]; [ reflexivity | ].
  cbn [fold_left]. unfold Executor.reenter at 2.
  rewrite (Hd _ _ _ Hrc). exact IH.
Qed.

(** ** Staking *)

(** X30.  [stakeBNB] never sends what the executor does not hold.  When
    its tests pass (owner, lock, non-zero amount and validator, a staking
    contract, amount not above the balance), the amount leaves with the one
    call to the staking contract: if that contract accepts without calling
    back, the balance has dropped by exactly the amount, [BNBStaked] is
    logged and nothing else has changed; if it reverts, so does the whole
    call, and the balance is untouched. *)
Theorem X30_stakeBNB_effect (s : Executor.State) (who now : Z)
    (amount : uint256) (validator : address)
    (r : Executor.World Executor.Reply) :
  Executor.precheck s (mkMsg who now) (Executor.call_stakeBNB amount validator)
  = None ->
  let tx := Executor.mkTx who now (Executor.call_stakeBNB amount validator) r in
  let reply := Executor.delegate r (Executor.bnbStakingContract s) validator
                 amount in
  amount <= Executor.balance s /\
  match Executor.answer reply with
  | Some _ =>
      Executor.outcome (Executor.transact tx s) = None /\
      (Executor.reentrant reply = [] ->
       Executor.step s tx
       = Executor.set_logs (fun l => l ++ [Executor.BNBStaked amount validator])
           (Executor.set_balance (fun b => b - amount) s))
  | None =>
      Executor.transact tx s = Executor.Err Executor.ExternalRevert /\
      Executor.step s tx = s
  end.
Proof.
  intros H. cbv zeta. unfold Executor.precheck in H.
  cbn [Executor.calls_out sender] in H.
  destruct (Executor.owner s =? who) eqn:Ho; [ | discriminate ].
  destruct (Executor.locked s) eqn:Hl; [ discriminate | ].
  destruct (amount =? 0) eqn:Ha; [ discriminate | ].
  destruct (validator =? 0) eqn:Hv; [ discriminate | ].
  destruct (Executor.bnbStakingContract s =? 0) eqn:Hs; [ discriminate | ].
  destruct (Executor.balance s <? amount) eqn:Hb; [ discriminate | ].
  split; [ Zbool; lia | ].
  unfold Executor.step, Executor.transact, Executor.tx_msg.
  cbn [Executor.tx_call Executor.tx_world Executor.tx_sender
       Executor.tx_timestamp Executor.dispatch].
  unfold Executor.stakeBNB. exec_monad. exec_simpl.
  rewrite Ho, Hl. exec_simpl. rewrite Ha, Hv. exec_simpl.
  rewrite Hs. exec_simpl. rewrite Hb. exec_simpl.
  cbn [Executor.world_of Executor.delegate]. unfold Executor.play.
  destruct (Executor.answer _) as [[]|]; exec_simpl.
  - split; [ reflexivity | ]. intros ->. cbn [fold_left].
    destruct s. unfold Executor.set_logs, Executor.set_balance,
      Executor.set_locked. exec_simpl. subst. reflexivity.
  - split; reflexivity.
Qed.

Lemma X30_stakeBNB_effect_witness :
  let tx := Executor.mkTx Executor.Scenario.vault Executor.Scenario.t0
              (Executor.call_stakeBNB 4 7) (Executor.plain 0) in
  let reply := Executor.delegate (Executor.plain 0)
                 (Executor.bnbStakingContract Executor.Scenario.ready) 7 4 in
  4 <= Executor.balance Executor.Scenario.ready /\
  match Executor.answer reply with
  | Some _ =>
      Executor.outcome (Executor.transact tx Executor.Scenario.ready) = None /\
      (Executor.reentrant reply = [] ->
       Executor.step Executor.Scenario.ready tx
       = Executor.set_logs (fun l => l ++ [Executor.BNBStaked 4 7])
           (Executor.set_balance (fun b => b - 4) Executor.Scenario.ready))
  | None =>
      Executor.transact tx Executor.Scenario.ready
      = Executor.Err Executor.ExternalRevert /\
      Executor.step Executor.Scenario.ready tx = Executor.Scenario.ready
  end.
Proof.
  apply (X30_stakeBNB_effect Executor.Scenario.ready Executor.Scenario.vault
           Executor.Scenario.t0 4 7 (Executor.plain 0)).
  vm_compute. reflexivity.
Defined.
